(** * DJAI MIDI Controller: the audio streaming pipeline

    A shallow embedding of the byte decoder and PCM buffer builder of
    [src/utils/AudioAnalyser.ts], of the chunk handler, [stop], [pause] and
    [resetAudioPipelineToStopped] of [src/index.tsx], of the stored-prompt
    merge of [getInitialPrompts], and of the connection callbacks, [play],
    the prompt edits and the storing of the prompts of [src/index.tsx],
    followed by the properties proved of them. *)

From Stdlib Require Import ZArith NArith PArith List Bool Lia String Ascii.
From Stdlib Require Import Strings.Byte.
From Stdlib Require Import QArith Lqa Floats.
Import ListNotations.

Set Implicit Arguments.
Set Warnings "-register-all".

(** ** JavaScript values and completions *)

Module Js.

(** The exceptions the modelled platform calls can throw. *)
Inductive Exn : Type :=
| InvalidCharacterError
| RangeError
| NotSupportedError
| IndexSizeError
| TypeError
| SyntaxError.

(** A completion: a value, or a thrown exception (for an [async] function,
    a rejected promise). *)
Inductive result (A : Type) : Type :=
| Ok (a : A)
| Throw (e : Exn).
Arguments Ok {A} a.
Arguments Throw {A} e.

Definition bind {A B} (r : result A) (k : A -> result B) : result B :=
  match r with
  | Ok a => k a
  | Throw e => Throw e
  end.

(** [try { body } catch (e) { handler }]. *)
Definition try_catch {A} (body : result A) (handler : Exn -> result A)
  : result A :=
  match body with
  | Ok a => Ok a
  | Throw e => handler e
  end.

(** A JavaScript string is its sequence of UTF-16 code units. *)
Definition JsString : Type := list N.

Definition js (s : string) : JsString :=
  List.map N_of_ascii (list_ascii_of_string s).

(** The values a parameter typed [string] can hold at run time. *)
Inductive JsValue : Type :=
| JUndefined
| JNull
| JBool (b : bool)
| JNumber (f : float)
| JString (s : JsString)
| JObject.

(** A [Uint8Array]: its elements, and the offset of the view in its
    underlying [ArrayBuffer].  [new Uint8Array(len)] has offset 0. *)
Record Uint8Array : Type := mkUint8Array {
  byteOffset : nat;
  elems : list byte
}.

Definition new_Uint8Array (contents : list byte) : Uint8Array :=
  {| byteOffset := 0; elems := contents |}.

(** [a[i] = v] on a typed array: a write past the end is ignored. *)
Fixpoint array_set {A} (l : list A) (i : nat) (v : A) : list A :=
  match l, i with
  | [], _ => []
  | _ :: t, O => v :: t
  | h :: t, S i' => h :: array_set t i' v
  end.

(** Storing a number into a [Uint8Array] element keeps its low 8 bits. *)
Definition byte_of_code (c : N) : byte :=
  match Byte.of_N (c mod 256) with
  | Some b => b
  | None => x00
  end.

End Js.

Import Js.

Notation "x <- r ;; k" := (Js.bind r (fun x => k))
  (at level 61, r at next level, right associativity).

(** ** The platform's [atob] and [btoa] (WHATWG forgiving-base64) *)

Module Base64.

Local Open Scope N_scope.

Definition pad : N := 61.   (* '=' *)

(** The base64 alphabet: the character of a 6-bit value. *)
Definition b64char (s : N) : N :=
  if s <? 26 then 65 + s
  else if s <? 52 then 71 + s
  else if s <? 62 then s - 4
  else if s =? 62 then 43
  else 47.

(** The 6-bit value of an alphabet character. *)
Definition b64value (c : N) : option N :=
  if (65 <=? c) && (c <=? 90) then Some (c - 65)
  else if (97 <=? c) && (c <=? 122) then Some (c - 71)
  else if (48 <=? c) && (c <=? 57) then Some (c + 4)
  else if c =? 43 then Some 62
  else if c =? 47 then Some 63
  else None.

(** ASCII whitespace: TAB, LF, FF, CR, SPACE. *)
Definition is_ascii_whitespace (c : N) : bool :=
  (c =? 9) || (c =? 10) || (c =? 12) || (c =? 13) || (c =? 32).

Fixpoint to_sextets (bs : list N) : list N :=
  match bs with
  | a :: b :: c :: rest =>
      a / 4 :: (a mod 4) * 16 + b / 16 :: (b mod 16) * 4 + c / 64
        :: c mod 64 :: to_sextets rest
  | [a; b] => [a / 4; (a mod 4) * 16 + b / 16; (b mod 16) * 4]
  | [a] => [a / 4; (a mod 4) * 16]
  | [] => []
  end.

Definition padding (n : nat) : list N :=
  List.repeat pad ((3 - n mod 3) mod 3)%nat.

(** [btoa]: throws when a code unit is above 255, else the base64 of the
    string's code units taken as bytes. *)
Definition btoa (s : JsString) : result JsString :=
  if List.forallb (fun c => c <=? 255) s
  then Ok (List.map b64char (to_sextets s) ++ padding (List.length s))
  else Throw InvalidCharacterError.

(** Removes one or two trailing '=' when the length is a multiple of 4. *)
Definition strip_padding (l : JsString) : JsString :=
  if (List.length l mod 4 =? 0)%nat then
    match List.rev l with
    | c1 :: r1 =>
        if c1 =? pad then
          match r1 with
          | c2 :: r2 => if c2 =? pad then List.rev r2 else List.rev r1
          | [] => List.rev r1
          end
        else l
    | [] => l
    end
  else l.

Fixpoint sextets_of (l : JsString) : option (list N) :=
  match l with
  | [] => Some []
  | c :: t =>
      match b64value c, sextets_of t with
      | Some v, Some vs => Some (v :: vs)
      | _, _ => None
      end
  end.

(** Four sextets give three bytes; a final group of three gives two bytes
    and of two gives one, the left-over bits being discarded. *)
Fixpoint of_sextets (l : list N) : list N :=
  match l with
  | a :: b :: c :: d :: rest =>
      a * 4 + b / 16 :: (b mod 16) * 16 + c / 4 :: (c mod 4) * 64 + d
        :: of_sextets rest
  | [a; b; c] => [a * 4 + b / 16; (b mod 16) * 16 + c / 4]
  | [a; b] => [a * 4 + b / 16]
  | _ => []
  end.

(** [atob]: strips whitespace and padding, throws on a length of 1 modulo 4
    or on a character outside the alphabet, else the decoded bytes as a
    binary string. *)
Definition atob (s : JsString) : result JsString :=
  let data :=
    strip_padding (List.filter (fun c => negb (is_ascii_whitespace c)) s) in
  if (List.length data mod 4 =? 1)%nat then Throw InvalidCharacterError
  else
    match sextets_of data with
    | Some vs => Ok (of_sextets vs)
    | None => Throw InvalidCharacterError
    end.

End Base64.

(** ** [src/utils/AudioAnalyser.ts] *)

Module AudioAnalyser.

Import Base64.

(** [binaryString.charCodeAt(i)] for [i] inside the string. *)
Definition charCodeAt (s : JsString) (i : nat) : N := List.nth i s 0%N.

(** The loop [for (let i = 0; i < len; i++)] of [decode], which sets
    [bytes[i] = binaryString.charCodeAt(i)], with [n] iterations left. *)
Fixpoint decode_loop (binaryString : JsString) (n i : nat) (bytes : list byte)
  : list byte :=
  match n with
  | O => bytes
  | S n' =>
      decode_loop binaryString n' (S i)
        (array_set bytes i (byte_of_code (charCodeAt binaryString i)))
  end.

(** [decode]: base64 to [Uint8Array].  A value that is not a string, or
    the empty string, gives an empty array at once; the [catch] turns an
    exception of [atob] into an empty array. *)
Definition decode (base64 : JsValue) : result Uint8Array :=
  match base64 with
  | JString (c :: cs) =>
      try_catch
        (binaryString <- atob (c :: cs) ;;
         let len := List.length binaryString in
         let bytes := List.repeat x00 len in
         Ok (new_Uint8Array (decode_loop binaryString len 0 bytes)))
        (fun _ => Ok (new_Uint8Array []))
  | _ => Ok (new_Uint8Array [])
  end.

(** The loop [binary += String.fromCharCode(bytes[i])] of [encode]. *)
Fixpoint encode_loop (bytes : list byte) (n i : nat) (binary : JsString)
  : JsString :=
  match n with
  | O => binary
  | S n' =>
      encode_loop bytes n' (S i)
        (binary ++ [Byte.to_N (List.nth i bytes x00)])
  end.

(** [encode]: [Uint8Array] to base64. *)
Definition encode (bytes : Uint8Array) : result JsString :=
  btoa (encode_loop (elems bytes) (List.length (elems bytes)) 0 []).

(** *** The PCM buffer builder *)

(** Storing a number into a [Float32Array] element rounds it to the nearest
    binary32 value (ties to even), as IEEE 754 rounding at precision 24 and
    maximal exponent 128. *)
Definition fround (x : float) : float :=
  match Prim2SF x with
  | S754_finite s m e => SF2Prim (SpecFloat.binary_round 24 128 s m e)
  | _ => x
  end.

(** The JavaScript number of an integer (exact below 2^53). *)
Definition number_of_Z (z : Z) : float :=
  match z with
  | Z0 => PrimFloat.zero
  | Zpos _ => PrimFloat.of_uint63 (Uint63.of_Z z)
  | Zneg q => PrimFloat.opp (PrimFloat.of_uint63 (Uint63.of_Z (Zpos q)))
  end.

(** An [AudioBuffer]: [channels] holds one [Float32Array] of [length]
    samples per channel.  [T] is the type of JavaScript numbers used for
    sample rates and times. *)
Record AudioBuffer (T : Type) : Type := mkAudioBuffer {
  sampleRate : T;
  duration : T;
  length : nat;
  channels : list (list float)
}.

Definition numberOfChannels {T} (b : AudioBuffer T) : nat :=
  List.length (channels b).

(** [buffer.getChannelData(channel)]. *)
Definition getChannelData {T} (b : AudioBuffer T) (channel : nat)
  : result (list float) :=
  match List.nth_error (channels b) channel with
  | Some channelData => Ok channelData
  | None => Throw IndexSizeError
  end.

(** The array returned by [getChannelData] is the buffer's own: writing to
    it changes the buffer. *)
Definition setChannelData {T} (b : AudioBuffer T) (channel : nat)
    (channelData : list float) : AudioBuffer T :=
  {| sampleRate := sampleRate b;
     duration := duration b;
     length := length b;
     channels := array_set (channels b) channel channelData |}.

(** The part of an [AudioContext] the builder uses: its buffer allocator
    [createBuffer(numberOfChannels, length, sampleRate)], which the platform
    lets throw. *)
Record AudioContext (T : Type) : Type := mkAudioContext {
  createBuffer : Z -> Z -> T -> result (AudioBuffer T)
}.

Definition silence (numChannels numFrames : nat) : list (list float) :=
  List.repeat (List.repeat PrimFloat.zero numFrames) numChannels.

(** The value of the 16-bit little-endian two's-complement sample made of
    the bytes [lo] and [hi]. *)
Definition int16_of_bytes (lo hi : byte) : Z :=
  let u := (Z.of_N (Byte.to_N lo) + 256 * Z.of_N (Byte.to_N hi))%Z in
  if (u <? 32768)%Z then u else (u - 65536)%Z.

Fixpoint int16_elements (bs : list byte) (len : nat) {struct len} : list Z :=
  match len, bs with
  | S len', lo :: hi :: rest => int16_of_bytes lo hi :: int16_elements rest len'
  | _, _ => []
  end.

(** [new Int16Array(data.buffer, data.byteOffset, len)]: a [RangeError]
    when the offset is not a multiple of the element size. *)
Definition new_Int16Array (data : Uint8Array) (len : nat) : result (list Z) :=
  if Nat.even (byteOffset data)
  then Ok (int16_elements (elems data) len)
  else Throw RangeError.

(** The body of the inner loop: the sample written to [channelData[i]]. *)
Definition convertSample (dataInt16 : list Z) (sampleIndex : nat) : float :=
  if (sampleIndex <? List.length dataInt16)%nat
  then fround (PrimFloat.div (number_of_Z (List.nth sampleIndex dataInt16 0%Z))
                             32768%float)
  else fround PrimFloat.zero.

(** [for (let i = 0; i < numFrames; i++)], with [n] iterations left. *)
Fixpoint frame_loop (dataInt16 : list Z) (numChannels channel : nat)
    (n i : nat) (channelData : list float) : list float :=
  match n with
  | O => channelData
  | S n' =>
      let sampleIndex := (i * numChannels + channel)%nat in
      frame_loop dataInt16 numChannels channel n' (S i)
        (array_set channelData i (convertSample dataInt16 sampleIndex))
  end.

(** [for (let channel = 0; channel < numChannels; channel++)], with [n]
    iterations left. *)
Fixpoint channel_loop {T} (dataInt16 : list Z) (numChannels numFrames : nat)
    (n channel : nat) (buffer : AudioBuffer T) : result (AudioBuffer T) :=
  match n with
  | O => Ok buffer
  | S n' =>
      channelData <- getChannelData buffer channel ;;
      channel_loop dataInt16 numChannels numFrames n' (S channel)
        (setChannelData buffer channel
           (frame_loop dataInt16 numChannels channel numFrames 0 channelData))
  end.

(** [decodeAudioData].  [numChannels] is an integer-valued number other
    than 0 (for 0 the quotient is [Infinity] in JavaScript). *)
Definition decodeAudioData {T} (data : Uint8Array) (ctx : AudioContext T)
    (sampleRate : T) (numChannels : Z) : result (AudioBuffer T) :=
  let dataLength := Z.of_nat (List.length (elems data)) in
  if (dataLength =? 0)%Z then createBuffer ctx numChannels 1%Z sampleRate
  else
    let bytesPerSample := 2%Z in
    let numFrames := (dataLength / (bytesPerSample * numChannels))%Z in
    if (numFrames =? 0)%Z then createBuffer ctx numChannels 1%Z sampleRate
    else
      buffer <- createBuffer ctx numChannels numFrames sampleRate ;;
      dataInt16 <-
        new_Int16Array data (Z.to_nat (dataLength / bytesPerSample)) ;;
      channel_loop dataInt16 (Z.to_nat numChannels) (Z.to_nat numFrames)
        (Z.to_nat numChannels) 0 buffer.

End AudioAnalyser.

Import AudioAnalyser.

(** ** JavaScript numbers as audio-clock times

    The scheduler adds and compares times.  It is written over any number
    type with these operations, the doubles of the program among them.
    [OrderLaws] holds the laws of the order that the properties use, and
    [SumLaws] the one law of sums: adding a number that is not negative to
    one that is not negative does not go backwards.  Both are proved of
    the doubles, NaN included. *)

Module Number.

Class Ops (T : Type) : Type := {
  zero : T;
  one : T;
  lit_0_1 : T;       (* the literal 0.1 *)
  lit_0_0001 : T;    (* the literal 0.0001 *)
  lit_1000 : T;      (* the literal 1000 *)
  add : T -> T -> T;
  mul : T -> T -> T;
  div : T -> T -> T;
  ltb : T -> T -> bool;   (* a < b *)
  leb : T -> T -> bool;   (* a <= b *)
  eqb : T -> T -> bool    (* a === b *)
}.

(** [a] is not later than [b]: [b < a] is false. *)
Definition le {T} `{Ops T} (a b : T) : Prop := ltb b a = false.

Definition lt {T} `{Ops T} (a b : T) : Prop := ltb a b = true.

Class OrderLaws (T : Type) {O : Ops T} : Prop := {
  ltb_leb : forall a b, ltb a b = true -> leb a b = true;
  leb_ltb : forall a b, leb a b = true -> ltb b a = false;
  leb_trans : forall a b c, leb a b = true -> leb b c = true -> leb a c = true;
  leb_refl_r : forall a b, leb a b = true -> leb b b = true;
  leb_total : forall a b,
    leb a a = true -> leb b b = true -> ltb a b = false -> leb b a = true;
  eqb_zero_leb : forall a b, eqb a zero = true -> leb a b = leb zero b
}.
Arguments OrderLaws T {O}.

Class SumLaws (T : Type) {O : Ops T} : Prop := {
  add_advances : forall a d,
    leb zero a = true -> leb zero d = true -> leb a (add a d) = true;
  lit_0_1_nonneg : leb zero lit_0_1 = true;
  one_nonneg : leb zero one = true
}.
Arguments SumLaws T {O}.

(** The rationals. *)
Definition Qltb (a b : Q) : bool := negb (Qle_bool b a).

#[export] Instance QOps : Ops Q := {|
  zero := 0%Q;
  one := 1%Q;
  lit_0_1 := (1 # 10)%Q;
  lit_0_0001 := (1 # 10000)%Q;
  lit_1000 := 1000%Q;
  add := Qplus;
  mul := Qmult;
  div := Qdiv;
  ltb := Qltb;
  leb := Qle_bool;
  eqb := Qeq_bool
|}.

(** IEEE 754 doubles, as the program runs on. *)
#[export] Instance FloatOps : Ops float := {|
  zero := PrimFloat.zero;
  one := PrimFloat.one;
  lit_0_1 := 0x1.999999999999ap-4%float;
  lit_0_0001 := 0x1.a36e2eb1c432dp-14%float;
  lit_1000 := 1000%float;
  add := PrimFloat.add;
  mul := PrimFloat.mul;
  div := PrimFloat.div;
  ltb := PrimFloat.ltb;
  leb := PrimFloat.leb;
  eqb := PrimFloat.eqb
|}.

End Number.

(** ** [src/index.tsx]: the session and playback state of [PromptDjMidi] *)

Module PromptDjMidi.

Import Number.

(** [PlaybackState] of [src/types.ts]. *)
Inductive PlaybackState : Type := stopped | playing | loading | paused.

Inductive ContextState : Type := suspended | running | closed.

(** The handle of a live session; [setBpm] may be missing from it. *)
Record Session : Type := mkSession {
  has_setBpm : bool
}.

(** The calls the modelled methods make on the session. *)
Inductive SessionCall : Type :=
| CallSetBpm
| CallSetMusicGenerationConfig
| CallPause
| CallStop.

(** How a call on the session ends: it returns, it throws an error whose
    message the caller's [catch] recognises as a lost session, or it throws
    another error. *)
Inductive Outcome : Type := Returns | ThrowsSessionLost | ThrowsOther.

Inductive GainEvent (T : Type) : Type :=
| SetValueAtTime (value time : T)
| LinearRampToValueAtTime (value time : T).

Inductive Toast : Type :=
| ToastFiltered (filteredReason : JsString)
| ToastSessionLostBpm
| ToastPlayError.

(** One chunk of [serverContent.audioChunks]: its [data] property. *)
Record AudioChunk : Type := mkAudioChunk {
  data : JsValue
}.

Record FilteredPrompt : Type := mkFilteredPrompt {
  text : JsString;
  filteredReason : JsString
}.

Section WithNumbers.

Context {T : Type} {O : Ops T}.

(** [setupComplete], with its properties [sampleRateHertz] and
    [channels]: a property is [None] when it is missing. *)
Record SetupComplete : Type := mkSetupComplete {
  sampleRateHertz : option T;
  setupChannels : option Z
}.

(** A [LiveMusicServerMessage]; [audioChunks] is
    [serverContent.audioChunks], whose elements may be undefined. *)
Record ServerMessage : Type := mkServerMessage {
  setupComplete : option SetupComplete;
  filteredPrompt : option FilteredPrompt;
  audioChunks : option (list (option AudioChunk))
}.

(** What one run of the message handler reads from outside: the audio
    clock, how [session.setBpm] ends and whether
    [audioContext.resume()] succeeds. *)
Record Env : Type := mkEnv {
  currentTime : T;
  setBpmOutcome : Outcome;
  resumeSucceeds : bool
}.

Record State : Type := mkState {
  playbackState : PlaybackState;   (* this.playbackState *)
  session : option Session;   (* this.session, [None] for undefined *)
  connectionError : bool;   (* this.connectionError *)
  nextStartTime : T;   (* this.nextStartTime *)
  sessionSampleRate : T;   (* this.sessionSampleRate *)
  sessionNumChannels : Z;   (* this.sessionNumChannels *)
  filteredPrompts : list JsString;   (* this.filteredPrompts *)
  currentBpm : option T;   (* this.currentBpm, [None] for null *)
  settingsControllerEl : bool;   (* the element is there *)
  audioContext : AudioContext T;   (* this.audioContext, its allocator *)
  contextState : ContextState;   (* this.audioContext.state *)
  gainValue : T;   (* this.outputNode.gain.value *)
  gainAutomation : list (GainEvent T);   (* events scheduled on the gain *)
  created : list (AudioBuffer T);   (* sources created and connected *)
  started : list (T * AudioBuffer T);   (* the calls source.start(when) *)
  timers : list T;   (* pending loading-to-playing timeouts, by delay in ms *)
  toasts : list Toast;   (* messages shown, oldest first *)
  sent : list SessionCall   (* calls made on the session, oldest first *)
}.

Definition set_playbackState (v : PlaybackState) (st : State) : State :=
  {| playbackState := v; session := session st;
     connectionError := connectionError st;
     nextStartTime := nextStartTime st;
     sessionSampleRate := sessionSampleRate st;
     sessionNumChannels := sessionNumChannels st;
     filteredPrompts := filteredPrompts st; currentBpm := currentBpm st;
     settingsControllerEl := settingsControllerEl st;
     audioContext := audioContext st; contextState := contextState st;
     gainValue := gainValue st; gainAutomation := gainAutomation st;
     created := created st; started := started st; timers := timers st;
     toasts := toasts st; sent := sent st |}.

Definition set_session (v : option Session) (st : State) : State :=
  {| playbackState := playbackState st; session := v;
     connectionError := connectionError st;
     nextStartTime := nextStartTime st;
     sessionSampleRate := sessionSampleRate st;
     sessionNumChannels := sessionNumChannels st;
     filteredPrompts := filteredPrompts st; currentBpm := currentBpm st;
     settingsControllerEl := settingsControllerEl st;
     audioContext := audioContext st; contextState := contextState st;
     gainValue := gainValue st; gainAutomation := gainAutomation st;
     created := created st; started := started st; timers := timers st;
     toasts := toasts st; sent := sent st |}.

Definition set_connectionError (v : bool) (st : State) : State :=
  {| playbackState := playbackState st; session := session st;
     connectionError := v; nextStartTime := nextStartTime st;
     sessionSampleRate := sessionSampleRate st;
     sessionNumChannels := sessionNumChannels st;
     filteredPrompts := filteredPrompts st; currentBpm := currentBpm st;
     settingsControllerEl := settingsControllerEl st;
     audioContext := audioContext st; contextState := contextState st;
     gainValue := gainValue st; gainAutomation := gainAutomation st;
     created := created st; started := started st; timers := timers st;
     toasts := toasts st; sent := sent st |}.

Definition set_nextStartTime (v : T) (st : State) : State :=
  {| playbackState := playbackState st; session := session st;
     connectionError := connectionError st; nextStartTime := v;
     sessionSampleRate := sessionSampleRate st;
     sessionNumChannels := sessionNumChannels st;
     filteredPrompts := filteredPrompts st; currentBpm := currentBpm st;
     settingsControllerEl := settingsControllerEl st;
     audioContext := audioContext st; contextState := contextState st;
     gainValue := gainValue st; gainAutomation := gainAutomation st;
     created := created st; started := started st; timers := timers st;
     toasts := toasts st; sent := sent st |}.

Definition set_sessionSampleRate (v : T) (st : State) : State :=
  {| playbackState := playbackState st; session := session st;
     connectionError := connectionError st;
     nextStartTime := nextStartTime st; sessionSampleRate := v;
     sessionNumChannels := sessionNumChannels st;
     filteredPrompts := filteredPrompts st; currentBpm := currentBpm st;
     settingsControllerEl := settingsControllerEl st;
     audioContext := audioContext st; contextState := contextState st;
     gainValue := gainValue st; gainAutomation := gainAutomation st;
     created := created st; started := started st; timers := timers st;
     toasts := toasts st; sent := sent st |}.

Definition set_sessionNumChannels (v : Z) (st : State) : State :=
  {| playbackState := playbackState st; session := session st;
     connectionError := connectionError st;
     nextStartTime := nextStartTime st;
     sessionSampleRate := sessionSampleRate st; sessionNumChannels := v;
     filteredPrompts := filteredPrompts st; currentBpm := currentBpm st;
     settingsControllerEl := settingsControllerEl st;
     audioContext := audioContext st; contextState := contextState st;
     gainValue := gainValue st; gainAutomation := gainAutomation st;
     created := created st; started := started st; timers := timers st;
     toasts := toasts st; sent := sent st |}.

Definition set_filteredPrompts (v : list JsString) (st : State) : State :=
  {| playbackState := playbackState st; session := session st;
     connectionError := connectionError st;
     nextStartTime := nextStartTime st;
     sessionSampleRate := sessionSampleRate st;
     sessionNumChannels := sessionNumChannels st; filteredPrompts := v;
     currentBpm := currentBpm st;
     settingsControllerEl := settingsControllerEl st;
     audioContext := audioContext st; contextState := contextState st;
     gainValue := gainValue st; gainAutomation := gainAutomation st;
     created := created st; started := started st; timers := timers st;
     toasts := toasts st; sent := sent st |}.

Definition set_contextState (v : ContextState) (st : State) : State :=
  {| playbackState := playbackState st; session := session st;
     connectionError := connectionError st;
     nextStartTime := nextStartTime st;
     sessionSampleRate := sessionSampleRate st;
     sessionNumChannels := sessionNumChannels st;
     filteredPrompts := filteredPrompts st; currentBpm := currentBpm st;
     settingsControllerEl := settingsControllerEl st;
     audioContext := audioContext st; contextState := v;
     gainValue := gainValue st; gainAutomation := gainAutomation st;
     created := created st; started := started st; timers := timers st;
     toasts := toasts st; sent := sent st |}.

Definition set_gainValue (v : T) (st : State) : State :=
  {| playbackState := playbackState st; session := session st;
     connectionError := connectionError st;
     nextStartTime := nextStartTime st;
     sessionSampleRate := sessionSampleRate st;
     sessionNumChannels := sessionNumChannels st;
     filteredPrompts := filteredPrompts st; currentBpm := currentBpm st;
     settingsControllerEl := settingsControllerEl st;
     audioContext := audioContext st; contextState := contextState st;
     gainValue := v; gainAutomation := gainAutomation st;
     created := created st; started := started st; timers := timers st;
     toasts := toasts st; sent := sent st |}.

Definition set_gainAutomation (v : list (GainEvent T)) (st : State) : State :=
  {| playbackState := playbackState st; session := session st;
     connectionError := connectionError st;
     nextStartTime := nextStartTime st;
     sessionSampleRate := sessionSampleRate st;
     sessionNumChannels := sessionNumChannels st;
     filteredPrompts := filteredPrompts st; currentBpm := currentBpm st;
     settingsControllerEl := settingsControllerEl st;
     audioContext := audioContext st; contextState := contextState st;
     gainValue := gainValue st; gainAutomation := v;
     created := created st; started := started st; timers := timers st;
     toasts := toasts st; sent := sent st |}.

Definition set_created (v : list (AudioBuffer T)) (st : State) : State :=
  {| playbackState := playbackState st; session := session st;
     connectionError := connectionError st;
     nextStartTime := nextStartTime st;
     sessionSampleRate := sessionSampleRate st;
     sessionNumChannels := sessionNumChannels st;
     filteredPrompts := filteredPrompts st; currentBpm := currentBpm st;
     settingsControllerEl := settingsControllerEl st;
     audioContext := audioContext st; contextState := contextState st;
     gainValue := gainValue st; gainAutomation := gainAutomation st;
     created := v; started := started st; timers := timers st;
     toasts := toasts st; sent := sent st |}.

Definition set_started (v : list (T * AudioBuffer T)) (st : State) : State :=
  {| playbackState := playbackState st; session := session st;
     connectionError := connectionError st;
     nextStartTime := nextStartTime st;
     sessionSampleRate := sessionSampleRate st;
     sessionNumChannels := sessionNumChannels st;
     filteredPrompts := filteredPrompts st; currentBpm := currentBpm st;
     settingsControllerEl := settingsControllerEl st;
     audioContext := audioContext st; contextState := contextState st;
     gainValue := gainValue st; gainAutomation := gainAutomation st;
     created := created st; started := v; timers := timers st;
     toasts := toasts st; sent := sent st |}.

Definition set_timers (v : list T) (st : State) : State :=
  {| playbackState := playbackState st; session := session st;
     connectionError := connectionError st;
     nextStartTime := nextStartTime st;
     sessionSampleRate := sessionSampleRate st;
     sessionNumChannels := sessionNumChannels st;
     filteredPrompts := filteredPrompts st; currentBpm := currentBpm st;
     settingsControllerEl := settingsControllerEl st;
     audioContext := audioContext st; contextState := contextState st;
     gainValue := gainValue st; gainAutomation := gainAutomation st;
     created := created st; started := started st; timers := v;
     toasts := toasts st; sent := sent st |}.

Definition set_toasts (v : list Toast) (st : State) : State :=
  {| playbackState := playbackState st; session := session st;
     connectionError := connectionError st;
     nextStartTime := nextStartTime st;
     sessionSampleRate := sessionSampleRate st;
     sessionNumChannels := sessionNumChannels st;
     filteredPrompts := filteredPrompts st; currentBpm := currentBpm st;
     settingsControllerEl := settingsControllerEl st;
     audioContext := audioContext st; contextState := contextState st;
     gainValue := gainValue st; gainAutomation := gainAutomation st;
     created := created st; started := started st; timers := timers st;
     toasts := v; sent := sent st |}.

Definition set_sent (v : list SessionCall) (st : State) : State :=
  {| playbackState := playbackState st; session := session st;
     connectionError := connectionError st;
     nextStartTime := nextStartTime st;
     sessionSampleRate := sessionSampleRate st;
     sessionNumChannels := sessionNumChannels st;
     filteredPrompts := filteredPrompts st; currentBpm := currentBpm st;
     settingsControllerEl := settingsControllerEl st;
     audioContext := audioContext st; contextState := contextState st;
     gainValue := gainValue st; gainAutomation := gainAutomation st;
     created := created st; started := started st; timers := timers st;
     toasts := toasts st; sent := v |}.

(** [private readonly bufferTime = 1]. *)
Definition bufferTime : T := one.

Definition showToast (t : Toast) (st : State) : State :=
  set_toasts (toasts st ++ [t]) st.

Definition call (c : SessionCall) (st : State) : State :=
  set_sent (sent st ++ [c]) st.

(** [sendCurrentBpmToSession], the awaited call ending as [o]. *)
Definition sendCurrentBpmToSession (o : Outcome) (st : State) : State :=
  match session st, currentBpm st with
  | Some s, Some _ =>
      if has_setBpm s then
        let st1 := call CallSetBpm st in
        match o with
        | Returns => st1
        | ThrowsSessionLost =>
            showToast ToastSessionLostBpm
              (set_session None
                 (set_playbackState stopped (set_connectionError true st1)))
        | ThrowsOther => st1
        end
      else st
  | _, _ => st
  end.

(** [handleSettingsChanged] up to its first [await]: the caller does not
    await it, so the rest runs after the caller is done. *)
Definition handleSettingsChanged (st : State) : State :=
  match session st with
  | Some _ =>
      if negb (connectionError st)
      then call CallSetMusicGenerationConfig st
      else st
  | None => st
  end.

(** [resetAudioPipelineToStopped], at audio-clock time [now]; the two
    calls on the gain are taken not to throw. *)
Definition resetAudioPipelineToStopped (now : T) (st : State) : State :=
  let st1 :=
    match contextState st with
    | running =>
        set_gainAutomation
          (gainAutomation st
             ++ [SetValueAtTime (gainValue st) now;
                 LinearRampToValueAtTime zero (add now lit_0_1)]) st
    | _ => set_gainValue zero st
    end in
  set_nextStartTime zero st1.

(** [pause], the call [session.pause()] ending as [o]. *)
Definition pause (o : Outcome) (now : T) (st : State) : State :=
  let st1 :=
    match session st with
    | Some _ =>
        let st' := call CallPause st in
        match o with
        | ThrowsSessionLost => set_session None st'
        | _ => st'
        end
    | None => st
    end in
  resetAudioPipelineToStopped now (set_playbackState paused st1).

(** [stop], the call [session.stop()] ending as [o]: both branches of
    its [catch] only log. *)
Definition stop (o : Outcome) (now : T) (st : State) : State :=
  let st1 :=
    match session st with
    | Some _ => call CallStop st
    | None => st
    end in
  resetAudioPipelineToStopped now (set_playbackState stopped st1).

(** The callback given to [setTimeout] for the first buffer. *)
Definition timerCallback (st : State) : State :=
  match playbackState st with
  | loading => set_playbackState playing st
  | _ => st
  end.

(** The first pending timeout elapses. *)
Definition fireTimer (st : State) : State :=
  match timers st with
  | [] => st
  | _ :: rest => timerCallback (set_timers rest st)
  end.

(** Lines 711-716 of the handler: the first buffer since (re)start. *)
Definition firstBufferStep (now : T) (st : State) : State :=
  if eqb (nextStartTime st) zero
  then set_timers (timers st ++ [mul bufferTime lit_1000])
         (set_nextStartTime (add now bufferTime) st)
  else st.

(** Lines 718-722: the scheduling cursor has fallen behind the clock. *)
Definition underrunStep (now : T) (st : State) : State :=
  if ltb (nextStartTime st) now
  then set_nextStartTime (add now lit_0_1) (set_playbackState loading st)
  else st.

(** Lines 723-724: [source.start(this.nextStartTime)], taken not to
    throw, and the advance of the cursor. *)
Definition startStep (audioBuffer : AudioBuffer T) (st : State) : State :=
  set_nextStartTime (add (nextStartTime st) (duration audioBuffer))
    (set_started (started st ++ [(nextStartTime st, audioBuffer)]) st).

(** Lines 711-724 of the handler, the audio clock reading [now]. *)
Definition scheduleBuffer (now : T) (audioBuffer : AudioBuffer T)
    (st : State) : State :=
  startStep audioBuffer (underrunStep now (firstBufferStep now st)).

(** The test of line 698: the builder returned its minimal buffer. *)
Definition isMinimalBuffer (audioBuffer : AudioBuffer T) (sampleRate : T)
  : bool :=
  (length audioBuffer <=? 1)%nat
  && leb (duration audioBuffer) (add (div one sampleRate) lit_0_0001).

(** Lines 681-729: the [try] block run on a chunk's data, with its
    [catch].  The two awaited calls are taken to complete before any
    other event is handled. *)
Definition playChunk (env : Env) (chunkData : JsString) (st : State)
  : State :=
  match decode (JString chunkData) with
  | Throw _ => showToast ToastPlayError st
  | Ok decodedBytes =>
      if (List.length (elems decodedBytes) =? 0)%nat then st
      else
        let sampleRate := sessionSampleRate st in
        let numChannels := sessionNumChannels st in
        match decodeAudioData decodedBytes (audioContext st) sampleRate
                numChannels with
        | Throw _ => showToast ToastPlayError st
        | Ok audioBuffer =>
            if isMinimalBuffer audioBuffer sampleRate then st
            else
              let st1 := set_created (created st ++ [audioBuffer]) st in
              match contextState st1 with
              | suspended =>
                  if resumeSucceeds env
                  then scheduleBuffer (currentTime env) audioBuffer
                         (set_contextState running st1)
                  else showToast ToastPlayError st1
              | _ => scheduleBuffer (currentTime env) audioBuffer st1
              end
        end
  end.

Fixpoint mem_string (s : JsString) (l : list JsString) : bool :=
  match l with
  | [] => false
  | x :: t => if list_eq_dec N.eq_dec s x then true else mem_string s t
  end.

(** Lines 649-669: the [setupComplete] part of the handler. *)
Definition onSetupComplete (env : Env) (sc : SetupComplete) (st : State)
  : State :=
  let st1 := set_connectionError false st in
  let st2 :=
    match sampleRateHertz sc with
    | Some r => if eqb r zero then st1 else set_sessionSampleRate r st1
    | None => st1
    end in
  let st3 :=
    match setupChannels sc with
    | Some c => if (c =? 0)%Z then st2 else set_sessionNumChannels c st2
    | None => st2
    end in
  let st4 := sendCurrentBpmToSession (setBpmOutcome env) st3 in
  match settingsControllerEl st4, session st4 with
  | true, Some _ => handleSettingsChanged st4
  | _, _ => st4
  end.

(** Lines 670-674: the [filteredPrompt] part. *)
Definition onFilteredPrompt (fp : FilteredPrompt) (st : State) : State :=
  let st1 :=
    if mem_string (text fp) (filteredPrompts st) then st
    else set_filteredPrompts (filteredPrompts st ++ [text fp]) st in
  showToast (ToastFiltered (filteredReason fp)) st1.

(** Lines 675-735: the audio part. *)
Definition onAudioChunks (env : Env)
    (chunks : option (list (option AudioChunk))) (st : State) : State :=
  match chunks with
  | Some (firstChunk :: _) =>
      match firstChunk with
      | Some {| data := JString (c :: cs) |} =>
          match playbackState st with
          | paused | stopped => st
          | _ => playChunk env (c :: cs) st
          end
      | _ => st
      end
  | _ => st
  end.

(** The [onmessage] callback of [connectToSession]. *)
Definition onmessage (env : Env) (e : ServerMessage) (st : State) : State :=
  let st1 :=
    match setupComplete e with
    | Some sc => onSetupComplete env sc st
    | None => st
    end in
  let st2 :=
    match filteredPrompt e with
    | Some fp => onFilteredPrompt fp st1
    | None => st1
    end in
  onAudioChunks env (audioChunks e) st2.

End WithNumbers.

Arguments State T : clear implicits.
Arguments ServerMessage T : clear implicits.
Arguments SetupComplete T : clear implicits.
Arguments Env T : clear implicits.

End PromptDjMidi.

(** ** [src/index.tsx]: loading the stored prompts *)

Module Prompts.

Local Open Scope string_scope.

(** A value made by [JSON.parse]. *)
Inductive Json : Type :=
| JsonNull
| JsonBool (b : bool)
| JsonNum (n : float)
| JsonStr (s : string)
| JsonArr (items : list Json)
| JsonObj (props : list (string * Json)).

(** A JavaScript value that may be [undefined] ([None]). *)
Definition Value : Type := option Json.

Fixpoint assoc {A} (key : string) (l : list (string * A)) : option A :=
  match l with
  | [] => None
  | (k, v) :: t => if String.eqb k key then Some v else assoc key t
  end.

(** [j.key] for one of the keys of a prompt: a [TypeError] on [null],
    [undefined] on a value without that property. *)
Definition get (j : Json) (key : string) : result Value :=
  match j with
  | JsonNull => Throw TypeError
  | JsonObj props => Ok (assoc key props)
  | _ => Ok None
  end.

(** Truthiness, as [if (v)] and [v || w] test it. *)
Definition truthy (v : Value) : bool :=
  match v with
  | None => false
  | Some JsonNull => false
  | Some (JsonBool b) => b
  | Some (JsonNum n) => negb (PrimFloat.is_zero n || PrimFloat.is_nan n)
  | Some (JsonStr s) => negb (String.eqb s "")
  | Some (JsonArr _) => true
  | Some (JsonObj _) => true
  end.

(** [Prompt] of [src/types.ts].  The stored records are cast to it
    unchecked, so a field holds whatever JSON value was stored. *)
Record Prompt : Type := mkPrompt {
  promptId : string;
  text : Json;
  weight : Json;
  cc : Json;
  color : Json;
  categoryKey : Json;
  sourceType : Json
}.

(** A [Map] with string keys, in insertion order. *)
Definition PromptMap : Type := list (string * Prompt).

(** Key equality of a [Map] (SameValueZero): two parsed arrays or objects
    are never the same object. *)
Definition same_key (a b : Value) : bool :=
  match a, b with
  | None, None => true
  | Some JsonNull, Some JsonNull => true
  | Some (JsonBool x), Some (JsonBool y) => Bool.eqb x y
  | Some (JsonNum x), Some (JsonNum y) =>
      PrimFloat.eqb x y || (PrimFloat.is_nan x && PrimFloat.is_nan y)
  | Some (JsonStr x), Some (JsonStr y) => String.eqb x y
  | _, _ => false
  end.

(** The [Map] of stored records, keyed by whatever their [promptId] is. *)
Definition StoredMap : Type := list (Value * Json).

Fixpoint map_set (k : Value) (v : Json) (m : StoredMap) : StoredMap :=
  match m with
  | [] => [(k, v)]
  | (k', v') :: t =>
      if same_key k' k then (k', v) :: t else (k', v') :: map_set k v t
  end.

Fixpoint map_get (k : Value) (m : StoredMap) : Value :=
  match m with
  | [] => None
  | (k', v') :: t => if same_key k' k then Some v' else map_get k t
  end.

Fixpoint map_delete (k : Value) (m : StoredMap) : StoredMap :=
  match m with
  | [] => []
  | (k', v') :: t =>
      if same_key k' k then t else (k', v') :: map_delete k t
  end.

(** [storedPromptsArray.map(p => [p.promptId, p])]. *)
Fixpoint entries (storedPromptsArray : list Json)
  : result (list (Value * Json)) :=
  match storedPromptsArray with
  | [] => Ok []
  | p :: t =>
      k <- get p "promptId" ;;
      rest <- entries t ;;
      Ok ((k, p) :: rest)
  end.

(** [new Map(pairs)]. *)
Definition new_Map (pairs : list (Value * Json)) : StoredMap :=
  List.fold_left (fun m kv => map_set (fst kv) (snd kv) m) pairs [].

Definition BPM_PROMPT_ID : string := "internal-bpm-prompt".

(** [stored !== undefined ? stored : fallback]. *)
Definition if_defined (stored : Value) (fallback : Json) : Json :=
  match stored with
  | Some v => v
  | None => fallback
  end.

(** [stored || fallback]. *)
Definition or_else (stored : Value) (fallback : Json) : Json :=
  match stored with
  | Some v => if truthy stored then v else fallback
  | None => fallback
  end.

(** The object literal of lines 1566-1574. *)
Definition mergePrompt (defaultPrompt : Prompt) (storedPrompt : Json)
  : result Prompt :=
  storedText <- get storedPrompt "text" ;;
  storedWeight <- get storedPrompt "weight" ;;
  storedCc <- get storedPrompt "cc" ;;
  storedSourceType <- get storedPrompt "sourceType" ;;
  storedCategoryKey <- get storedPrompt "categoryKey" ;;
  Ok {| promptId := promptId defaultPrompt;
        text := if_defined storedText (text defaultPrompt);
        weight := if_defined storedWeight (weight defaultPrompt);
        cc := if_defined storedCc (cc defaultPrompt);
        color := color defaultPrompt;
        sourceType := or_else storedSourceType (sourceType defaultPrompt);
        categoryKey := if_defined storedCategoryKey (categoryKey defaultPrompt) |}.

(** The callback of [defaultPromptsMap.forEach], run over the defaults in
    order to build [finalPrompts]. *)
Fixpoint mergeAll (storedPromptsMap : StoredMap) (defaults : PromptMap)
  : result PromptMap :=
  match defaults with
  | [] => Ok []
  | (id, defaultPrompt) :: t =>
      merged <-
        match map_get (Some (JsonStr id)) storedPromptsMap with
        | Some storedPrompt =>
            if truthy (Some storedPrompt)
            then mergePrompt defaultPrompt storedPrompt
            else Ok defaultPrompt
        | None => Ok defaultPrompt
        end ;;
      rest <- mergeAll storedPromptsMap t ;;
      Ok ((id, merged) :: rest)
  end.

(** What [localStorage.getItem('prompts')] and [JSON.parse] give: no item
    (or the empty string), or the outcome of parsing the item. *)
Inductive Stored : Type :=
| NoItem
| Item (parsed : result Json).

(** [getInitialPrompts], given the stored item and the map built by
    [buildDefaultPrompts]. *)
Definition getInitialPrompts (stored : Stored) (defaultPromptsMap : PromptMap)
  : PromptMap :=
  match stored with
  | Item (Ok (JsonArr storedPromptsArray)) =>
      let attempt :=
        pairs <- entries storedPromptsArray ;;
        let storedPromptsMap :=
          map_delete (Some (JsonStr BPM_PROMPT_ID)) (new_Map pairs) in
        mergeAll storedPromptsMap defaultPromptsMap in
      match attempt with
      | Ok finalPrompts => finalPrompts
      | Throw _ => defaultPromptsMap
      end
  | _ => defaultPromptsMap
  end.

End Prompts.

(** ** What the properties are stated with

    The definitions below are not the program's: they name what the
    properties say of it, and give example inputs. *)

Import Base64 Number PromptDjMidi.

Module DoubleSpec.

(** The rank of a double that is not NaN, read from its sign, exponent
    and mantissa: the order of doubles is the lexicographic order of the
    ranks. *)
Definition rank (f : spec_float) : Z * Z * Z :=
  match f with
  | S754_nan => (0, 0, 0)
  | S754_zero _ => (0, 0, 0)
  | S754_infinity true => (-2, 0, 0)
  | S754_infinity false => (2, 0, 0)
  | S754_finite true m e => (-1, - e, - Zpos m)
  | S754_finite false m e => (1, e, Zpos m)
  end%Z.

End DoubleSpec.

Module DecoderSpec.

(** The bytes the byte decoder is to return: those of a valid base64
    string, and none for any other value. *)
Definition decoded_bytes (v : JsValue) : list byte :=
  match v with
  | JString s =>
      match atob s with
      | Ok binaryString => List.map byte_of_code binaryString
      | Throw _ => []
      end
  | _ => []
  end.

(** A code unit that is a byte. *)
Definition is_byte (c : N) : Prop := (c <= 255)%N.

(** The number of '=' that pad the base64 of [n] bytes. *)
Definition pad_count (n : nat) : nat := ((3 - n mod 3) mod 3)%nat.

End DecoderSpec.

Module BuilderSpec.

(** The samples the builder is to write: channel [ch], frame [i] holds the
    conversion of the interleaved sample [i * numChannels + ch]. *)
Definition pcm_samples (dataInt16 : list Z) (numChannels numFrames : nat)
  : list (list float) :=
  List.map
    (fun ch => List.map (fun i => convertSample dataInt16 (i * numChannels + ch))
                 (List.seq 0 numFrames))
    (List.seq 0 numChannels).

(** The context allocates buffers of [numChannels] channels at [rate]:
    for any positive number of frames [createBuffer] returns a silent
    buffer of that shape. *)
Definition allocates {T} (ctx : AudioContext T) (numChannels : Z) (rate : T)
  : Prop :=
  forall n : Z, (1 <= n)%Z ->
    exists d : T,
      createBuffer ctx numChannels n rate
      = Ok {| sampleRate := rate; duration := d; length := Z.to_nat n;
              channels := silence (Z.to_nat numChannels) (Z.to_nat n) |}.

(** The 16-bit view of a byte sequence. *)
Definition int16_view (bs : list byte) : list Z :=
  int16_elements bs (Z.to_nat (Z.of_nat (List.length bs) / 2)).

(** The rational a finite double stands for. *)
Definition exact_value (x : float) : option Q :=
  match Prim2SF x with
  | S754_zero _ => Some 0%Q
  | S754_finite s m e =>
      Some (inject_Z (if s then Z.neg m else Z.pos m) * Qpower 2 e)%Q
  | _ => None
  end.

(** What holds of the sample [x] converted from the 16-bit value [v]:
    it is the double [v / 32768.0], that double is the exact quotient, and
    it lies in [-1, 1]. *)
Definition sample_exact (v : Z) (x : float) : bool :=
  PrimFloat.eqb x (PrimFloat.div (number_of_Z v) 32768%float)
  && match exact_value x with
     | Some q => Qeq_bool q (v # 32768)
     | None => false
     end
  && PrimFloat.leb (-1)%float x && PrimFloat.leb x 1%float.

(** The number of frames the builder computes from a byte length. *)
Definition frames_of (byteLength numChannels : Z) : Z :=
  (byteLength / (2 * numChannels))%Z.

(** The buffer [b] with other channel data. *)
Definition with_channels {T} (b : AudioBuffer T) (chs : list (list float))
  : AudioBuffer T :=
  {| sampleRate := sampleRate b; duration := duration b;
     length := length b; channels := chs |}.

(** A usable buffer of [numChannels] channels at [rate]: at least one
    frame, and every channel holds as many samples as the buffer has
    frames. *)
Definition usable {T} (b : AudioBuffer T) (numChannels : nat) (rate : T)
  : Prop :=
  sampleRate b = rate /\
  numberOfChannels b = numChannels /\
  (1 <= length b)%nat /\
  Forall (fun cd => List.length cd = length b) (channels b).

(** A context that allocates whenever the channel count and the number of
    frames are positive, with rational sample rates. *)
Definition exampleContext : AudioContext Q :=
  {| createBuffer := fun numChannels numFrames rate =>
       if ((numChannels <=? 0) || (numFrames <=? 0))%Z
       then Throw NotSupportedError
       else Ok {| sampleRate := rate;
                  duration := (inject_Z numFrames / rate)%Q;
                  length := Z.to_nat numFrames;
                  channels := silence (Z.to_nat numChannels)
                                (Z.to_nat numFrames) |} |}.

Fixpoint all_from (f : Z -> bool) (start : Z) (n : nat) : bool :=
  match n with
  | O => true
  | S n' => f start && all_from f (start + 1)%Z n'
  end.

(** A context over doubles with limits as the platform's [createBuffer]
    may have them: it allocates for 1 to 32 channels at 8000 to 96000 Hz,
    the ranges every implementation supports, and throws a
    [NotSupportedError] outside them and for a length that is not
    positive. *)
Definition limitedContext : AudioContext float :=
  {| createBuffer := fun numChannels numFrames rate =>
       if ((numChannels <? 1) || (32 <? numChannels) || (numFrames <? 1))%Z
          || negb (PrimFloat.leb 8000%float rate
                   && PrimFloat.leb rate 96000%float)
       then Throw NotSupportedError
       else Ok {| sampleRate := rate;
                  duration := PrimFloat.div (number_of_Z numFrames) rate;
                  length := Z.to_nat numFrames;
                  channels := silence (Z.to_nat numChannels)
                                (Z.to_nat numFrames) |} |}.

End BuilderSpec.

Module SchedulerSpec.
Section WithNumbers.
Context {T : Type} {O : Ops T}.

(** What happens between two runs of the scheduling code: a buffer is
    scheduled at audio-clock time [now], or the warm-up timeout fires. *)
Inductive Event : Type :=
| EvBuffer (now : T) (audioBuffer : AudioBuffer T)
| EvTimer.

Definition step (ev : Event) (st : State T) : State T :=
  match ev with
  | EvBuffer now audioBuffer => scheduleBuffer now audioBuffer st
  | EvTimer => fireTimer st
  end.

Fixpoint run (evs : list Event) (st : State T) : State T :=
  match evs with
  | [] => st
  | ev :: rest => run rest (step ev st)
  end.

(** Whether [scheduleBuffer] takes its underrun branch. *)
Definition underrunTaken (now : T) (st : State T) : bool :=
  ltb (nextStartTime (firstBufferStep now st)) now.

Fixpoint noUnderrun (evs : list Event) (st : State T) : bool :=
  match evs with
  | [] => true
  | ev :: rest =>
      match ev with
      | EvBuffer now _ => negb (underrunTaken now st)
      | EvTimer => true
      end && noUnderrun rest (step ev st)
  end.

Fixpoint buffers (evs : list Event) : list (AudioBuffer T) :=
  match evs with
  | [] => []
  | EvBuffer _ audioBuffer :: rest => audioBuffer :: buffers rest
  | EvTimer :: rest => buffers rest
  end.

(** The cursor with which the first buffer of a run is scheduled. *)
Fixpoint firstCursor (evs : list Event) (st : State T) : T :=
  match evs with
  | [] => nextStartTime st
  | EvBuffer now _ :: _ => nextStartTime (firstBufferStep now st)
  | EvTimer :: rest => firstCursor rest (fireTimer st)
  end.

(** The cumulative sums [t0; t0 + d1; t0 + d1 + d2; ...], one for each
    duration. *)
Fixpoint cumulative (t0 : T) (ds : list T) : list T :=
  match ds with
  | [] => []
  | d :: rest => t0 :: cumulative (add t0 d) rest
  end.

(** Whether [scheduleBuffer] takes its first-buffer branch: the test of
    line 711. *)
Definition firstTaken (st : State T) : bool := eqb (nextStartTime st) zero.

(** No buffer of the run takes the first-buffer branch. *)
Fixpoint noFirst (evs : list Event) (st : State T) : bool :=
  match evs with
  | [] => true
  | ev :: rest =>
      match ev with
      | EvBuffer _ _ => negb (firstTaken st)
      | EvTimer => true
      end && noFirst rest (step ev st)
  end.

(** No buffer of the run but its first takes the first-buffer branch. *)
Fixpoint firstOnly (evs : list Event) (st : State T) : bool :=
  match evs with
  | [] => true
  | EvBuffer now audioBuffer :: rest =>
      noFirst rest (scheduleBuffer now audioBuffer st)
  | EvTimer :: rest => firstOnly rest (fireTimer st)
  end.

(** The clock readings and the durations of the buffers of a run are not
    negative, as the platform gives them. *)
Fixpoint nonNegative (evs : list Event) : bool :=
  match evs with
  | [] => true
  | ev :: rest =>
      match ev with
      | EvBuffer now audioBuffer =>
          leb zero now && leb zero (duration audioBuffer)
      | EvTimer => true
      end && nonNegative rest
  end.

End WithNumbers.

(** The state of a session that is connected and was asked to play, over
    the rationals, with a context that allocates. *)
Definition exampleState : State Q :=
  {| playbackState := loading;
     session := Some {| has_setBpm := true |};
     connectionError := false;
     nextStartTime := 0%Q;
     sessionSampleRate := 48000%Q;
     sessionNumChannels := 2%Z;
     filteredPrompts := [];
     currentBpm := Some 120%Q;
     settingsControllerEl := true;
     audioContext := BuilderSpec.exampleContext;
     contextState := running;
     gainValue := 1%Q;
     gainAutomation := [];
     created := [];
     started := [];
     timers := [];
     toasts := [];
     sent := [] |}.

(** The same state over doubles, with a context that never allocates. *)
Definition exampleStateOnDoubles : State float :=
  {| playbackState := loading;
     session := Some {| has_setBpm := true |};
     connectionError := false;
     nextStartTime := 0%float;
     sessionSampleRate := 48000%float;
     sessionNumChannels := 2%Z;
     filteredPrompts := [];
     currentBpm := Some 120%float;
     settingsControllerEl := true;
     audioContext := {| createBuffer := fun _ _ _ => Throw NotSupportedError |};
     contextState := running;
     gainValue := 1%float;
     gainAutomation := [];
     created := [];
     started := [];
     timers := [];
     toasts := [];
     sent := [] |}.

(** A buffer of [numFrames] silent frames at 48 kHz, in stereo, over
    doubles. *)
Definition exampleBufferOnDoubles (numFrames : nat) : AudioBuffer float :=
  {| sampleRate := 48000%float;
     duration := PrimFloat.div (number_of_Z (Z.of_nat numFrames)) 48000%float;
     length := numFrames;
     channels := silence 2 numFrames |}.

(** A buffer of [numFrames] silent frames at 48 kHz, in stereo. *)
Definition exampleBuffer (numFrames : nat) : AudioBuffer Q :=
  {| sampleRate := 48000%Q;
     duration := (inject_Z (Z.of_nat numFrames) / 48000)%Q;
     length := numFrames;
     channels := silence 2 numFrames |}.

End SchedulerSpec.

Module HandlerSpec.
Section WithNumbers.
Context {T : Type} {O : Ops T}.

(** Playback is stopped or paused. *)
Definition idle (st : State T) : Prop :=
  playbackState st = stopped \/ playbackState st = paused.

(** The message [e] without its audio chunks. *)
Definition withoutAudio (e : ServerMessage T) : ServerMessage T :=
  {| setupComplete := setupComplete e;
     filteredPrompt := filteredPrompt e;
     audioChunks := None |}.

(** The part of the state the scheduler writes: the sources created and
    started, the cursor, the pending timeouts, the context's state and
    the output gain. *)
Definition sameSchedule (st st' : State T) : Prop :=
  created st' = created st /\
  started st' = started st /\
  nextStartTime st' = nextStartTime st /\
  timers st' = timers st /\
  contextState st' = contextState st /\
  gainValue st' = gainValue st /\
  gainAutomation st' = gainAutomation st.

End WithNumbers.
End HandlerSpec.

Module PromptSpec.
Import Prompts.
Local Open Scope string_scope.

(** The map of stored records that [getInitialPrompts] builds from the
    parsed array, once the BPM prompt is removed. *)
Definition storedPromptsMap (storedPromptsArray : list Json)
  : result StoredMap :=
  pairs <- entries storedPromptsArray ;;
  Ok (map_delete (Some (JsonStr BPM_PROMPT_ID)) (new_Map pairs)).

(** The stored record of a prompt id, when the stored list loads. *)
Definition storedRecord (storedPromptsArray : list Json) (id : string)
  : option Json :=
  match storedPromptsMap storedPromptsArray with
  | Ok m => map_get (Some (JsonStr id)) m
  | Throw _ => None
  end.

(** The property [key] of a stored record, [None] when it is missing. *)
Definition field (storedPrompt : Json) (key : string) : Value :=
  match storedPrompt with
  | JsonObj props => assoc key props
  | _ => None
  end.

(** The prompt that the merge is to give for a default and its stored
    record. *)
Definition merged (defaultPrompt : Prompt) (storedPrompt : Json) : Prompt :=
  {| promptId := promptId defaultPrompt;
     text := if_defined (field storedPrompt "text") (text defaultPrompt);
     weight := if_defined (field storedPrompt "weight") (weight defaultPrompt);
     cc := if_defined (field storedPrompt "cc") (cc defaultPrompt);
     color := color defaultPrompt;
     categoryKey := if_defined (field storedPrompt "categoryKey")
                      (categoryKey defaultPrompt);
     sourceType := or_else (field storedPrompt "sourceType")
                     (sourceType defaultPrompt) |}.

Definition examplePrompt : Prompt :=
  {| promptId := "prompt-0";
     text := JsonStr "Bossa Nova";
     weight := JsonNum 0%float;
     cc := JsonNum 0%float;
     color := JsonStr "var(--halo-blob-color-1, #FF00FF)";
     categoryKey := JsonNull;
     sourceType := JsonStr "knob" |}.

Definition exampleStored : Json :=
  JsonObj [("promptId", JsonStr "prompt-0");
           ("text", JsonStr "Techno");
           ("weight", JsonNum 1%float);
           ("color", JsonStr "#000000");
           ("sourceType", JsonStr "button")].

(** Every entry of the stored map is a stored record, and one filed under
    a string has that string as its [promptId]. *)
Definition filed (arr : list Json) (m : StoredMap) : Prop :=
  forall k v, In (k, v) m ->
    In v arr /\
    forall id, k = Some (JsonStr id) ->
               get v "promptId" = Ok (Some (JsonStr id)).

End PromptSpec.

Import DecoderSpec BuilderSpec SchedulerSpec HandlerSpec.

(** ** [src/index.tsx]: storing the prompts

    [setStoredPrompts] and the listener of the [prompts-changed] event
    that calls it. *)

Module PromptStorage.

Import Prompts.
Local Open Scope string_scope.

(** [Map.prototype.set] on a [Map<string, Prompt>]: a key that is there
    keeps its place. *)
Fixpoint prompts_set (id : string) (p : Prompt) (m : PromptMap) : PromptMap :=
  match m with
  | [] => [(id, p)]
  | (k, v) :: t =>
      if String.eqb k id then (k, p) :: t else (k, v) :: prompts_set id p t
  end.

(** [Map.prototype.delete]. *)
Fixpoint prompts_delete (id : string) (m : PromptMap) : PromptMap :=
  match m with
  | [] => []
  | (k, v) :: t =>
      if String.eqb k id then t else (k, v) :: prompts_delete id t
  end.

(** [Array.from(m.values())]. *)
Definition values (m : PromptMap) : list Prompt := List.map snd m.

(** A prompt object as [JSON.stringify] reads it.  The properties come in
    the order of the object literals that make a prompt; no reader of the
    stored item depends on it. *)
Definition toJson (p : Prompt) : Json :=
  JsonObj [("promptId", JsonStr (promptId p));
           ("text", text p);
           ("weight", weight p);
           ("cc", cc p);
           ("color", color p);
           ("categoryKey", categoryKey p);
           ("sourceType", sourceType p)].

(** [JSON.parse(JSON.stringify(j))]: a number that is not finite is
    written as [null], a zero loses its sign, everything else is read back
    as it was. *)
Fixpoint reparse (j : Json) : Json :=
  match j with
  | JsonNum n =>
      if PrimFloat.is_nan n || PrimFloat.is_infinity n then JsonNull
      else if PrimFloat.is_zero n then JsonNum 0%float
      else JsonNum n
  | JsonArr items => JsonArr (List.map reparse items)
  | JsonObj props =>
      JsonObj (List.map (fun kv => (fst kv, reparse (snd kv))) props)
  | _ => j
  end.

(** [setStoredPrompts]: what reading the item back will give;
    [localStorage.setItem] is taken not to throw. *)
Definition setStoredPrompts (promptsToStore : PromptMap) : Stored :=
  Item (Ok (reparse (JsonArr (List.map toJson (values promptsToStore))))).

(** [handlePromptsChangedEvent], given the event's [detail]. *)
Definition handlePromptsChangedEvent (detail : PromptMap) : Stored :=
  let promptsToStore := prompts_delete BPM_PROMPT_ID detail in
  setStoredPrompts promptsToStore.

End PromptStorage.

(** ** [src/index.tsx]: the component's prompts and its connection

    The state of [PromptDjMidi] with its prompts, the stored item and the
    messages of the methods below; then the [onerror] and [onclose]
    callbacks of [connectToSession], [getPromptsToSend], [play],
    [handlePromptChanged], [updateBpmSpecificPrompt] and the BPM set by
    [fetchAppMetadata] and [resetAll]. *)

Module Component.

Import Prompts PromptStorage.
Local Open Scope string_scope.

(** The messages the methods below give to [showToast]. *)
Inductive Notice : Type :=
| NoticeServiceUnavailable   (* 'Music service is temporarily unavailable. ...' *)
| NoticeNetworkError   (* 'Network error. Please check your connection ...' *)
| NoticeConnectionError   (* 'Connection error. Check console, ...' *)
| NoticeClosedUnexpectedly   (* 'Connection closed unexpectedly. ...' *)
| NoticeClosed   (* 'Connection closed. Please restart audio.' *)
| NoticeNoActivePrompt   (* 'There needs to be one active prompt to play. ...' *)
| NoticeNoSession   (* 'Cannot play: No active session. ...' *)
| NoticePlayFailed   (* 'Error trying to play. Session might be unstable.' *)
| NoticeResumeFailed.   (* 'Audio context could not be resumed. ...' *)

(** What [onerror] reads of the error message it computes: whether, in
    lower case, it includes 'service is currently unavailable' and
    'failed to fetch'. *)
Record ErrorMessage : Type := mkErrorMessage {
  mentionsUnavailable : bool;
  mentionsFailedToFetch : bool
}.

(** The [detail] of a [prompt-changed] event: [cc], [categoryKey] and
    [sourceType] are tested for [undefined]. *)
Record PromptChange : Type := mkPromptChange {
  changedId : string;
  changedText : Json;
  changedWeight : Json;
  changedCc : Value;
  changedCategoryKey : Value;
  changedSourceType : Value
}.

(** [a === b] on values read from JSON: two arrays or objects are taken
    to be different objects. *)
Definition strict_eq (a b : Json) : bool :=
  match a, b with
  | JsonNull, JsonNull => true
  | JsonBool x, JsonBool y => Bool.eqb x y
  | JsonNum x, JsonNum y => PrimFloat.eqb x y
  | JsonStr x, JsonStr y => String.eqb x y
  | _, _ => false
  end.

(** [filteredPrompts.has(v)]: the set holds strings only. *)
Definition has (filtered : list JsString) (v : Json) : bool :=
  match v with
  | JsonStr s => mem_string (js s) filtered
  | _ => false
  end.

(** [filteredPrompts.delete(v)]. *)
Fixpoint remove_string (s : JsString) (l : list JsString) : list JsString :=
  match l with
  | [] => []
  | x :: t => if list_eq_dec N.eq_dec s x then t else x :: remove_string s t
  end.

Definition delete (filtered : list JsString) (v : Json) : list JsString :=
  match v with
  | JsonStr s => remove_string (js s) filtered
  | _ => filtered
  end.

Definition is_stopped (p : PlaybackState) : bool :=
  match p with
  | stopped => true
  | _ => false
  end.

(** [BPM_PROMPT_WEIGHT]. *)
Definition BPM_PROMPT_WEIGHT : float := 0x1.999999999999ap-1%float.

(** [Math.max] of two doubles: NaN when one of them is NaN; of two equal
    numbers, which differ only when they are zeros, [+0] unless both are
    [-0]. *)
Definition Math_max (a b : float) : float :=
  if PrimFloat.is_nan a || PrimFloat.is_nan b then PrimFloat.nan
  else if PrimFloat.ltb a b then b
  else if PrimFloat.ltb b a then a
  else if PrimFloat.get_sign a then b else a.

(** [Math.min] of two doubles: NaN when one of them is NaN; of two equal
    numbers, [-0] unless both are [+0]. *)
Definition Math_min (a b : float) : float :=
  if PrimFloat.is_nan a || PrimFloat.is_nan b then PrimFloat.nan
  else if PrimFloat.ltb b a then b
  else if PrimFloat.ltb a b then a
  else if PrimFloat.get_sign a then a else b.

(** The BPM that [fetchAppMetadata] and [resetAll] set from the range
    they are given: [Math.max(minBpm, Math.min(120.0, maxBpm))]. *)
Definition initialBpm (minBpm maxBpm : float) : float :=
  Math_max minBpm (Math_min 120%float maxBpm).

Section WithNumbers.

Context {T : Type} {O : Ops T}.

Record Component : Type := mkComponent {
  player : State T;   (* the fields of the session and playback state *)
  prompts : PromptMap;   (* this.prompts *)
  storage : Stored;   (* the item 'prompts' of localStorage *)
  notices : list Notice;   (* messages shown by the methods below *)
  playCalls : nat;   (* calls of session.play() *)
  resumeCalls : nat   (* calls of audioContext.resume() made by play *)
}.

Definition on_player (f : State T -> State T) (c : Component) : Component :=
  {| player := f (player c); prompts := prompts c; storage := storage c;
     notices := notices c; playCalls := playCalls c;
     resumeCalls := resumeCalls c |}.

Definition set_prompts (v : PromptMap) (c : Component) : Component :=
  {| player := player c; prompts := v; storage := storage c;
     notices := notices c; playCalls := playCalls c;
     resumeCalls := resumeCalls c |}.

Definition set_storage (v : Stored) (c : Component) : Component :=
  {| player := player c; prompts := prompts c; storage := v;
     notices := notices c; playCalls := playCalls c;
     resumeCalls := resumeCalls c |}.

Definition notify (n : Notice) (c : Component) : Component :=
  {| player := player c; prompts := prompts c; storage := storage c;
     notices := notices c ++ [n]; playCalls := playCalls c;
     resumeCalls := resumeCalls c |}.

Definition count_play (c : Component) : Component :=
  {| player := player c; prompts := prompts c; storage := storage c;
     notices := notices c; playCalls := S (playCalls c);
     resumeCalls := resumeCalls c |}.

Definition count_resume (c : Component) : Component :=
  {| player := player c; prompts := prompts c; storage := storage c;
     notices := notices c; playCalls := playCalls c;
     resumeCalls := S (resumeCalls c) |}.

(** The [onerror] callback of [connectToSession], at audio-clock time
    [now]. *)
Definition onerror (errorMessage : ErrorMessage) (now : T) (c : Component)
  : Component :=
  let c1 :=
    on_player
      (fun st =>
         resetAudioPipelineToStopped now
           (set_session None
              (set_playbackState stopped (set_connectionError true st)))) c in
  if mentionsUnavailable errorMessage
  then notify NoticeServiceUnavailable c1
  else if mentionsFailedToFetch errorMessage
  then notify NoticeNetworkError c1
  else notify NoticeConnectionError c1.

(** The [onclose] callback, for a [CloseEvent] with code [code];
    [button] is the playback state of the play/pause button, if the
    element is there. *)
Definition onclose (code : Z) (button : option PlaybackState) (now : T)
    (c : Component) : Component :=
  let c1 :=
    on_player (fun st => set_session None (set_connectionError true st)) c in
  let c2 :=
    if negb (is_stopped (playbackState (player c1)))
    then on_player
           (fun st =>
              resetAudioPipelineToStopped now (set_playbackState stopped st))
           c1
    else c1 in
  if (negb (code =? 1000) && negb (code =? 1005))%Z
  then notify NoticeClosedUnexpectedly c2
  else if negb (is_stopped (playbackState (player c2)))
          && match button with
             | Some b => negb (is_stopped b)
             | None => false
             end
  then notify NoticeClosed c2
  else c2.

(** [getPromptsToSend]. *)
Definition getPromptsToSend (c : Component) : list Prompt :=
  List.filter
    (fun p => negb (has (filteredPrompts (player c)) (text p))
              && negb (strict_eq (weight p) (JsonNum 0%float)))
    (values (prompts c)).

(** The callback [play] gives to [then]: [audioContext.resume()] has
    resolved, the context runs, and [session.play()] ends as [o] (on a
    session that is missing by now it throws).  The calls on the gain
    are taken not to throw. *)
Definition playResumed (o : Outcome) (now : T) (c : Component) : Component :=
  let c1 := on_player (set_contextState running) c in
  let failed (c' : Component) : Component :=
    on_player
      (fun st =>
         resetAudioPipelineToStopped now
           (set_session None (set_playbackState stopped st)))
      (notify NoticePlayFailed c') in
  match session (player c1) with
  | Some _ =>
      let c2 := count_play c1 in
      match o with
      | Returns =>
          on_player
            (fun st =>
               set_gainAutomation
                 (gainAutomation st
                    ++ [SetValueAtTime (gainValue st) now;
                        LinearRampToValueAtTime one (add now lit_0_1)])
                 (set_playbackState loading st)) c2
      | _ => failed c2
      end
  | None => failed c1
  end.

(** The callback [play] gives to [catch]: the context could not be
    resumed. *)
Definition playResumeFailed (c : Component) : Component :=
  on_player (set_playbackState stopped) (notify NoticeResumeFailed c).

(** [play] up to the call of [audioContext.resume()]; one of the two
    callbacks above runs later. *)
Definition play (c : Component) : Component :=
  match getPromptsToSend c with
  | [] => on_player (set_playbackState paused) (notify NoticeNoActivePrompt c)
  | _ :: _ =>
      match session (player c) with
      | None =>
          on_player (set_playbackState stopped) (notify NoticeNoSession c)
      | Some _ => count_resume c
      end
  end.

(** The event of [dispatchPromptsChange], which the component's own
    listener [handlePromptsChangedEvent] handles at once (the component
    is connected to the document while it takes events).  The throttled
    [setSessionPrompts] that [dispatchPromptsChange] then starts is not
    part of this: its helper is outside the sources, and it touches
    neither the prompts nor the stored item. *)
Definition dispatchPromptsChange (c : Component) : Component :=
  set_storage (handlePromptsChangedEvent (prompts c)) c.

(** [handlePromptChanged]. *)
Definition handlePromptChanged (detail : PromptChange) (c : Component)
  : Component :=
  match assoc (changedId detail) (prompts c) with
  | None => c
  | Some prompt =>
      let filtered := filteredPrompts (player c) in
      let c1 :=
        if negb (strict_eq (text prompt) (changedText detail))
           && has filtered (text prompt)
        then on_player (set_filteredPrompts (delete filtered (text prompt))) c
        else c in
      let prompt' :=
        {| promptId := promptId prompt;
           text := changedText detail;
           weight := changedWeight detail;
           cc := match changedCc detail with
                 | Some v =>
                     if strict_eq v (JsonNum (-1)%float) then cc prompt
                     else v
                 | None => cc prompt
                 end;
           color := color prompt;
           categoryKey := if_defined (changedCategoryKey detail)
                            (categoryKey prompt);
           sourceType := if_defined (changedSourceType detail)
                           (sourceType prompt) |} in
      dispatchPromptsChange
        (set_prompts (prompts_set (changedId detail) prompt' (prompts c)) c1)
  end.

(** [updateBpmSpecificPrompt]; [bpmPromptText] is the text it builds
    from the rounded [currentBpm]. *)
Definition updateBpmSpecificPrompt (bpmPromptText : string) (c : Component)
  : Component :=
  let bpmPrompt :=
    {| promptId := BPM_PROMPT_ID;
       text := JsonStr bpmPromptText;
       weight := JsonNum BPM_PROMPT_WEIGHT;
       cc := JsonNum (-1)%float;
       color := JsonStr "var(--theme-color-cyan)";
       categoryKey := JsonNull;
       sourceType := JsonStr "knob" |} in
  dispatchPromptsChange
    (set_prompts (prompts_set BPM_PROMPT_ID bpmPrompt (prompts c)) c).

End WithNumbers.

Arguments Component T : clear implicits.

End Component.

(** ** What the further properties are stated with *)

Module ComponentSpec.

Import Prompts PromptStorage Component.
Local Open Scope string_scope.

Section WithNumbers.

Context {T : Type} {O : Ops T}.

(** The message [e] with the first of its audio chunks only. *)
Definition firstChunkOnly (e : ServerMessage T) : ServerMessage T :=
  {| setupComplete := setupComplete e;
     filteredPrompt := filteredPrompt e;
     audioChunks := match audioChunks e with
                    | Some (firstChunk :: _) => Some [firstChunk]
                    | other => other
                    end |}.

(** A message that carries audio chunks only. *)
Definition audioMessage (chunks : list (option AudioChunk))
  : ServerMessage T :=
  {| setupComplete := None; filteredPrompt := None;
     audioChunks := Some chunks |}.

(** A step of the handler that schedules nothing: the schedule is as it
    was, the session is kept or dropped, and the playback state is kept or
    set to stopped. *)
Definition quiet (st st' : State T) : Prop :=
  sameSchedule st st' /\
  (session st' = session st \/ session st' = None) /\
  (playbackState st' = playbackState st \/ playbackState st' = stopped).

(** A step that leaves the stream format and the filtered texts as they
    were. *)
Definition sameSetup (st st' : State T) : Prop :=
  sessionSampleRate st' = sessionSampleRate st /\
  sessionNumChannels st' = sessionNumChannels st /\
  filteredPrompts st' = filteredPrompts st.

End WithNumbers.

(** A prompt is sent when its text is not filtered and its weight is not
    zero. *)
Definition sendable (filtered : list JsString) (p : Prompt) : bool :=
  negb (has filtered (text p))
  && negb (strict_eq (weight p) (JsonNum 0%float)).

(** A close code of a normal closure. *)
Definition normalClosure (code : Z) : bool :=
  ((code =? 1000) || (code =? 1005))%Z.

(** The keys of a map of prompts are the ids of its prompts. *)
Definition keyed (m : PromptMap) : Prop :=
  forall id p, In (id, p) m -> promptId p = id.

(** The keys of a map of prompts are the ids of its prompts, each once. *)
Definition wellKeyed (m : PromptMap) : Prop :=
  NoDup (List.map fst m) /\ keyed m.

(** What the prompt [p], stored, gives when it is loaded over the default
    [d]: its values as JSON reads them back, with the default's colour. *)
Definition reloaded (d p : Prompt) : Prompt :=
  {| promptId := promptId d;
     text := reparse (text p);
     weight := reparse (weight p);
     cc := reparse (cc p);
     color := color d;
     categoryKey := reparse (categoryKey p);
     sourceType := or_else (Some (reparse (sourceType p))) (sourceType d) |}.

(** The record of a prompt in the stored array, as it is read back, and
    the entry it makes in the map of stored records. *)
Definition record (p : Prompt) : Json := reparse (toJson p).

Definition recordPairs (ps : list Prompt) : list (Value * Json) :=
  List.map (fun p => (Some (JsonStr (promptId p)), record p)) ps.

(** The prompt that [updateBpmSpecificPrompt] makes. *)
Definition bpmPrompt (bpmPromptText : string) : Prompt :=
  {| promptId := BPM_PROMPT_ID;
     text := JsonStr bpmPromptText;
     weight := JsonNum BPM_PROMPT_WEIGHT;
     cc := JsonNum (-1)%float;
     color := JsonStr "var(--theme-color-cyan)";
     categoryKey := JsonNull;
     sourceType := JsonStr "knob" |}.

(** The stored array holds no record of the prompt [id]. *)
Definition unrecorded (id : string) (stored : Stored) : Prop :=
  exists arr,
    stored = Item (Ok (JsonArr arr)) /\
    forall j, In j arr -> get j "promptId" <> Ok (Some (JsonStr id)).

(** The example prompt, turned up. *)
Definition exampleTurnedUp : Prompt :=
  {| promptId := "prompt-0";
     text := JsonStr "Bossa Nova";
     weight := JsonNum 1%float;
     cc := JsonNum 0%float;
     color := JsonStr "var(--halo-blob-color-1, #FF00FF)";
     categoryKey := JsonNull;
     sourceType := JsonStr "knob" |}.

(** The component of the example state, with that prompt. *)
Definition exampleComponent : Component Q :=
  {| player := exampleState;
     prompts := [("prompt-0", exampleTurnedUp)];
     storage := NoItem;
     notices := [];
     playCalls := 0;
     resumeCalls := 0 |}.

(** The same component over doubles. *)
Definition exampleComponentOnDoubles : Component float :=
  {| player := exampleStateOnDoubles;
     prompts := [("prompt-0", exampleTurnedUp)];
     storage := NoItem;
     notices := [];
     playCalls := 0;
     resumeCalls := 0 |}.

(** The same component once the server has filtered the prompt's text. *)
Definition exampleFiltered : Component Q :=
  on_player (set_filteredPrompts [js "Bossa Nova"]) exampleComponent.

(** The event of an edit that gives the example prompt another text. *)
Definition exampleChange : PromptChange :=
  {| changedId := "prompt-0";
     changedText := JsonStr "Techno";
     changedWeight := JsonNum 1%float;
     changedCc := None;
     changedCategoryKey := None;
     changedSourceType := None |}.

End ComponentSpec.

(** * Properties *)

(** ** Typed arrays *)

Section ArrayFacts.

Context {A : Type}.

Lemma array_set_length (l : list A) i v :
  List.length (array_set l i v) = List.length l.
Proof.
  revert i; induction l as [|h t IH]; intros [|i]; simpl; auto.
Qed.

Lemma array_set_middle (pre post : list A) old v :
  array_set (pre ++ old :: post) (List.length pre) v = pre ++ v :: post.
Proof.
  induction pre as [|h t IH]; simpl; [reflexivity | now rewrite IH].
Qed.

Lemma array_set_nth_same (l : list A) i v d :
  (i < List.length l)%nat -> List.nth i (array_set l i v) d = v.
Proof.
  revert i; induction l as [|h t IH]; intros [|i] Hi; simpl in *;
    try lia; auto.
  apply IH; lia.
Qed.

Lemma array_set_nth_other (l : list A) i j v d :
  i <> j -> List.nth j (array_set l i v) d = List.nth j l d.
Proof.
  revert i j; induction l as [|h t IH]; intros [|i] [|j] Hij; simpl;
    try reflexivity; try congruence.
  apply IH; congruence.
Qed.

(** Induction over a list three elements at a time. *)
Lemma list_ind3 (P : list A -> Prop) :
  P [] -> (forall a, P [a]) -> (forall a b, P [a; b]) ->
  (forall a b c l, P l -> P (a :: b :: c :: l)) ->
  forall l, P l.
Proof.
  intros H0 H1 H2 H3 l.
  assert (H : P l /\ (forall a, P (a :: l)) /\ (forall a b, P (a :: b :: l))).
  { induction l as [|x l [IH0 [IH1 IH2]]]; auto. }
  apply H.
Qed.

End ArrayFacts.

(** ** Base64 *)

Section Base64Facts.

Local Open Scope N_scope.

Local Ltac Zify.zify_post_hook ::= Z.to_euclidean_division_equations.

Local Ltac tests_to_props :=
  repeat match goal with
    | H : _ && _ = true |- _ => apply andb_true_iff in H; destruct H
    | H : _ && _ = false |- _ => apply andb_false_iff in H; destruct H
    | H : _ || _ = true |- _ => apply orb_true_iff in H; destruct H
    | H : _ || _ = false |- _ => apply orb_false_iff in H; destruct H
    | H : (_ <=? _) = true |- _ => apply N.leb_le in H
    | H : (_ <=? _) = false |- _ => apply N.leb_gt in H
    | H : (_ <? _) = true |- _ => apply N.ltb_lt in H
    | H : (_ <? _) = false |- _ => apply N.ltb_ge in H
    | H : (_ =? _) = true |- _ => apply N.eqb_eq in H
    | H : (_ =? _) = false |- _ => apply N.eqb_neq in H
    end.

Local Ltac split_tests :=
  repeat match goal with
    | |- context [ if ?c then _ else _ ] =>
        let E := fresh "E" in destruct c eqn:E
    end;
  tests_to_props.

Lemma b64value_b64char s : s < 64 -> b64value (b64char s) = Some s.
Proof.
  intros Hs; unfold b64char. split_tests;
    unfold b64value; split_tests; try (f_equal; lia); exfalso; lia.
Qed.

Lemma b64char_not_pad s : (b64char s =? pad) = false.
Proof.
  unfold b64char, pad. split_tests; apply N.eqb_neq; lia.
Qed.

Lemma b64char_not_whitespace s : is_ascii_whitespace (b64char s) = false.
Proof.
  unfold b64char. split_tests; unfold is_ascii_whitespace;
    repeat (apply orb_false_intro); apply N.eqb_neq; lia.
Qed.

Lemma to_sextets_bound bs :
  Forall is_byte bs -> Forall (fun s => s < 64) (to_sextets bs).
Proof.
  unfold is_byte.
  induction bs as [| a | a b | a b c l IH] using list_ind3; intros H; simpl.
  - constructor.
  - inversion_clear H. repeat constructor; lia.
  - inversion_clear H as [|? ? Ha H']. inversion_clear H'.
    repeat constructor; lia.
  - inversion_clear H as [|? ? Ha H']. inversion_clear H' as [|? ? Hb H''].
    inversion_clear H'' as [|? ? Hc Hl].
    repeat (constructor; [lia|]). auto.
Qed.

Lemma of_sextets_to_sextets bs :
  Forall is_byte bs -> of_sextets (to_sextets bs) = bs.
Proof.
  unfold is_byte.
  induction bs as [| a | a b | a b c l IH] using list_ind3; intros H.
  - reflexivity.
  - inversion_clear H. simpl. f_equal. lia.
  - inversion_clear H as [|? ? Ha H']. inversion_clear H'.
    simpl. f_equal; [lia | f_equal; lia].
  - inversion_clear H as [|? ? Ha H']. inversion_clear H' as [|? ? Hb H''].
    inversion_clear H'' as [|? ? Hc Hl].
    change (to_sextets (a :: b :: c :: l))
      with (a / 4 :: (a mod 4) * 16 + b / 16 :: (b mod 16) * 4 + c / 64
              :: c mod 64 :: to_sextets l).
    cbn [of_sextets]. rewrite (IH Hl).
    f_equal; [lia | f_equal; [lia | f_equal; lia]].
Qed.

Lemma sextets_of_b64char sx :
  Forall (fun s => s < 64) sx -> sextets_of (List.map b64char sx) = Some sx.
Proof.
  induction 1 as [|s sx Hs _ IH]; simpl; [reflexivity|].
  now rewrite (b64value_b64char Hs), IH.
Qed.

Lemma pad_count_step n : pad_count (S (S (S n))) = pad_count n.
Proof.
  unfold pad_count.
  replace (S (S (S n))) with (n + 1 * 3)%nat by lia.
  now rewrite Nat.Div0.mod_add.
Qed.

(** The length of the sextets is 0, 2 or 3 modulo 4, and the padding
    completes it to a multiple of 4. *)
Lemma to_sextets_length bs :
  exists q r : nat,
    List.length (to_sextets bs) = (4 * q + r)%nat /\
    ((r = 0 /\ pad_count (List.length bs) = 0)
     \/ (r = 2 /\ pad_count (List.length bs) = 2)
     \/ (r = 3 /\ pad_count (List.length bs) = 1))%nat.
Proof.
  induction bs as [| a | a b | a b c l IH] using list_ind3.
  - exists 0%nat, 0%nat. simpl. auto.
  - exists 0%nat, 2%nat. simpl. auto.
  - exists 0%nat, 3%nat. simpl. auto.
  - destruct IH as (q & r & Hlen & Hr).
    exists (S q), r. split.
    + change (to_sextets (a :: b :: c :: l))
        with (a / 4 :: (a mod 4) * 16 + b / 16 :: (b mod 16) * 4 + c / 64
                :: c mod 64 :: to_sextets l).
      simpl List.length. lia.
    + simpl List.length. rewrite pad_count_step. exact Hr.
Qed.

Lemma mod4_of_sum q r : (r < 4)%nat -> ((4 * q + r) mod 4 = r)%nat.
Proof.
  intros Hr. rewrite Nat.add_comm, Nat.mul_comm, Nat.Div0.mod_add.
  now apply Nat.mod_small.
Qed.

Lemma strip_padding_encoded (body : JsString) (k : nat) :
  (k <= 2)%nat ->
  Forall (fun c => (c =? pad) = false) body ->
  ((List.length body + k) mod 4 = 0)%nat ->
  strip_padding (body ++ List.repeat pad k) = body.
Proof.
  intros Hk Hbody Hlen. unfold strip_padding.
  rewrite length_app, repeat_length, Hlen. simpl Nat.eqb. cbv iota.
  rewrite rev_app_distr, rev_repeat.
  assert (Hrev : Forall (fun c => (c =? pad) = false) (rev body))
    by (apply Forall_rev; exact Hbody).
  destruct k as [|[|[|k]]]; try lia; simpl.
  - rewrite app_nil_r.
    destruct (rev body) as [|c1 r1] eqn:E; [reflexivity|].
    inversion_clear Hrev as [|? ? Hc1 _]. now rewrite Hc1.
  - destruct (rev body) as [|c2 r2] eqn:E.
    + apply (f_equal (@rev N)) in E. rewrite rev_involutive in E.
      subst body. discriminate Hlen.
    + inversion_clear Hrev as [|? ? Hc2 _]. rewrite Hc2.
      rewrite <- E. apply rev_involutive.
  - apply rev_involutive.
Qed.

Lemma filter_all (f : N -> bool) l :
  Forall (fun c => f c = true) l -> List.filter f l = l.
Proof.
  induction 1 as [|c l Hc _ IH]; simpl; [reflexivity|].
  now rewrite Hc, IH.
Qed.

(** [atob] undoes [btoa] on binary strings. *)
Lemma atob_btoa (s : JsString) :
  Forall is_byte s ->
  let encoded := List.map b64char (to_sextets s) ++ padding (List.length s) in
  btoa s = Ok encoded /\ atob encoded = Ok s.
Proof.
  intros Hs encoded. subst encoded. split.
  - unfold btoa.
    replace (forallb (fun c => c <=? 255) s) with true; [reflexivity|].
    symmetry. apply forallb_forall. intros c Hc.
    rewrite Forall_forall in Hs. apply N.leb_le. now apply Hs.
  - unfold atob, padding. fold (pad_count (List.length s)).
    set (body := List.map b64char (to_sextets s)).
    destruct (to_sextets_length s) as (q & r & Hlen & Hr).
    assert (Hbody : Forall (fun c => (c =? pad) = false) body).
    { apply Forall_map, Forall_forall. intros; apply b64char_not_pad. }
    assert (Hk : (pad_count (List.length s) <= 2)%nat) by lia.
    assert (Hbl : List.length body = (4 * q + r)%nat)
      by (unfold body; now rewrite length_map).
    rewrite filter_all.
    2:{ apply Forall_app; split.
        - apply Forall_map, Forall_forall. intros.
          now rewrite b64char_not_whitespace.
        - apply Forall_forall. intros c Hc. apply repeat_spec in Hc.
          subst c. reflexivity. }
    rewrite strip_padding_encoded; auto.
    2:{ rewrite Hbl.
        destruct Hr as [[-> ->] | [[-> ->] | [-> ->]]].
        - replace (4 * q + 0 + 0)%nat with (4 * q + 0)%nat by lia.
          apply mod4_of_sum; lia.
        - replace (4 * q + 2 + 2)%nat with (4 * S q + 0)%nat by lia.
          apply mod4_of_sum; lia.
        - replace (4 * q + 3 + 1)%nat with (4 * S q + 0)%nat by lia.
          apply mod4_of_sum; lia. }
    rewrite Hbl, mod4_of_sum by lia.
    replace (r =? 1)%nat with false by (symmetry; apply Nat.eqb_neq; lia).
    unfold body. rewrite sextets_of_b64char by now apply to_sextets_bound.
    now rewrite of_sextets_to_sextets.
Qed.

End Base64Facts.

Example decode_AQID :
  decode (JString (js "AQID")) = Ok (new_Uint8Array [x01; x02; x03]).
Proof. reflexivity. Qed.

Example encode_123 :
  encode (new_Uint8Array [x01; x02; x03; xff]) = Ok (js "AQID/w==").
Proof. reflexivity. Qed.

Example decode_bad :
  decode (JString (js "A")) = Ok (new_Uint8Array []) /\
  decode (JString (js "!!!!")) = Ok (new_Uint8Array []) /\
  decode (JString (js "AQ==")) = Ok (new_Uint8Array [x01]) /\
  decode (JString (js " /w = =")) = Ok (new_Uint8Array [xff]).
Proof. repeat split; vm_compute; reflexivity. Qed.

(** ** The byte decoder *)

Section DecoderFacts.

Lemma byte_of_code_to_N b : byte_of_code (Byte.to_N b) = b.
Proof.
  unfold byte_of_code.
  rewrite N.mod_small by (pose proof (Byte.to_N_bounded b); lia).
  now rewrite Byte.of_to_N.
Qed.

Lemma to_N_is_byte bs : Forall is_byte (List.map Byte.to_N bs).
Proof.
  apply Forall_map, Forall_forall. intros b _. apply Byte.to_N_bounded.
Qed.

(** The loop of [decode] writes the code of each character in turn. *)
Lemma decode_loop_spec n : forall s_done s_rest pre post,
  List.length pre = List.length s_done ->
  List.length post = List.length s_rest ->
  (n <= List.length s_rest)%nat ->
  decode_loop (s_done ++ s_rest) n (List.length pre) (pre ++ post)
  = pre ++ List.map byte_of_code (firstn n s_rest) ++ skipn n post.
Proof.
  induction n as [|n IH]; intros s_done s_rest pre post Hpre Hpost Hn.
  - reflexivity.
  - destruct s_rest as [|c s_rest]; [simpl in Hn; lia|].
    destruct post as [|b post]; [discriminate|].
    cbn [decode_loop]. rewrite array_set_middle.
    unfold charCodeAt. rewrite Hpre, nth_middle.
    replace (S (List.length s_done))
      with (List.length (pre ++ [byte_of_code c]))
      by (rewrite length_app; simpl; lia).
    replace (s_done ++ c :: s_rest) with ((s_done ++ [c]) ++ s_rest)
      by now rewrite <- app_assoc.
    replace (pre ++ byte_of_code c :: post)
      with ((pre ++ [byte_of_code c]) ++ post)
      by now rewrite <- app_assoc.
    rewrite IH.
    + now rewrite <- app_assoc.
    + rewrite !length_app; simpl; lia.
    + simpl in Hpost; lia.
    + simpl in Hn; lia.
Qed.

Lemma decode_loop_all (s : JsString) :
  decode_loop s (List.length s) 0 (List.repeat x00 (List.length s))
  = List.map byte_of_code s.
Proof.
  pose proof (@decode_loop_spec (List.length s) [] s []
                (List.repeat x00 (List.length s))) as H.
  simpl in H. rewrite H; try reflexivity; try lia.
  - rewrite firstn_all, skipn_all2 by (rewrite repeat_length; lia).
    now rewrite app_nil_r.
  - now rewrite repeat_length.
Qed.

(** The loop of [encode] appends the character of each byte in turn. *)
Lemma encode_loop_spec n : forall b_done b_rest binary,
  (n <= List.length b_rest)%nat ->
  encode_loop (b_done ++ b_rest) n (List.length b_done) binary
  = binary ++ List.map Byte.to_N (firstn n b_rest).
Proof.
  induction n as [|n IH]; intros b_done b_rest binary Hn.
  - simpl. now rewrite app_nil_r.
  - destruct b_rest as [|b b_rest]; [simpl in Hn; lia|].
    cbn [encode_loop]. rewrite nth_middle.
    replace (S (List.length b_done)) with (List.length (b_done ++ [b]))
      by (rewrite length_app; simpl; lia).
    replace (b_done ++ b :: b_rest) with ((b_done ++ [b]) ++ b_rest)
      by now rewrite <- app_assoc.
    rewrite IH by (simpl in Hn; lia).
    now rewrite <- app_assoc.
Qed.

Lemma encode_loop_all (bytes : list byte) :
  encode_loop bytes (List.length bytes) 0 [] = List.map Byte.to_N bytes.
Proof.
  pose proof (@encode_loop_spec (List.length bytes) [] bytes []) as H.
  simpl in H. rewrite H by lia. now rewrite firstn_all.
Qed.

Lemma map_byte_of_code_to_N bs :
  List.map byte_of_code (List.map Byte.to_N bs) = bs.
Proof.
  induction bs as [|b bs IH]; simpl; [reflexivity|].
  now rewrite byte_of_code_to_N, IH.
Qed.

End DecoderFacts.

(** A string that [atob] accepts decodes to the codes of its binary
    string. *)
Lemma decode_valid (s binaryString : JsString) :
  atob s = Ok binaryString ->
  decode (JString s)
  = Ok (new_Uint8Array (List.map byte_of_code binaryString)).
Proof.
  intros H. destruct s as [|c cs].
  - injection H as <-. reflexivity.
  - unfold decode, try_catch, bind. rewrite H. now rewrite decode_loop_all.
Qed.

(** A string that [atob] rejects decodes to the empty array. *)
Lemma decode_invalid (s : JsString) (e : Exn) :
  atob s = Throw e -> decode (JString s) = Ok (new_Uint8Array []).
Proof.
  intros H. destruct s as [|c cs]; [reflexivity|].
  unfold decode, try_catch, bind. now rewrite H.
Qed.

(** C5.  [decode] returns on every input and never throws: for a value that
    is not a string, for the empty string and for a string that [atob]
    rejects it returns a zero-length array, and for a valid base64 string the
    array of the decoded bytes. *)
Theorem decode_total (v : JsValue) :
  decode v = Ok (new_Uint8Array (decoded_bytes v)).
Proof.
  destruct v as [| | b | f | s |]; try reflexivity.
  unfold decoded_bytes.
  destruct (atob s) as [binaryString|e] eqn:E.
  - exact (@decode_valid s binaryString E).
  - exact (@decode_invalid s e E).
Qed.

(** The inputs that give an empty array. *)
Lemma decode_empty_cases :
  decode JUndefined = Ok (new_Uint8Array [])
  /\ decode JNull = Ok (new_Uint8Array [])
  /\ decode JObject = Ok (new_Uint8Array [])
  /\ decode (JString []) = Ok (new_Uint8Array [])
  /\ (forall f, decode (JNumber f) = Ok (new_Uint8Array []))
  /\ (forall s e, atob s = Throw e ->
                 decode (JString s) = Ok (new_Uint8Array [])).
Proof.
  repeat split; try reflexivity. intros s e. apply decode_invalid.
Qed.

(** C10.  Decoding the base64 string that [encode] makes of a byte array
    gives back the bytes of that array: [encode] returns a string, and
    [decode] of it returns an array with the same elements. *)
Theorem decode_encode (b : Uint8Array) :
  exists s : JsString,
    encode b = Ok s /\ decode (JString s) = Ok (new_Uint8Array (elems b)).
Proof.
  unfold encode. rewrite encode_loop_all.
  destruct (atob_btoa (to_N_is_byte (elems b))) as [Hbtoa Hatob].
  rewrite Hbtoa. eexists; split; [reflexivity|].
  rewrite (@decode_valid _ _ Hatob).
  now rewrite map_byte_of_code_to_N.
Qed.

(** ** The PCM buffer builder *)

Section BuilderFacts.

Context {T : Type}.

Lemma all_from_spec f n : forall start v,
  all_from f start n = true ->
  (start <= v < start + Z.of_nat n)%Z -> f v = true.
Proof.
  induction n as [|n IH]; intros start v H Hv; [lia|].
  simpl in H. apply andb_true_iff in H. destruct H as [H0 H1].
  destruct (Z.eq_dec v start) as [->|Hne]; [exact H0|].
  apply (IH (start + 1)%Z); [exact H1 | lia].
Qed.

Lemma samples_exact_checked :
  all_from (fun v => sample_exact v (convertSample [v] 0)) (-32768)%Z
    (Z.to_nat 65536) = true.
Proof. vm_compute. reflexivity. Qed.

Lemma convertSample_in_bounds dataInt16 i :
  (i < List.length dataInt16)%nat ->
  convertSample dataInt16 i = convertSample [List.nth i dataInt16 0%Z] 0.
Proof.
  intros Hi. unfold convertSample.
  apply Nat.ltb_lt in Hi. rewrite Hi. reflexivity.
Qed.

Lemma convertSample_out_of_bounds dataInt16 i :
  (List.length dataInt16 <= i)%nat ->
  convertSample dataInt16 i = PrimFloat.zero.
Proof.
  intros Hi. unfold convertSample.
  apply Nat.ltb_ge in Hi. rewrite Hi. reflexivity.
Qed.

Lemma int16_of_bytes_range lo hi :
  (-32768 <= int16_of_bytes lo hi < 32768)%Z.
Proof.
  unfold int16_of_bytes.
  pose proof (Byte.to_N_bounded lo). pose proof (Byte.to_N_bounded hi).
  destruct (_ <? _)%Z eqn:E;
    [apply Z.ltb_lt in E | apply Z.ltb_ge in E]; lia.
Qed.

Lemma int16_elements_range len : forall bs,
  Forall (fun v => -32768 <= v < 32768)%Z (int16_elements bs len).
Proof.
  induction len as [|len IH]; intros bs; simpl; [constructor|].
  destruct bs as [|lo [|hi rest]]; try constructor; auto.
  apply int16_of_bytes_range.
Qed.

Lemma int16_elements_length len : forall bs,
  (2 * len <= List.length bs)%nat ->
  List.length (int16_elements bs len) = len.
Proof.
  induction len as [|len IH]; intros bs H; simpl; [reflexivity|].
  destruct bs as [|lo [|hi rest]]; simpl in H; try lia.
  simpl. rewrite IH; lia.
Qed.

(** The inner loop fills one channel with the converted samples. *)
Lemma frame_loop_spec dataInt16 numChannels channel n : forall pre post,
  (n <= List.length post)%nat ->
  frame_loop dataInt16 numChannels channel n (List.length pre) (pre ++ post)
  = pre
    ++ List.map (fun i => convertSample dataInt16 (i * numChannels + channel))
         (List.seq (List.length pre) n)
    ++ skipn n post.
Proof.
  induction n as [|n IH]; intros pre post Hn; [reflexivity|].
  destruct post as [|old post]; [simpl in Hn; lia|].
  cbn [frame_loop]. rewrite array_set_middle.
  set (v := convertSample dataInt16 (List.length pre * numChannels + channel)).
  replace (S (List.length pre)) with (List.length (pre ++ [v]))
    by (rewrite length_app; simpl; lia).
  replace (pre ++ v :: post) with ((pre ++ [v]) ++ post)
    by now rewrite <- app_assoc.
  rewrite IH by (simpl in Hn; lia).
  rewrite <- app_assoc. simpl. rewrite length_app. simpl.
  now rewrite Nat.add_1_r.
Qed.

Lemma frame_loop_all dataInt16 numChannels channel (channelData : list float) :
  frame_loop dataInt16 numChannels channel (List.length channelData) 0
    channelData
  = List.map (fun i => convertSample dataInt16 (i * numChannels + channel))
      (List.seq 0 (List.length channelData)).
Proof.
  pose proof (@frame_loop_spec dataInt16 numChannels channel
                (List.length channelData) [] channelData (le_n _)) as H.
  simpl in H. rewrite H, skipn_all. now rewrite app_nil_r.
Qed.

(** The outer loop fills the channels one after the other. *)
Lemma channel_loop_spec dataInt16 numChannels numFrames (rate d : T) len n :
  forall pre post,
  (n <= List.length post)%nat ->
  Forall (fun cd => List.length cd = numFrames) post ->
  channel_loop dataInt16 numChannels numFrames n (List.length pre)
    {| sampleRate := rate; duration := d; length := len;
       channels := pre ++ post |}
  = Ok {| sampleRate := rate; duration := d; length := len;
          channels :=
            pre
            ++ List.map
                 (fun ch =>
                    List.map
                      (fun i => convertSample dataInt16 (i * numChannels + ch))
                      (List.seq 0 numFrames))
                 (List.seq (List.length pre) n)
            ++ skipn n post |}.
Proof.
  induction n as [|n IH]; intros pre post Hn Hpost; [reflexivity|].
  destruct post as [|cd post]; [simpl in Hn; lia|].
  inversion_clear Hpost as [|? ? Hcd Hpost'].
  cbn [channel_loop]. unfold getChannelData, bind. cbn [channels].
  rewrite nth_error_app2, Nat.sub_diag by lia. cbn [nth_error].
  unfold setChannelData. cbn [channels sampleRate duration length].
  rewrite array_set_middle.
  subst numFrames. rewrite frame_loop_all.
  set (filled := List.map _ (List.seq 0 (List.length cd))).
  replace (S (List.length pre)) with (List.length (pre ++ [filled]))
    by (rewrite length_app; simpl; lia).
  replace (pre ++ filled :: post) with ((pre ++ [filled]) ++ post)
    by now rewrite <- app_assoc.
  rewrite IH by (auto; simpl in Hn; lia).
  rewrite <- app_assoc. simpl. rewrite length_app. simpl.
  now rewrite Nat.add_1_r.
Qed.

Lemma silence_shape numChannels numFrames :
  List.length (silence numChannels numFrames) = numChannels /\
  Forall (fun cd => List.length cd = numFrames) (silence numChannels numFrames).
Proof.
  unfold silence. split; [apply repeat_length|].
  apply Forall_forall. intros cd H. apply repeat_spec in H. subst cd.
  apply repeat_length.
Qed.

(** On a silent buffer of the right shape the loops return the buffer of
    converted samples. *)
Lemma channel_loop_silence dataInt16 numChannels numFrames (rate d : T) len :
  channel_loop dataInt16 numChannels numFrames numChannels 0
    {| sampleRate := rate; duration := d; length := len;
       channels := silence numChannels numFrames |}
  = Ok {| sampleRate := rate; duration := d; length := len;
          channels := pcm_samples dataInt16 numChannels numFrames |}.
Proof.
  destruct (silence_shape numChannels numFrames) as [Hlen Hall].
  pose proof (@channel_loop_spec dataInt16 numChannels numFrames rate d len
                numChannels [] (silence numChannels numFrames)) as H.
  simpl in H. rewrite H; auto; [|lia].
  rewrite skipn_all2 by lia. now rewrite app_nil_r.
Qed.

(** What the builder returns on a byte sequence held at an even offset,
    given the buffer [b0] that the context allocates for it. *)
Lemma decodeAudioData_aligned (data : Uint8Array) (ctx : AudioContext T)
    (rate : T) (numChannels : Z) (b0 : AudioBuffer T) :
  Nat.even (byteOffset data) = true ->
  (1 <= numChannels)%Z ->
  let numFrames := frames_of (Z.of_nat (List.length (elems data))) numChannels in
  let n := if (numFrames =? 0)%Z then 1%Z else numFrames in
  createBuffer ctx numChannels n rate = Ok b0 ->
  channels b0 = silence (Z.to_nat numChannels) (Z.to_nat n) ->
  decodeAudioData data ctx rate numChannels
  = Ok (if (numFrames =? 0)%Z then b0
        else with_channels b0
               (pcm_samples (int16_view (elems data)) (Z.to_nat numChannels)
                  (Z.to_nat numFrames))).
Proof.
  intros Heven HC numFrames n Hb0 Hsil. unfold decodeAudioData.
  fold (frames_of (Z.of_nat (List.length (elems data))) numChannels).
  fold numFrames. subst n.
  destruct (Z.of_nat (List.length (elems data)) =? 0)%Z eqn:EL.
  - apply Z.eqb_eq in EL.
    assert (E0 : numFrames = 0%Z)
      by (unfold numFrames, frames_of; rewrite EL; apply Z.div_0_l; lia).
    rewrite E0 in *. exact Hb0.
  - destruct (numFrames =? 0)%Z eqn:EF; [exact Hb0|].
    rewrite Hb0. unfold bind at 1.
    unfold new_Int16Array. rewrite Heven. unfold bind.
    destruct b0 as [r0 d0 len0 chs0]. cbn [channels] in Hsil. subst chs0.
    apply channel_loop_silence.
Qed.

(** A view at an odd offset cannot be read as 16-bit samples: once the
    buffer is allocated, the [Int16Array] constructor throws. *)
Lemma decodeAudioData_misaligned (data : Uint8Array) (ctx : AudioContext T)
    (rate : T) (numChannels : Z) (b0 : AudioBuffer T) :
  Nat.even (byteOffset data) = false ->
  let numFrames := frames_of (Z.of_nat (List.length (elems data))) numChannels in
  numFrames <> 0%Z ->
  createBuffer ctx numChannels numFrames rate = Ok b0 ->
  decodeAudioData data ctx rate numChannels = Throw RangeError.
Proof.
  intros Hodd numFrames Hq Hb0. unfold decodeAudioData.
  fold (frames_of (Z.of_nat (List.length (elems data))) numChannels).
  fold numFrames.
  destruct (Z.of_nat (List.length (elems data)) =? 0)%Z eqn:EL.
  - apply Z.eqb_eq in EL. exfalso. apply Hq.
    unfold numFrames, frames_of. rewrite EL.
    destruct (2 * numChannels)%Z; reflexivity.
  - apply Z.eqb_neq in Hq. rewrite Hq, Hb0. unfold bind at 1.
    unfold new_Int16Array. rewrite Hodd. reflexivity.
Qed.

(** An exception of the allocator is the builder's. *)
Lemma decodeAudioData_allocator_throws (data : Uint8Array)
    (ctx : AudioContext T) (rate : T) (numChannels : Z) (e : Exn) :
  (forall n, createBuffer ctx numChannels n rate = Throw e) ->
  decodeAudioData data ctx rate numChannels = Throw e.
Proof.
  intros H. unfold decodeAudioData.
  repeat (destruct (_ =? _)%Z); rewrite H; reflexivity.
Qed.

Lemma frames_of_nonneg L numChannels :
  (0 <= L)%Z -> (1 <= numChannels)%Z -> (0 <= frames_of L numChannels)%Z.
Proof. intros. unfold frames_of. apply Z.div_pos; lia. Qed.

(** The whole frames fit in the input: [2 * numChannels * numFrames]
    bytes at most. *)
Lemma frames_of_fit L numChannels :
  (0 <= L)%Z -> (1 <= numChannels)%Z ->
  (2 * numChannels * frames_of L numChannels <= L)%Z.
Proof.
  intros HL HC. unfold frames_of.
  apply Z.mul_div_le. lia.
Qed.

Lemma int16_view_length bs :
  List.length (int16_view bs) = Z.to_nat (Z.of_nat (List.length bs) / 2).
Proof.
  unfold int16_view. apply int16_elements_length.
  pose proof (Z.mul_div_le (Z.of_nat (List.length bs)) 2 ltac:(lia)).
  pose proof (Z.div_pos (Z.of_nat (List.length bs)) 2 ltac:(lia) ltac:(lia)).
  lia.
Qed.

(** Every sample index the loops compute lies inside the 16-bit view. *)
Lemma sample_index_in_bounds bs numChannels i ch :
  (1 <= numChannels)%Z ->
  (Z.of_nat i < frames_of (Z.of_nat (List.length bs)) numChannels)%Z ->
  (Z.of_nat ch < numChannels)%Z ->
  (i * Z.to_nat numChannels + ch < List.length (int16_view bs))%nat.
Proof.
  intros HC Hi Hch. rewrite int16_view_length.
  pose proof (@frames_of_fit (Z.of_nat (List.length bs)) numChannels
                ltac:(lia) HC) as Hfit.
  set (F := frames_of (Z.of_nat (List.length bs)) numChannels) in *.
  assert (H2 : (numChannels * F <= Z.of_nat (List.length bs) / 2)%Z).
  { apply Z.div_le_lower_bound; lia. }
  assert (H3 : (Z.of_nat i * numChannels + Z.of_nat ch < numChannels * F)%Z)
    by nia.
  apply Nat2Z.inj_lt. rewrite Nat2Z.inj_add, Nat2Z.inj_mul.
  rewrite !Z2Nat.id by lia. lia.
Qed.

Lemma nth_pcm_samples dataInt16 numChannels numFrames i ch :
  (i < numFrames)%nat -> (ch < numChannels)%nat ->
  List.nth i (List.nth ch (pcm_samples dataInt16 numChannels numFrames) [])
    PrimFloat.zero
  = convertSample dataInt16 (i * numChannels + ch).
Proof.
  intros Hi Hch. unfold pcm_samples.
  set (row := fun ch => List.map _ (List.seq 0 numFrames)).
  rewrite (nth_indep _ [] (row 0%nat)) by now rewrite length_map, length_seq.
  rewrite (map_nth row), seq_nth by assumption. unfold row.
  set (f := fun i => convertSample _ _).
  rewrite (nth_indep _ PrimFloat.zero (f 0%nat))
    by now rewrite length_map, length_seq.
  rewrite (map_nth f), seq_nth by assumption. reflexivity.
Qed.

Lemma pcm_samples_shape dataInt16 numChannels numFrames :
  List.length (pcm_samples dataInt16 numChannels numFrames) = numChannels /\
  Forall (fun cd => List.length cd = numFrames)
    (pcm_samples dataInt16 numChannels numFrames).
Proof.
  unfold pcm_samples. split.
  - now rewrite length_map, length_seq.
  - apply Forall_map, Forall_forall. intros ch _.
    now rewrite length_map, length_seq.
Qed.

Lemma pcm_samples_ext ints1 ints2 numChannels numFrames :
  (forall idx, (idx < numFrames * numChannels)%nat ->
               convertSample ints1 idx = convertSample ints2 idx) ->
  pcm_samples ints1 numChannels numFrames
  = pcm_samples ints2 numChannels numFrames.
Proof.
  intros H. unfold pcm_samples.
  apply map_ext_in. intros ch Hch. apply in_seq in Hch.
  apply map_ext_in. intros i Hi. apply in_seq in Hi.
  apply H. nia.
Qed.

(** The 16-bit view of a prefix is the prefix of the 16-bit view. *)
Lemma int16_elements_firstn k : forall len bs,
  (k <= len)%nat -> (2 * len <= List.length bs)%nat ->
  int16_elements (firstn (2 * k) bs) k = firstn k (int16_elements bs len).
Proof.
  induction k as [|k IH]; intros len bs Hk Hlen; [reflexivity|].
  destruct len as [|len]; [lia|].
  destruct bs as [|lo [|hi rest]]; simpl in Hlen; try lia.
  replace (2 * S k)%nat with (S (S (2 * k))) by lia.
  cbn [firstn int16_elements]. f_equal.
  apply IH; lia.
Qed.

End BuilderFacts.

Section BuilderResults.

Context {T : Type}.

(** The buffer the builder returns for a byte sequence in an array of its
    own, in terms of the buffer the context allocates. *)
Lemma decodeAudioData_returns (bs : list byte) (ctx : AudioContext T)
    (rate : T) (numChannels : Z) :
  (1 <= numChannels)%Z ->
  allocates ctx numChannels rate ->
  let numFrames := frames_of (Z.of_nat (List.length bs)) numChannels in
  exists d : T,
    decodeAudioData (new_Uint8Array bs) ctx rate numChannels
    = Ok (if (numFrames =? 0)%Z
          then {| sampleRate := rate; duration := d; length := 1;
                  channels := silence (Z.to_nat numChannels) 1 |}
          else {| sampleRate := rate; duration := d;
                  length := Z.to_nat numFrames;
                  channels := pcm_samples (int16_view bs)
                                (Z.to_nat numChannels) (Z.to_nat numFrames) |}).
Proof.
  intros HC Halloc numFrames.
  pose proof (@frames_of_nonneg (Z.of_nat (List.length bs)) numChannels
                ltac:(lia) HC) as Hq. fold numFrames in Hq.
  set (n := if (numFrames =? 0)%Z then 1%Z else numFrames).
  assert (Hn : (1 <= n)%Z).
  { unfold n. destruct (numFrames =? 0)%Z eqn:E; [lia|].
    apply Z.eqb_neq in E. lia. }
  destruct (Halloc n Hn) as [d Hd]. exists d.
  rewrite (@decodeAudioData_aligned T (new_Uint8Array bs) ctx rate numChannels
             _ eq_refl HC Hd eq_refl).
  cbn [elems new_Uint8Array]. fold numFrames. unfold n.
  destruct (numFrames =? 0)%Z; reflexivity.
Qed.

End BuilderResults.

Lemma exampleContext_allocates numChannels rate :
  (1 <= numChannels)%Z -> allocates exampleContext numChannels rate.
Proof.
  intros HC n Hn. eexists. unfold exampleContext. cbn [createBuffer].
  replace (numChannels <=? 0)%Z with false by (symmetry; apply Z.leb_gt; lia).
  replace (n <=? 0)%Z with false by (symmetry; apply Z.leb_gt; lia).
  reflexivity.
Qed.



(** C4.  In the buffer built from a byte sequence, for every frame index
    [i] below the frame count [floor (L / (2 * C))] and channel [ch < C],
    frame [i] of channel [ch] holds the conversion of the interleaved sample
    [i * C + ch]: when that index is inside the 16-bit view, the 16-bit
    signed value divided by 32768.0, exactly, which lies in [-1.0, 1.0];
    when it is past the end, 0.0, without an error. *)
Theorem builder_samples (T : Type) (bs : list byte) (ctx : AudioContext T)
    (rate : T) (numChannels : Z) (buffer : AudioBuffer T) (i ch : nat) :
  (1 <= numChannels)%Z ->
  allocates ctx numChannels rate ->
  decodeAudioData (new_Uint8Array bs) ctx rate numChannels = Ok buffer ->
  (Z.of_nat i < Z.of_nat (List.length bs) / (2 * numChannels))%Z ->
  (Z.of_nat ch < numChannels)%Z ->
  let dataInt16 := int16_view bs in
  let sampleIndex := (i * Z.to_nat numChannels + ch)%nat in
  let x := List.nth i (List.nth ch (channels buffer) []) PrimFloat.zero in
  x = convertSample dataInt16 sampleIndex /\
  ((sampleIndex < List.length dataInt16)%nat ->
     sample_exact (List.nth sampleIndex dataInt16 0%Z) x = true) /\
  ((List.length dataInt16 <= sampleIndex)%nat -> x = PrimFloat.zero).
Proof.
  intros HC Halloc Hbuf Hi Hch dataInt16 sampleIndex x.
  destruct (@decodeAudioData_returns T bs ctx rate numChannels HC Halloc) as [d Hd].
  rewrite Hd in Hbuf. unfold frames_of in Hbuf. clear Hd.
  set (numFrames := (Z.of_nat (List.length bs) / (2 * numChannels))%Z) in *.
  clearbody numFrames.
  destruct (numFrames =? 0)%Z eqn:E; [apply Z.eqb_eq in E; lia|].
  injection Hbuf as <-.
  assert (Hx : x = convertSample dataInt16 sampleIndex).
  { unfold x. cbn [channels]. apply nth_pcm_samples; lia. }
  split; [exact Hx|]. rewrite Hx. split.
  - intros Hin. rewrite (convertSample_in_bounds _ Hin).
    apply (@all_from_spec (fun v => sample_exact v (convertSample [v] 0)) _ _
             (List.nth sampleIndex dataInt16 0%Z) samples_exact_checked).
    assert (Hr : Forall (fun v => -32768 <= v < 32768)%Z dataInt16)
      by apply int16_elements_range.
    rewrite Forall_forall in Hr.
    specialize (Hr _ (nth_In dataInt16 0%Z Hin)). lia.
  - apply convertSample_out_of_bounds.
Qed.

Lemma builder_samples_witness :
  let buffer :=
    {| sampleRate := 48000%Q; duration := (inject_Z 1 / 48000)%Q; length := 1;
       channels := [[(-1)%float]; [0.999969482421875%float]] |} in
  let dataInt16 := int16_view [x00; x80; xff; x7f; x01] in
  let x := List.nth 0 (List.nth 1 (channels buffer) []) PrimFloat.zero in
  x = convertSample dataInt16 1 /\
  ((1 < List.length dataInt16)%nat ->
     sample_exact (List.nth 1 dataInt16 0%Z) x = true) /\
  ((List.length dataInt16 <= 1)%nat -> x = PrimFloat.zero).
Proof.
  apply (@builder_samples Q [x00; x80; xff; x7f; x01] exampleContext 48000%Q 2
           _ 0%nat 1%nat).
  - lia.
  - apply exampleContext_allocates. lia.
  - vm_compute. reflexivity.
  - vm_compute. reflexivity.
  - lia.
Defined.

(** C6, as the code has it.  For every byte sequence in an array of its
    own, whatever its length, and for every sample rate and channel count
    [C >= 1] for which the context allocates buffers, [decodeAudioData]
    completes without raising and returns a usable buffer; the bytes after
    the last whole frame are dropped: the buffer is the one built from the
    whole frames alone.  Outside these conditions it raises: it catches
    neither an exception of [createBuffer] nor the [RangeError] of a view
    at an odd offset. *)
Theorem builder_never_raises (T : Type) (bs : list byte) (ctx : AudioContext T)
    (rate : T) (numChannels : Z) :
  (1 <= numChannels)%Z ->
  allocates ctx numChannels rate ->
  let numFrames := (Z.of_nat (List.length bs) / (2 * numChannels))%Z in
  let wholeFrames := firstn (Z.to_nat (2 * numChannels * numFrames)) bs in
  exists buffer : AudioBuffer T,
    decodeAudioData (new_Uint8Array bs) ctx rate numChannels = Ok buffer /\
    usable buffer (Z.to_nat numChannels) rate /\
    decodeAudioData (new_Uint8Array wholeFrames) ctx rate numChannels
    = Ok buffer.
Proof.
  intros HC Halloc numFrames wholeFrames.
  set (L := Z.of_nat (List.length bs)).
  assert (Hq : (0 <= numFrames)%Z) by (apply Z.div_pos; lia).
  assert (Hfit : (2 * numChannels * numFrames <= L)%Z)
    by (apply Z.mul_div_le; lia).
  assert (Hwl : Z.of_nat (List.length wholeFrames)
                = (2 * numChannels * numFrames)%Z).
  { assert (0 <= 2 * numChannels * numFrames)%Z
      by (apply Z.mul_nonneg_nonneg; lia).
    unfold wholeFrames. rewrite length_firstn. unfold L in Hfit. lia. }
  assert (Hwq : (Z.of_nat (List.length wholeFrames) / (2 * numChannels)
                 = numFrames)%Z).
  { rewrite Hwl. replace (2 * numChannels * numFrames)%Z
      with (numFrames * (2 * numChannels))%Z by lia.
    apply Z.div_mul. lia. }
  set (n := if (numFrames =? 0)%Z then 1%Z else numFrames).
  assert (Hn : (1 <= n)%Z).
  { unfold n. destruct (numFrames =? 0)%Z eqn:E; [lia|].
    apply Z.eqb_neq in E. lia. }
  destruct (Halloc n Hn) as [d Hd].
  set (b0 := {| sampleRate := rate; duration := d; length := Z.to_nat n;
                channels := silence (Z.to_nat numChannels) (Z.to_nat n) |})
    in Hd.
  pose proof (@decodeAudioData_aligned T (new_Uint8Array bs) ctx rate
                numChannels b0 eq_refl HC Hd eq_refl) as H1.
  pose proof (@decodeAudioData_aligned T (new_Uint8Array wholeFrames) ctx rate
                numChannels b0 eq_refl HC) as H2.
  cbn [elems new_Uint8Array] in H1, H2. unfold frames_of in H1, H2.
  rewrite Hwq in H2.
  change (Z.of_nat (List.length bs) / (2 * numChannels))%Z with numFrames in H1.
  fold n in H2.
  specialize (H2 Hd eq_refl).
  eexists. split; [exact H1|]. split.
  - unfold usable, with_channels, numberOfChannels, b0.
    destruct (numFrames =? 0)%Z eqn:E; cbn [sampleRate channels length].
    + destruct (silence_shape (Z.to_nat numChannels) (Z.to_nat n)) as [S1 S2].
      repeat split; auto; lia.
    + destruct (pcm_samples_shape (int16_view bs) (Z.to_nat numChannels)
                  (Z.to_nat numFrames)) as [S1 S2].
      apply Z.eqb_neq in E.
      assert (Hnq : n = numFrames)
        by (unfold n; destruct (numFrames =? 0)%Z eqn:E'; [|reflexivity];
            apply Z.eqb_eq in E'; contradiction).
      rewrite Hnq. repeat split; auto; lia.
  - rewrite H2. f_equal.
    destruct (numFrames =? 0)%Z eqn:E; [reflexivity|].
    f_equal. apply pcm_samples_ext. intros idx Hidx.
    assert (Hk : (Z.to_nat numFrames * Z.to_nat numChannels
                  <= Z.to_nat (L / 2))%nat).
    { assert ((numChannels * numFrames <= L / 2)%Z)
        by (apply Z.div_le_lower_bound; lia).
      pose proof (Z.div_pos L 2 ltac:(lia) ltac:(lia)).
      apply Nat2Z.inj_le. rewrite Nat2Z.inj_mul, !Z2Nat.id; lia. }
    assert (HL2 : (2 * Z.to_nat (L / 2) <= List.length bs)%nat).
    { pose proof (Z.mul_div_le L 2 ltac:(lia)).
      pose proof (Z.div_pos L 2 ltac:(lia) ltac:(lia)). lia. }
    set (k := (Z.to_nat numFrames * Z.to_nat numChannels)%nat) in *.
    assert (Hview : int16_view wholeFrames = firstn k (int16_view bs)).
    { unfold int16_view at 1. rewrite Hwl.
      replace (2 * numChannels * numFrames / 2)%Z
        with (numChannels * numFrames)%Z
        by (replace (2 * numChannels * numFrames)%Z
              with (numChannels * numFrames * 2)%Z by lia;
            now rewrite Z.div_mul).
      replace (Z.to_nat (numChannels * numFrames)) with k
        by (unfold k; rewrite Z2Nat.inj_mul; lia).
      unfold wholeFrames.
      replace (Z.to_nat (2 * numChannels * numFrames)) with (2 * k)%nat
        by (unfold k; rewrite !Z2Nat.inj_mul; lia).
      apply int16_elements_firstn; assumption. }
    rewrite Hview. unfold convertSample.
    rewrite length_firstn, int16_view_length. fold L.
    rewrite Nat.min_l by exact Hk.
    replace (idx <? k)%nat with true by (symmetry; apply Nat.ltb_lt; exact Hidx).
    replace (idx <? Z.to_nat (L / 2))%nat with true
      by (symmetry; apply Nat.ltb_lt; lia).
    rewrite nth_firstn.
    replace (idx <? k)%nat with true by (symmetry; apply Nat.ltb_lt; exact Hidx).
    reflexivity.
Qed.

Lemma builder_never_raises_witness :
  let wholeFrames :=
    firstn (Z.to_nat (2 * 2 * (5 / (2 * 2)))) [x00; x80; xff; x7f; x01] in
  exists buffer : AudioBuffer Q,
    decodeAudioData (new_Uint8Array [x00; x80; xff; x7f; x01])
      exampleContext 48000%Q 2 = Ok buffer /\
    usable buffer 2 48000%Q /\
    decodeAudioData (new_Uint8Array wholeFrames) exampleContext 48000%Q 2
    = Ok buffer.
Proof.
  apply (@builder_never_raises Q [x00; x80; xff; x7f; x01] exampleContext
           48000%Q 2).
  - lia.
  - apply exampleContext_allocates. lia.
Defined.

(** C6 as stated fails: with a channel count of 1 or more the builder
    raises for a sample rate, or a channel count, that the context does
    not support, and for bytes held at an odd offset of their buffer, where
    the same bytes at offset 0 give a buffer. *)
Lemma builder_raises :
  decodeAudioData (new_Uint8Array [x00; x80; xff; x7f]) limitedContext
    100%float 2
  = Throw NotSupportedError
  /\ decodeAudioData (new_Uint8Array [x00; x80; xff; x7f]) limitedContext
       48000%float 64
     = Throw NotSupportedError
  /\ decodeAudioData (mkUint8Array 1 [x00; x80; xff; x7f]) limitedContext
       48000%float 2
     = Throw RangeError
  /\ (exists buffer,
        decodeAudioData (new_Uint8Array [x00; x80; xff; x7f]) limitedContext
          48000%float 2
        = Ok buffer)
  /\ ~ (forall (data : Uint8Array) (rate : float) (numChannels : Z),
          (1 <= numChannels)%Z ->
          exists buffer,
            decodeAudioData data limitedContext rate numChannels = Ok buffer).
Proof.
  assert (H1 : decodeAudioData (new_Uint8Array [x00; x80; xff; x7f])
                 limitedContext 100%float 2
               = Throw NotSupportedError) by (vm_compute; reflexivity).
  split; [exact H1|]. split; [vm_compute; reflexivity|].
  split; [vm_compute; reflexivity|].
  split; [eexists; vm_compute; reflexivity|].
  intros H.
  destruct (H (new_Uint8Array [x00; x80; xff; x7f]) 100%float 2%Z
              ltac:(lia)) as [buffer Hb].
  rewrite H1 in Hb. discriminate.
Qed.

(** Nine bytes in stereo: two frames, the ninth byte dropped. *)
Example decodeAudioData_two_frames :
  decodeAudioData
    (new_Uint8Array [x00; x80; xff; x7f; x01; x00; x00; x40; x05])
    exampleContext 48000%Q 2
  = Ok {| sampleRate := 48000%Q;
          duration := (inject_Z 2 / 48000)%Q;
          length := 2;
          channels := [[(-1)%float; 0x1p-15%float];
                       [0x1.fffcp-1%float; 0.5%float]] |}.
Proof. vm_compute. reflexivity. Qed.

(** No byte, or fewer bytes than a frame: one frame of silence. *)
Example decodeAudioData_silent :
  decodeAudioData (new_Uint8Array []) exampleContext 48000%Q 2
  = Ok {| sampleRate := 48000%Q; duration := (inject_Z 1 / 48000)%Q;
          length := 1; channels := [[0%float]; [0%float]] |}
  /\ decodeAudioData (new_Uint8Array [x01; x02; x03]) exampleContext 48000%Q 2
     = Ok {| sampleRate := 48000%Q; duration := (inject_Z 1 / 48000)%Q;
             length := 1; channels := [[0%float]; [0%float]] |}.
Proof. split; vm_compute; reflexivity. Qed.

(** The same nine bytes seen through a view at offset 1 of a larger
    buffer. *)
Example decodeAudioData_odd_offset :
  decodeAudioData
    (mkUint8Array 1 [x00; x80; xff; x7f; x01; x00; x00; x40; x05])
    exampleContext 48000%Q 2
  = Throw RangeError.
Proof. vm_compute. reflexivity. Qed.

(** ** Numbers *)

Section DoubleOrder.

Import DoubleSpec.

Lemma SFcompare_antisym a b :
  SFcompare b a = option_map CompOpp (SFcompare a b).
Proof.
  destruct a as [sa|sa| |sa ma ea], b as [sb|sb| |sb mb eb];
    try reflexivity;
    try (destruct sa; reflexivity); try (destruct sb; reflexivity);
    try (destruct sa, sb; reflexivity).
  cbn. change (Pos.compare_cont Eq mb ma) with (Pos.compare mb ma).
  change (Pos.compare_cont Eq ma mb) with (Pos.compare ma mb).
  rewrite (Pos.compare_antisym ma mb), (Z.compare_antisym ea eb).
  destruct sa, sb; try reflexivity; destruct (ea ?= eb)%Z; cbn;
    try reflexivity; now rewrite ?CompOpp_involutive.
Qed.

Lemma SFcompare_refl a : SFcompare a a = None \/ SFcompare a a = Some Eq.
Proof.
  destruct a as [s|s| |s m e]; cbn; auto.
  - destruct s; auto.
  - right. rewrite Z.compare_refl.
    change (Pos.compare_cont Eq m m) with (Pos.compare m m).
    rewrite Pos.compare_refl. destruct s; reflexivity.
Qed.

Lemma SFltb_SFleb a b : SFltb a b = true -> SFleb a b = true.
Proof.
  unfold SFltb, SFleb. destruct (SFcompare a b) as [[| |]|]; auto.
Qed.

Lemma SFleb_SFltb a b : SFleb a b = true -> SFltb b a = false.
Proof.
  unfold SFltb, SFleb. rewrite (SFcompare_antisym a b).
  destruct (SFcompare a b) as [[| |]|]; cbn; auto; discriminate.
Qed.

(** [a <= b] on doubles is the order of the ranks, for numbers that are
    not NaN. *)
Lemma SFleb_rank a b :
  SFleb a b = true <->
  a <> S754_nan /\ b <> S754_nan /\
  let '(a1, a2, a3) := rank a in
  let '(b1, b2, b3) := rank b in
  (a1 < b1 \/ (a1 = b1 /\ (a2 < b2 \/ (a2 = b2 /\ a3 <= b3))))%Z.
Proof.
  unfold SFleb.
  destruct a as [sa|sa| |sa ma ea], b as [sb|sb| |sb mb eb]; cbn;
    try (destruct sa); try (destruct sb); cbn;
    try (split; [intros _; repeat split; try discriminate; lia
                | intros _; reflexivity]);
    try (split; [discriminate | intros (H1 & H2 & H3); try congruence; lia]).
  all: change (Pos.compare_cont Eq ma mb) with (Pos.compare ma mb);
    destruct (Z.compare_spec ea eb); destruct (Pos.compare_spec ma mb); cbn;
    try (split; [intros _; repeat split; try discriminate; lia
                | intros _; reflexivity]);
    try (split; [discriminate | intros (H1 & H2 & H3); lia]).
Qed.

Lemma SFleb_trans a b c :
  SFleb a b = true -> SFleb b c = true -> SFleb a c = true.
Proof.
  rewrite !SFleb_rank. intros (A1 & A2 & A3) (B1 & B2 & B3).
  split; [exact A1|]. split; [exact B2|].
  destruct (rank a) as [[a1 a2] a3], (rank b) as [[b1 b2] b3],
    (rank c) as [[c1 c2] c3]. lia.
Qed.

Lemma SFeqb_zero a :
  SFeqb a (S754_zero false) = true -> exists s, a = S754_zero s.
Proof.
  unfold SFeqb. destruct a as [s|s| |s m e]; cbn; try discriminate.
  - intros _. exists s. reflexivity.
  - destruct s; discriminate.
  - destruct s; discriminate.
Qed.

Lemma SFleb_zero s b : SFleb (S754_zero s) b = SFleb (S754_zero false) b.
Proof. destruct b as [sb|sb| |sb mb eb]; reflexivity. Qed.

Lemma SFleb_refl_r a b : SFleb a b = true -> SFleb b b = true.
Proof.
  intros H. unfold SFleb.
  destruct (SFcompare_refl b) as [E | ->]; [|reflexivity].
  destruct b as [s|s| |s m e]; cbn in E; try discriminate.
  destruct a; discriminate.
Qed.

Lemma SFleb_total a b :
  SFleb a a = true -> SFleb b b = true -> SFltb a b = false ->
  SFleb b a = true.
Proof.
  intros Ha Hb. unfold SFltb, SFleb. rewrite (SFcompare_antisym a b).
  destruct (SFcompare a b) as [[| |]|] eqn:E; cbn; try reflexivity;
    try discriminate.
  intros _. exfalso.
  destruct a as [sa|sa| |sa ma ea], b as [sb|sb| |sb mb eb];
    cbn in E, Ha, Hb; try discriminate;
    try (destruct sa; discriminate); try (destruct sb; discriminate);
    try (destruct sa, sb; discriminate).
Qed.

(** The doubles satisfy the laws of the order, NaN included. *)
Lemma DoubleLaws : OrderLaws float.
Proof.
  constructor; cbn [ltb leb eqb zero FloatOps].
  - intros a b. rewrite ltb_spec, leb_spec. apply SFltb_SFleb.
  - intros a b. rewrite ltb_spec, leb_spec. apply SFleb_SFltb.
  - intros a b c. rewrite !leb_spec. apply SFleb_trans.
  - intros a b. rewrite !leb_spec. apply SFleb_refl_r.
  - intros a b. rewrite ltb_spec, !leb_spec. apply SFleb_total.
  - intros a b. rewrite eqb_spec, !leb_spec.
    change (Prim2SF PrimFloat.zero) with (S754_zero false).
    intros H. destruct (SFeqb_zero _ H) as [s ->]. apply SFleb_zero.
Qed.

End DoubleOrder.

(** ** Sums of doubles

    The sum of two doubles is the exact sum of their values at the
    smaller of their exponents, rounded to the format: [SFadd] of the
    specification of the primitive floats. *)

Section DoubleAddition.

Local Open Scope Z_scope.

(** The number of binary digits of a mantissa. *)
Lemma digits2_pos_bounds (m : positive) :
  2 ^ (Zpos (digits2_pos m) - 1) <= Zpos m < 2 ^ Zpos (digits2_pos m).
Proof.
  induction m as [p IH | p IH |]; cbn [digits2_pos].
  - rewrite Pos2Z.inj_succ.
    replace (Z.succ (Zpos (digits2_pos p)) - 1)
      with (Z.succ (Zpos (digits2_pos p) - 1)) by lia.
    rewrite !Z.pow_succ_r by lia. lia.
  - rewrite Pos2Z.inj_succ.
    replace (Z.succ (Zpos (digits2_pos p)) - 1)
      with (Z.succ (Zpos (digits2_pos p) - 1)) by lia.
    rewrite !Z.pow_succ_r by lia. lia.
  - cbn. lia.
Qed.

Lemma digits2_pos_mono (m m' : positive) :
  Zpos m <= Zpos m' -> Zpos (digits2_pos m) <= Zpos (digits2_pos m').
Proof.
  intros H.
  destruct (Z_le_gt_dec (Zpos (digits2_pos m)) (Zpos (digits2_pos m')))
    as [|Hgt]; [assumption|exfalso].
  pose proof (digits2_pos_bounds m) as [B1 _].
  pose proof (digits2_pos_bounds m') as [_ B2].
  assert (2 ^ Zpos (digits2_pos m') <= 2 ^ (Zpos (digits2_pos m) - 1))
    by (apply Z.pow_le_mono_r; lia).
  lia.
Qed.

Lemma iter_xO_value (m d : positive) :
  Zpos (Pos.iter xO m d) = Zpos m * 2 ^ Zpos d.
Proof.
  induction d as [|d IH] using Pos.peano_ind.
  - cbn [Pos.iter]. rewrite Z.pow_1_r. lia.
  - rewrite Pos.iter_succ, Pos2Z.inj_succ, Z.pow_succ_r by lia.
    rewrite Pos2Z.inj_xO, IH. lia.
Qed.

Lemma iter_xO_digits (m d : positive) :
  Zpos (digits2_pos (Pos.iter xO m d)) = Zpos (digits2_pos m) + Zpos d.
Proof.
  induction d as [|d IH] using Pos.peano_ind.
  - cbn [Pos.iter digits2_pos]. lia.
  - rewrite Pos.iter_succ. cbn [digits2_pos].
    rewrite !Pos2Z.inj_succ, IH. lia.
Qed.

(** [shl_align] keeps the value and the sum of digits and exponent. *)
Lemma shl_align_spec (m : positive) (e e' : Z) :
  e' <= e ->
  Zpos (fst (shl_align m e e')) = Zpos m * 2 ^ (e - e')
  /\ Zpos (digits2_pos (fst (shl_align m e e')))
     = Zpos (digits2_pos m) + (e - e').
Proof.
  intros H. unfold shl_align.
  destruct (e' - e) as [|p|p] eqn:E; try lia.
  - replace (e - e') with 0 by lia. cbn [fst]. rewrite Z.pow_0_r. lia.
  - cbn [fst]. replace (e - e') with (Zpos p) by lia.
    split; [apply iter_xO_value | apply iter_xO_digits].
Qed.

(** Shifting right divides the mantissa. *)
Lemma shr_1_m (r : shr_record) :
  0 <= shr_m r -> shr_m (shr_1 r) = shr_m r / 2.
Proof.
  destruct r as [m b s]. cbn [shr_m]. intros H.
  rewrite <- Z.div2_div.
  destruct m as [|[p|p|]|p]; try reflexivity; lia.
Qed.

Lemma shr_1_nonneg (r : shr_record) : 0 <= shr_m r -> 0 <= shr_m (shr_1 r).
Proof.
  intros H. rewrite shr_1_m by assumption. apply Z.div_pos; lia.
Qed.

Lemma iter_shr_1_m (p : positive) : forall r : shr_record,
  0 <= shr_m r ->
  0 <= shr_m (iter_pos shr_1 p r)
  /\ shr_m (iter_pos shr_1 p r) = shr_m r / 2 ^ Zpos p.
Proof.
  induction p as [p IH | p IH |]; intros r H; cbn [iter_pos].
  - pose proof (shr_1_nonneg r H) as H1.
    destruct (IH _ H1) as [H2 E2]. destruct (IH _ H2) as [H3 E3].
    split; [assumption|].
    assert (Hp : 0 < 2 ^ Zpos p) by (apply Z.pow_pos_nonneg; lia).
    rewrite E3, E2, shr_1_m by assumption.
    rewrite !Z.div_div by lia.
    f_equal.
    replace (Zpos p~1) with (1 + Zpos p + Zpos p) by lia.
    rewrite !Z.pow_add_r by lia. lia.
  - destruct (IH _ H) as [H2 E2]. destruct (IH _ H2) as [H3 E3].
    split; [assumption|].
    assert (Hp : 0 < 2 ^ Zpos p) by (apply Z.pow_pos_nonneg; lia).
    rewrite E3, E2.
    rewrite !Z.div_div by lia.
    f_equal.
    replace (Zpos p~0) with (Zpos p + Zpos p) by lia.
    rewrite !Z.pow_add_r by lia. lia.
  - split; [apply shr_1_nonneg; assumption|].
    rewrite shr_1_m by assumption. reflexivity.
Qed.

Lemma shr_spec (r : shr_record) (e n : Z) :
  0 <= shr_m r ->
  snd (shr r e n) = e + Z.max 0 n
  /\ shr_m (fst (shr r e n)) = shr_m r / 2 ^ Z.max 0 n.
Proof.
  intros H. unfold shr. destruct n as [|p|p]; cbn [fst snd].
  - rewrite Z.max_l by lia. rewrite Z.pow_0_r, Z.div_1_r. lia.
  - rewrite Z.max_r by lia. split; [reflexivity|].
    apply iter_shr_1_m. assumption.
  - rewrite Z.max_l by lia. rewrite Z.pow_0_r, Z.div_1_r. lia.
Qed.

Lemma round_nearest_even_lower (m : Z) (l : location) :
  m <= round_nearest_even m l.
Proof.
  destruct l as [|[| |]]; cbn [round_nearest_even]; try lia.
  destruct (Z.even m); lia.
Qed.

Lemma prec_pos : 0 < prec.
Proof. reflexivity. Qed.

Lemma fexp_mono (a b : Z) : a <= b -> fexp prec emax a <= fexp prec emax b.
Proof. unfold fexp. lia. Qed.

Lemma fexp_emin (a : Z) : emin <= fexp prec emax a.
Proof. unfold fexp. lia. Qed.

(** A positive mantissa [m] at exponent [e], rounded: when the mantissa
    shifted to the exponent [e'] of the format is [q >= 1], the result is
    infinite, or has a greater exponent, or has that exponent and a
    mantissa that is at least [q]. *)
Lemma binary_round_aux_lower (m : positive) (e : Z) :
  let e' := e + Z.max 0 (fexp prec emax (Zpos (digits2_pos m) + e) - e) in
  let q := Zpos m / 2 ^ (e' - e) in
  emin <= e' ->
  1 <= q ->
  binary_round_aux prec emax false (Zpos m) e loc_Exact = S754_infinity false
  \/ exists m'' e'',
       binary_round_aux prec emax false (Zpos m) e loc_Exact
       = S754_finite false m'' e''
       /\ (e' < e'' \/ (e'' = e' /\ q <= Zpos m'')).
Proof.
  intros e' q Hmin Hq. pose proof prec_pos as Hprec.
  unfold binary_round_aux, shr_fexp.
  cbn [Zdigits2 shr_record_of_loc].
  pose proof (@shr_spec (Build_shr_record (Zpos m) false false) e
                (fexp prec emax (Zpos (digits2_pos m) + e) - e)) as S1.
  cbn [shr_m] in S1. specialize (S1 ltac:(lia)).
  destruct (shr (Build_shr_record (Zpos m) false false) e
              (fexp prec emax (Zpos (digits2_pos m) + e) - e))
    as [mrs1 e1]. cbn [fst snd] in S1. destruct S1 as [Ee1 Em1].
  fold e' in Ee1. subst e1.
  replace (Z.max 0 (fexp prec emax (Zpos (digits2_pos m) + e) - e))
    with (e' - e) in Em1 by (unfold e'; lia).
  fold q in Em1.
  pose proof (round_nearest_even_lower (shr_m mrs1) (loc_of_shr_record mrs1))
    as Hr.
  destruct (round_nearest_even (shr_m mrs1) (loc_of_shr_record mrs1))
    as [|m1|m1] eqn:Em; try lia.
  cbn [Zdigits2 shr_record_of_loc].
  pose proof (@shr_spec (Build_shr_record (Zpos m1) false false) e'
                (fexp prec emax (Zpos (digits2_pos m1) + e') - e')) as S2.
  cbn [shr_m] in S2. specialize (S2 ltac:(lia)).
  destruct (shr (Build_shr_record (Zpos m1) false false) e'
              (fexp prec emax (Zpos (digits2_pos m1) + e') - e'))
    as [mrs2 e2]. cbn [fst snd] in S2. destruct S2 as [Ee2 Em2].
  pose proof (digits2_pos_bounds m1) as [B1 B2].
  assert (Hm2 : 1 <= shr_m mrs2
                /\ (e2 = e' -> Zpos m1 <= shr_m mrs2)).
  { rewrite Em2.
    destruct (Z_le_gt_dec (fexp prec emax (Zpos (digits2_pos m1) + e') - e') 0)
      as [Hle|Hgt].
    - rewrite Z.max_l by lia. rewrite Z.pow_0_r, Z.div_1_r. lia.
    - rewrite Z.max_r by lia.
      assert (Hf : fexp prec emax (Zpos (digits2_pos m1) + e') - e'
                   = Zpos (digits2_pos m1) - prec)
        by (unfold fexp in *; lia).
      rewrite Hf in *.
      split; [|intros He; exfalso; lia].
      apply Z.div_le_lower_bound; [apply Z.pow_pos_nonneg; lia|].
      rewrite Z.mul_1_r.
      apply Z.le_trans with (2 ^ (Zpos (digits2_pos m1) - 1));
        [apply Z.pow_le_mono_r; lia | lia]. }
  destruct Hm2 as [Hpos Hsame].
  destruct (shr_m mrs2) as [|m2|m2] eqn:E2; try lia.
  destruct (e2 <=? emax - prec); [right | left; reflexivity].
  exists m2, e2. split; [reflexivity|].
  destruct (Z.eq_dec e2 e') as [He|He].
  - right. split; [assumption|]. specialize (Hsame He). lia.
  - left. lia.
Qed.

(** The sum of two positive doubles is not less than the first. *)
Lemma SFadd_finite_advances (mx : positive) (ex : Z) (my : positive) (ey : Z) :
  canonical_mantissa prec emax mx ex = true ->
  SFleb (S754_finite false mx ex)
        (SFadd prec emax (S754_finite false mx ex) (S754_finite false my ey))
  = true.
Proof.
  intros Hc. unfold canonical_mantissa in Hc. apply Z.eqb_eq in Hc.
  pose proof prec_pos as Hprec.
  cbn [SFadd cond_Zopp].
  set (ez := Z.min ex ey).
  destruct (@shl_align_spec mx ex ez ltac:(unfold ez; lia)) as [Vx Dx].
  destruct (@shl_align_spec my ey ez ltac:(unfold ez; lia)) as [Vy Dy].
  set (mx' := fst (shl_align mx ex ez)) in *.
  set (my' := fst (shl_align my ey ez)) in *.
  change (Zpos mx' + Zpos my') with (Zpos (mx' + my')).
  set (m := (mx' + my')%positive).
  cbn [binary_normalize]. unfold binary_round.
  assert (Hd : Zpos (digits2_pos mx) + ex <= Zpos (digits2_pos m) + ez).
  { assert (Zpos (digits2_pos mx') <= Zpos (digits2_pos m))
      by (apply digits2_pos_mono; unfold m; lia).
    lia. }
  pose proof (fexp_mono Hd) as HE. rewrite Hc in HE.
  set (E := fexp prec emax (Zpos (digits2_pos m) + ez)) in *.
  assert (Hez : ez <= ex) by (unfold ez; lia).
  assert (Hal : shl_align m ez E = (m, ez)).
  { unfold shl_align. destruct (E - ez) eqn:Es; try reflexivity. lia. }
  rewrite Hal.
  pose proof (@binary_round_aux_lower m ez) as R. cbn zeta in R.
  fold E in R.
  replace (ez + Z.max 0 (E - ez)) with E in R by lia.
  assert (Hmin : emin <= E) by apply fexp_emin.
  assert (Hex : emin <= ex) by (rewrite <- Hc; apply fexp_emin).
  assert (Hpow : 0 < 2 ^ (E - ez)) by (apply Z.pow_pos_nonneg; lia).
  assert (Hq : (E = ex -> Zpos mx <= Zpos m / 2 ^ (E - ez))
               /\ 1 <= Zpos m / 2 ^ (E - ez)).
  { destruct (Z.eq_dec E ex) as [He|He].
    - assert (Zpos mx <= Zpos m / 2 ^ (E - ez)).
      { apply Z.div_le_lower_bound; [assumption|].
        rewrite He. unfold m. rewrite Pos2Z.inj_add, Vx. lia. }
      split; [intros _; assumption | lia].
    - split; [intros; contradiction|].
      assert (Hf : E - ez = Zpos (digits2_pos m) - prec)
        by (unfold E, fexp in *; lia).
      rewrite Hf in *.
      pose proof (digits2_pos_bounds m) as [B1 _].
      apply Z.div_le_lower_bound; [assumption|].
      rewrite Z.mul_1_r.
      apply Z.le_trans with (2 ^ (Zpos (digits2_pos m) - 1));
        [apply Z.pow_le_mono_r; lia | lia]. }
  destruct Hq as [Hsame Hq].
  destruct (R Hmin Hq) as [-> | (m'' & e'' & -> & Hres)].
  - reflexivity.
  - unfold SFleb, SFcompare.
    destruct Hres as [Hlt | [He Hm]].
    + assert (Hc' : (ex ?= e'') = Lt) by (apply Z.compare_lt_iff; lia).
      rewrite Hc'. reflexivity.
    + subst e''. destruct (Z.eq_dec E ex) as [He|He].
      * rewrite He, Z.compare_refl.
        specialize (Hsame He).
        change (Pos.compare_cont Eq mx m'') with (Pos.compare mx m'').
        destruct (Pos.compare mx m'') eqn:Ec; try reflexivity.
        apply Pos.compare_gt_iff in Ec. lia.
      * assert (Hc' : (ex ?= E) = Lt) by (apply Z.compare_lt_iff; lia).
        rewrite Hc'. reflexivity.
Qed.

End DoubleAddition.

(** Adding a double that is not negative to one that is not negative does
    not go backwards. *)
Lemma add_advances_double (a d : float) :
  PrimFloat.leb 0 a = true -> PrimFloat.leb 0 d = true ->
  PrimFloat.leb a (PrimFloat.add a d) = true.
Proof.
  rewrite !leb_spec, add_spec.
  pose proof (Prim2SF_valid a) as Va.
  change (Prim2SF 0) with (S754_zero false).
  destruct (Prim2SF a) as [sa|sa| |sa ma ea], (Prim2SF d) as [sd|sd| |sd md ed];
    cbn; try discriminate;
    try (destruct sa; try discriminate); try (destruct sd; try discriminate);
    try reflexivity; intros _ _.
  - rewrite Z.compare_refl.
    change (Pos.compare_cont Eq ma ma) with (Pos.compare ma ma).
    rewrite Pos.compare_refl. reflexivity.
  - rewrite Z.compare_refl.
    change (Pos.compare_cont Eq ma ma) with (Pos.compare ma ma).
    rewrite Pos.compare_refl. reflexivity.
  - cbn [valid_binary] in Va. unfold bounded in Va.
    apply andb_true_iff in Va. destruct Va as [Va _].
    apply (@SFadd_finite_advances ma ea md ed Va).
Qed.

(** The doubles satisfy the law of sums. *)
Lemma DoubleSums : SumLaws float.
Proof.
  constructor; cbn [leb add zero one lit_0_1 FloatOps].
  - apply add_advances_double.
  - reflexivity.
  - reflexivity.
Qed.

(** ** The playback scheduler *)

Section SchedulerFacts.

Context {T : Type} {O : Ops T}.

Lemma scheduleBuffer_started now (b : AudioBuffer T) (st : State T) :
  started (scheduleBuffer now b st)
  = started st
    ++ [(nextStartTime (underrunStep now (firstBufferStep now st)), b)].
Proof.
  unfold scheduleBuffer, startStep, underrunStep, firstBufferStep.
  destruct (eqb (nextStartTime st) zero); cbn;
    match goal with |- context [ if ?c then _ else _ ] => destruct c end;
    reflexivity.
Qed.

Lemma scheduleBuffer_cursor now (b : AudioBuffer T) (st : State T) :
  nextStartTime (scheduleBuffer now b st)
  = add (nextStartTime (underrunStep now (firstBufferStep now st)))
      (duration b).
Proof. reflexivity. Qed.

Lemma underrunStep_not_taken now (st : State T) :
  ltb (nextStartTime st) now = false -> underrunStep now st = st.
Proof. intros H. unfold underrunStep. now rewrite H. Qed.

Lemma underrunStep_taken now (st : State T) :
  ltb (nextStartTime st) now = true ->
  nextStartTime (underrunStep now st) = add now lit_0_1 /\
  playbackState (underrunStep now st) = loading.
Proof. intros H. unfold underrunStep. rewrite H. split; reflexivity. Qed.

Lemma firstBufferStep_not_first now (st : State T) :
  eqb (nextStartTime st) zero = false -> firstBufferStep now st = st.
Proof. intros H. unfold firstBufferStep. now rewrite H. Qed.

Lemma firstBufferStep_first now (st : State T) :
  eqb (nextStartTime st) zero = true ->
  nextStartTime (firstBufferStep now st) = add now bufferTime.
Proof. intros H. unfold firstBufferStep. now rewrite H. Qed.

Lemma fireTimer_schedule (st : State T) :
  nextStartTime (fireTimer st) = nextStartTime st /\
  started (fireTimer st) = started st.
Proof.
  unfold fireTimer, timerCallback.
  destruct (timers st); [split; reflexivity|].
  cbn. destruct (playbackState st); split; reflexivity.
Qed.

Lemma playbackState_scheduleBuffer_taken now (b : AudioBuffer T) st :
  underrunTaken now st = true ->
  playbackState (scheduleBuffer now b st) = loading.
Proof.
  unfold underrunTaken, scheduleBuffer, startStep, underrunStep.
  intros H. rewrite H. reflexivity.
Qed.

Lemma cumulative_length (t0 : T) ds :
  List.length (cumulative t0 ds) = List.length ds.
Proof.
  revert t0; induction ds as [|d ds IH]; intros t0; simpl; auto.
Qed.

(** Each cumulative sum is the one before plus the duration before. *)
Lemma cumulative_snoc (t0 : T) ds d :
  cumulative t0 (ds ++ [d]) = cumulative t0 ds ++ [List.fold_left add ds t0].
Proof.
  revert t0; induction ds as [|x ds IH]; intros t0; simpl; [reflexivity|].
  now rewrite IH.
Qed.

(** A buffer is started at the reset time, or at a time that the
    program's own test found not behind the clock. *)
Lemma start_time_cases now (st : State T) :
  let startTime := nextStartTime (underrunStep now (firstBufferStep now st)) in
  startTime = add now lit_0_1 \/ ltb startTime now = false.
Proof.
  intros startTime. subst startTime. unfold underrunStep.
  destruct (ltb (nextStartTime (firstBufferStep now st)) now) eqn:E.
  - left. reflexivity.
  - right. exact E.
Qed.

(** A run in which no buffer takes the first-buffer branch or the
    underrun branch starts each buffer where the one before ends. *)
Lemma run_gapless_from evs : forall st : State T,
  noFirst evs st = true ->
  noUnderrun evs st = true ->
  let ds := List.map (@duration T) (buffers evs) in
  started (run evs st)
  = started st ++ List.combine (cumulative (nextStartTime st) ds) (buffers evs)
  /\ nextStartTime (run evs st) = List.fold_left add ds (nextStartTime st).
Proof.
  induction evs as [|[now b|] evs IH]; intros st Hnf Hno;
    cbn [run step buffers List.map cumulative List.combine List.fold_left].
  - rewrite app_nil_r. split; reflexivity.
  - cbn [noFirst step] in Hnf. apply andb_true_iff in Hnf.
    destruct Hnf as [Hf Hnf]. apply negb_true_iff in Hf.
    cbn [noUnderrun step] in Hno. apply andb_true_iff in Hno.
    destruct Hno as [Hu Hno]. apply negb_true_iff in Hu.
    assert (Hfirst : firstBufferStep now st = st)
      by (apply firstBufferStep_not_first; exact Hf).
    unfold underrunTaken in Hu. rewrite Hfirst in Hu.
    assert (Hsched_started :
              started (scheduleBuffer now b st)
              = started st ++ [(nextStartTime st, b)]).
    { rewrite scheduleBuffer_started, Hfirst.
      now rewrite (underrunStep_not_taken _ _ Hu). }
    assert (Hsched_cursor :
              nextStartTime (scheduleBuffer now b st)
              = add (nextStartTime st) (duration b)).
    { rewrite scheduleBuffer_cursor, Hfirst.
      now rewrite (underrunStep_not_taken _ _ Hu). }
    destruct (IH (scheduleBuffer now b st) Hnf Hno) as [IHs IHc].
    rewrite IHs, IHc, Hsched_started, Hsched_cursor.
    rewrite <- app_assoc. split; reflexivity.
  - cbn [noFirst step] in Hnf. cbn [noUnderrun step] in Hno.
    simpl in Hnf, Hno.
    destruct (fireTimer_schedule st) as [Hc Hs].
    destruct (IH (fireTimer st) Hnf Hno) as [IHs IHc].
    rewrite IHs, IHc, Hc, Hs. split; reflexivity.
Qed.

End SchedulerFacts.

Section GaplessRun.

Context {T : Type} {O : Ops T}.

(** A run without underrun, in which no buffer but the first takes the
    first-buffer branch, starts its buffers at the cumulative sums from
    the first cursor, and ends with the cursor at their total. *)
Lemma run_gapless (evs : list (@Event T)) : forall st : State T,
  firstOnly evs st = true ->
  noUnderrun evs st = true ->
  let ds := List.map (@duration T) (buffers evs) in
  let t0 := firstCursor evs st in
  started (run evs st)
  = started st ++ List.combine (cumulative t0 ds) (buffers evs)
  /\ nextStartTime (run evs st) = List.fold_left add ds t0.
Proof.
  induction evs as [|[now b|] evs IH]; intros st Hf Hno.
  - cbn. now rewrite app_nil_r.
  - cbn [firstOnly] in Hf.
    cbn [noUnderrun step] in Hno. apply andb_true_iff in Hno.
    destruct Hno as [Hu Hno]. apply negb_true_iff in Hu.
    cbn [run step buffers List.map firstCursor cumulative List.combine
         List.fold_left].
    destruct (@run_gapless_from T O evs (scheduleBuffer now b st) Hf Hno)
      as [Hs Hc].
    rewrite Hs, Hc, scheduleBuffer_started, scheduleBuffer_cursor.
    unfold underrunTaken in Hu.
    rewrite (underrunStep_not_taken _ _ Hu).
    now rewrite <- app_assoc.
  - cbn [firstOnly] in Hf.
    cbn [noUnderrun step] in Hno. simpl in Hno.
    cbn [run step buffers firstCursor].
    destruct (IH (fireTimer st) Hf Hno) as [Hs Hc].
    rewrite Hs, Hc.
    now destruct (fireTimer_schedule st) as [_ ->].
Qed.

Lemma run_app (evs1 evs2 : list (@Event T)) : forall st : State T,
  run (evs1 ++ evs2) st = run evs2 (run evs1 st).
Proof.
  induction evs1 as [|ev evs1 IH]; intros st; [reflexivity|].
  cbn [app run]. apply IH.
Qed.

(** A run without underrun has none in its beginnings. *)
Lemma noUnderrun_app (evs1 evs2 : list (@Event T)) : forall st : State T,
  noUnderrun (evs1 ++ evs2) st
  = noUnderrun evs1 st && noUnderrun evs2 (run evs1 st).
Proof.
  induction evs1 as [|ev evs1 IH]; intros st; [reflexivity|].
  cbn [app noUnderrun run]. rewrite IH. now rewrite andb_assoc.
Qed.

Lemma noFirst_app (evs1 evs2 : list (@Event T)) : forall st : State T,
  noFirst (evs1 ++ evs2) st = noFirst evs1 st && noFirst evs2 (run evs1 st).
Proof.
  induction evs1 as [|ev evs1 IH]; intros st; [reflexivity|].
  cbn [app noFirst run]. rewrite IH. now rewrite andb_assoc.
Qed.

(** What holds of the first-buffer branch in a run holds in its
    beginnings. *)
Lemma firstOnly_prefix (evs1 evs2 : list (@Event T)) : forall st : State T,
  firstOnly (evs1 ++ evs2) st = true -> firstOnly evs1 st = true.
Proof.
  induction evs1 as [|[now b|] evs1 IH]; intros st H; [reflexivity | |].
  - cbn [app firstOnly] in *. rewrite noFirst_app in H.
    apply andb_true_iff in H. apply H.
  - cbn [app firstOnly] in *. apply IH. exact H.
Qed.

Lemma buffers_app (evs1 evs2 : list (@Event T)) :
  buffers (evs1 ++ evs2) = buffers evs1 ++ buffers evs2.
Proof.
  induction evs1 as [|[now b|] evs1 IH]; cbn [app buffers];
    [reflexivity | now rewrite IH | exact IH].
Qed.

(** The first cursor of a run is that of its beginning up to the first
    buffer. *)
Lemma firstCursor_prefix (evs1 evs2 : list (@Event T)) now b :
  forall st : State T,
  firstCursor (evs1 ++ EvBuffer now b :: evs2) st
  = firstCursor (evs1 ++ [EvBuffer now b]) st.
Proof.
  induction evs1 as [|[now1 b1|] evs1 IH]; intros st; cbn [app firstCursor];
    [reflexivity | reflexivity | apply IH].
Qed.

(** The sum before the buffer of index [length ds1] is [t0] plus the
    durations before it. *)
Lemma cumulative_nth (ds1 ds2 : list T) d : forall t0 : T,
  List.nth (List.length ds1) (cumulative t0 (ds1 ++ d :: ds2)) zero
  = List.fold_left add ds1 t0.
Proof.
  induction ds1 as [|x ds1 IH]; intros t0; [reflexivity|].
  cbn [app cumulative List.length List.nth List.fold_left]. apply IH.
Qed.

End GaplessRun.

(** C1.  Gapless scheduling.  In a run of the scheduling code on buffers of
    durations [d1 .. dN] in which the underrun branch is never taken, and
    the first-buffer branch by no buffer but the first, the buffers are
    started at [t0], [t0 + d1], [t0 + d1 + d2], ..., where [t0] is the cursor
    with which the first buffer is scheduled: the start time of each buffer
    is [t0] plus the durations of the buffers before it, and after each call
    the cursor is that start time plus the duration of the buffer.  The
    sums are those the program computes, on whatever numbers it runs: both
    conditions are tests the program makes, and nothing is assumed of the
    numbers. *)
Theorem gapless_schedule (T : Type) (O : Ops T)
    (evs : list (@Event T)) (st : State T) :
  noUnderrun evs st = true ->
  firstOnly evs st = true ->
  let ds := List.map (@duration T) (buffers evs) in
  let t0 := firstCursor evs st in
  started (run evs st)
  = started st ++ List.combine (cumulative t0 ds) (buffers evs)
  /\ nextStartTime (run evs st) = List.fold_left add ds t0
  /\ (forall evs1 now audioBuffer evs2,
        evs = evs1 ++ EvBuffer now audioBuffer :: evs2 ->
        let startTime := List.nth (List.length (buffers evs1))
                           (cumulative t0 ds) zero in
        startTime
        = List.fold_left add (List.map (@duration T) (buffers evs1)) t0
        /\ nextStartTime (run (evs1 ++ [EvBuffer now audioBuffer]) st)
           = add startTime (duration audioBuffer)).
Proof.
  intros Hno Hf ds t0.
  destruct (run_gapless evs st Hf Hno) as [Hs Hc].
  split; [exact Hs|]. split; [exact Hc|].
  intros evs1 now b evs2 Hevs startTime.
  assert (Hstart : startTime
                   = List.fold_left add (List.map (@duration T) (buffers evs1)) t0).
  { unfold startTime, ds. rewrite Hevs, buffers_app. cbn [buffers].
    rewrite map_app. cbn [List.map].
    rewrite <- (length_map (@duration T) (buffers evs1)).
    apply cumulative_nth. }
  split; [exact Hstart|].
  assert (Hsplit : evs = (evs1 ++ [EvBuffer now b]) ++ evs2)
    by (rewrite Hevs, <- app_assoc; reflexivity).
  assert (Hf1 : firstOnly (evs1 ++ [EvBuffer now b]) st = true)
    by (apply (firstOnly_prefix _ evs2); rewrite <- Hsplit; exact Hf).
  assert (Hno1 : noUnderrun (evs1 ++ [EvBuffer now b]) st = true).
  { rewrite Hsplit, noUnderrun_app in Hno. apply andb_true_iff in Hno.
    apply Hno. }
  destruct (run_gapless _ st Hf1 Hno1) as [_ Hc1].
  rewrite Hc1, buffers_app, map_app, fold_left_app. cbn [buffers List.map List.fold_left].
  rewrite Hstart. unfold t0. rewrite Hevs.
  now rewrite (firstCursor_prefix evs1 evs2).
Qed.

Lemma gapless_schedule_witness :
  let evs := [EvBuffer 0%float (exampleBufferOnDoubles 480); EvTimer;
              EvBuffer 0.5%float (exampleBufferOnDoubles 960);
              EvBuffer 1%float (exampleBufferOnDoubles 240)] in
  let ds := List.map (@duration float) (buffers evs) in
  let t0 := firstCursor evs exampleStateOnDoubles in
  started (run evs exampleStateOnDoubles)
  = started exampleStateOnDoubles
    ++ List.combine (cumulative t0 ds) (buffers evs)
  /\ nextStartTime (run evs exampleStateOnDoubles) = List.fold_left add ds t0
  /\ (forall evs1 now audioBuffer evs2,
        evs = evs1 ++ EvBuffer now audioBuffer :: evs2 ->
        let startTime := List.nth (List.length (buffers evs1))
                           (cumulative t0 ds) zero in
        startTime
        = List.fold_left add (List.map (@duration float) (buffers evs1)) t0
        /\ nextStartTime
             (run (evs1 ++ [EvBuffer now audioBuffer]) exampleStateOnDoubles)
           = add startTime (duration audioBuffer)).
Proof.
  apply (@gapless_schedule float FloatOps).
  - vm_compute. reflexivity.
  - vm_compute. reflexivity.
Defined.

(** The same run on doubles: the start times are the sums the program
    computes. *)
Example gapless_on_doubles :
  let evs := [EvBuffer 0%float (exampleBufferOnDoubles 480); EvTimer;
              EvBuffer 0.5%float (exampleBufferOnDoubles 960);
              EvBuffer 1%float (exampleBufferOnDoubles 240)] in
  let ds := List.map (@duration float) (buffers evs) in
  noUnderrun evs exampleStateOnDoubles = true
  /\ List.map fst (started (run evs exampleStateOnDoubles))
     = cumulative 1%float ds
  /\ nextStartTime (run evs exampleStateOnDoubles)
     = List.fold_left PrimFloat.add ds 1%float
  /\ playbackState (run evs exampleStateOnDoubles) = playing.
Proof. vm_compute. repeat split. Qed.

(** An underrun on doubles: the cursor 1.03 is behind the clock at 2. *)
Example underrun_on_doubles :
  let evs := [EvBuffer 0%float (exampleBufferOnDoubles 480); EvTimer;
              EvBuffer 2%float (exampleBufferOnDoubles 960)] in
  List.map fst (started (run evs exampleStateOnDoubles))
  = [1%float; PrimFloat.add 2%float lit_0_1]
  /\ playbackState (run evs exampleStateOnDoubles) = loading.
Proof. vm_compute. repeat split. Qed.

Section CursorFacts.

Context {T : Type} {O : Ops T} {L : OrderLaws T} {S : SumLaws T}.

Lemma leb_refl_nonneg (a : T) : leb zero a = true -> leb a a = true.
Proof. apply leb_refl_r. Qed.

(** A buffer is never started before the clock's current time. *)
Lemma start_not_in_the_past now (st : State T) :
  leb zero now = true ->
  le now (nextStartTime (underrunStep now (firstBufferStep now st))).
Proof.
  intros H. unfold underrunStep.
  destruct (ltb (nextStartTime (firstBufferStep now st)) now) eqn:E.
  - cbn. apply leb_ltb. apply add_advances; [exact H | apply lit_0_1_nonneg].
  - exact E.
Qed.

(** When the cursor is a number that is not negative, the start time is
    the clock's time or a later one, and not before the cursor. *)
Lemma start_time_bounds now (st : State T) :
  leb zero now = true ->
  leb zero (nextStartTime st) = true ->
  let startTime := nextStartTime (underrunStep now (firstBufferStep now st)) in
  leb now startTime = true /\ leb (nextStartTime st) startTime = true.
Proof.
  intros H0 Hc startTime. subst startTime.
  destruct (eqb (nextStartTime st) zero) eqn:E0.
  - pose proof (firstBufferStep_first now st E0) as Hf.
    assert (Hb : leb now (add now bufferTime) = true)
      by (apply add_advances; [exact H0 | apply one_nonneg]).
    assert (Hu : ltb (nextStartTime (firstBufferStep now st)) now = false)
      by (rewrite Hf; apply leb_ltb; exact Hb).
    rewrite (underrunStep_not_taken _ _ Hu), Hf.
    split; [exact Hb|].
    rewrite (eqb_zero_leb _ _ E0).
    apply leb_trans with now; assumption.
  - rewrite (firstBufferStep_not_first _ _ E0).
    assert (Hr : leb now (add now lit_0_1) = true)
      by (apply add_advances; [exact H0 | apply lit_0_1_nonneg]).
    destruct (ltb (nextStartTime st) now) eqn:Eu.
    + destruct (underrunStep_taken now st Eu) as [-> _].
      split; [exact Hr|].
      apply leb_trans with now; [apply ltb_leb; exact Eu | exact Hr].
    + rewrite (underrunStep_not_taken _ _ Eu).
      split; [|apply leb_refl_nonneg; exact Hc].
      apply leb_total; [| |exact Eu]; apply leb_refl_nonneg; assumption.
Qed.

(** The cursor does not move backwards when a buffer is scheduled. *)
Lemma scheduleBuffer_advances now (b : AudioBuffer T) (st : State T) :
  leb zero now = true ->
  leb zero (nextStartTime st) = true ->
  leb zero (duration b) = true ->
  leb (nextStartTime st) (nextStartTime (scheduleBuffer now b st)) = true.
Proof.
  intros H0 Hc Hd. rewrite scheduleBuffer_cursor.
  destruct (start_time_bounds now st H0 Hc) as [Hn Hs].
  apply leb_trans
    with (nextStartTime (underrunStep now (firstBufferStep now st)));
    [exact Hs|].
  apply add_advances; [|exact Hd].
  apply leb_trans with now; assumption.
Qed.

(** Over a run the cursor stays where it is or moves forwards. *)
Lemma run_advances evs : forall st : State T,
  leb zero (nextStartTime st) = true ->
  nonNegative evs = true ->
  leb (nextStartTime st) (nextStartTime (run evs st)) = true.
Proof.
  induction evs as [|[now b|] evs IH]; intros st Hc H; cbn [run step].
  - apply leb_refl_nonneg. exact Hc.
  - cbn [nonNegative] in H. apply andb_true_iff in H.
    destruct H as [H1 H2]. apply andb_true_iff in H1.
    destruct H1 as [H0 Hd].
    pose proof (scheduleBuffer_advances now b st H0 Hc Hd) as Hs.
    apply leb_trans with (nextStartTime (scheduleBuffer now b st));
      [exact Hs|].
    apply IH; [|exact H2].
    apply leb_trans with (nextStartTime st); assumption.
  - cbn [nonNegative] in H. simpl in H.
    destruct (fireTimer_schedule st) as [Hf _]. rewrite <- Hf.
    apply IH; [rewrite Hf; exact Hc | exact H].
Qed.

End CursorFacts.

(** C2.  Underrun recovery.  When the scheduling code runs with a cursor
    that is not 0 and is behind the clock, the playback state becomes loading
    and the cursor is reset to the clock's time plus 0.1 before the buffer is
    started.  Every buffer is started at that reset time or at a time the
    program's test found not behind the clock; so, the clock's time not
    being negative, no buffer is started before the clock's time, and with
    a cursor that is not negative every start time is the clock's time or
    later.  And the cursor never decreases, over one scheduled buffer and
    over any run of scheduled buffers and warm-up timeouts, when the clock
    readings, the cursor at the start and the durations of the buffers are
    not negative.  This holds of the doubles of the program, whose order
    and sums satisfy the laws used. *)
Theorem underrun_recovery (T : Type) (O : Ops T) (L : OrderLaws T)
    (S : SumLaws T) (now : T) (audioBuffer : AudioBuffer T) (st : State T)
    (evs : list (@Event T)) :
  let st' := scheduleBuffer now audioBuffer st in
  let startTime := nextStartTime (underrunStep now (firstBufferStep now st)) in
  (eqb (nextStartTime st) zero = false ->
   ltb (nextStartTime st) now = true ->
   playbackState st' = loading /\
   startTime = add now lit_0_1 /\
   started st' = started st ++ [(add now lit_0_1, audioBuffer)] /\
   nextStartTime st' = add (add now lit_0_1) (duration audioBuffer))
  /\ started st' = started st ++ [(startTime, audioBuffer)]
  /\ (startTime = add now lit_0_1 \/ ltb startTime now = false)
  /\ (leb zero now = true -> le now startTime)
  /\ (leb zero now = true -> leb zero (nextStartTime st) = true ->
      leb now startTime = true)
  /\ (leb zero now = true -> leb zero (nextStartTime st) = true ->
      leb zero (duration audioBuffer) = true ->
      leb (nextStartTime st) (nextStartTime st') = true)
  /\ (leb zero (nextStartTime st) = true -> nonNegative evs = true ->
      leb (nextStartTime st) (nextStartTime (run evs st)) = true).
Proof.
  intros st' startTime.
  split; [|split; [|split; [|split; [|split; [|split]]]]].
  - intros E0 Eu. repeat split.
    + apply playbackState_scheduleBuffer_taken. unfold underrunTaken.
      now rewrite firstBufferStep_not_first.
    + unfold startTime. rewrite firstBufferStep_not_first by assumption.
      now apply underrunStep_taken.
    + unfold st'. rewrite scheduleBuffer_started.
      rewrite firstBufferStep_not_first by assumption.
      now destruct (underrunStep_taken now st) as [-> _].
    + unfold st'. rewrite scheduleBuffer_cursor.
      rewrite firstBufferStep_not_first by assumption.
      now destruct (underrunStep_taken now st) as [-> _].
  - apply scheduleBuffer_started.
  - apply start_time_cases.
  - apply start_not_in_the_past.
  - intros H0 Hc. apply (start_time_bounds now st H0 Hc).
  - apply scheduleBuffer_advances.
  - apply run_advances.
Qed.

Lemma underrun_recovery_witness :
  let st := set_nextStartTime 5%float
              (set_playbackState playing exampleStateOnDoubles) in
  let st' := scheduleBuffer 7%float (exampleBufferOnDoubles 480) st in
  playbackState st' = loading
  /\ started st'
     = [(PrimFloat.add 7%float lit_0_1, exampleBufferOnDoubles 480)]
  /\ PrimFloat.leb 7%float (PrimFloat.add 7%float lit_0_1) = true
  /\ PrimFloat.leb (nextStartTime st) (nextStartTime st') = true
  /\ PrimFloat.leb (nextStartTime st)
       (nextStartTime
          (run [EvTimer; EvBuffer 8%float (exampleBufferOnDoubles 960)] st))
     = true.
Proof.
  intros st st'.
  destruct (@underrun_recovery float FloatOps DoubleLaws DoubleSums 7%float
              (exampleBufferOnDoubles 480) st
              [EvTimer; EvBuffer 8%float (exampleBufferOnDoubles 960)])
    as (H1 & _ & _ & _ & H5 & H6 & H7).
  destruct H1 as (A1 & A2 & A3 & A4); [reflexivity | reflexivity |].
  split; [exact A1|]. split; [exact A3|].
  split; [exact (H5 eq_refl eq_refl)|].
  split; [exact (H6 eq_refl eq_refl eq_refl) | exact (H7 eq_refl eq_refl)].
Defined.

(** Computes the fields of updated states; for a state given by its fields. *)
Ltac unfold_updates :=
  lazy beta iota match zeta delta
      [showToast call
       set_playbackState set_session set_connectionError set_nextStartTime
       set_sessionSampleRate set_sessionNumChannels set_filteredPrompts
       set_contextState set_gainValue set_gainAutomation set_created
       set_started set_timers set_toasts set_sent
       playbackState session connectionError nextStartTime sessionSampleRate
       sessionNumChannels filteredPrompts currentBpm settingsControllerEl
       audioContext contextState gainValue gainAutomation created started
       timers toasts sent].

(** ** The message handler *)

Section HandlerFacts.

Context {T : Type} {O : Ops T}.

Lemma sameSchedule_refl (st : State T) : sameSchedule st st.
Proof. unfold sameSchedule. repeat split. Qed.

Lemma sameSchedule_trans (a b c : State T) :
  sameSchedule a b -> sameSchedule b c -> sameSchedule a c.
Proof.
  unfold sameSchedule.
  intros (A1 & A2 & A3 & A4 & A5 & A6 & A7) (B1 & B2 & B3 & B4 & B5 & B6 & B7).
  repeat split; congruence.
Qed.

Lemma sendCurrentBpmToSession_idle o (st : State T) :
  idle st ->
  idle (sendCurrentBpmToSession o st) /\
  sameSchedule st (sendCurrentBpmToSession o st).
Proof.
  intros Hidle. unfold sendCurrentBpmToSession.
  destruct (session st) as [s|]; [|split; [exact Hidle | apply sameSchedule_refl]].
  destruct (currentBpm st); [|split; [exact Hidle | apply sameSchedule_refl]].
  destruct (has_setBpm s); [|split; [exact Hidle | apply sameSchedule_refl]].
  destruct o; (split; [| unfold sameSchedule; repeat split]);
    try exact Hidle; left; reflexivity.
Qed.

Lemma handleSettingsChanged_idle (st : State T) :
  idle st ->
  idle (handleSettingsChanged st) /\
  sameSchedule st (handleSettingsChanged st).
Proof.
  intros Hidle. unfold handleSettingsChanged.
  destruct (session st); [|split; [exact Hidle | apply sameSchedule_refl]].
  destruct (negb (connectionError st));
    (split; [exact Hidle | unfold sameSchedule; repeat split]).
Qed.

Lemma onSetupComplete_idle env sc (st : State T) :
  idle st ->
  idle (onSetupComplete env sc st) /\
  sameSchedule st (onSetupComplete env sc st).
Proof.
  intros Hidle. unfold onSetupComplete.
  set (st1 := set_connectionError false st).
  set (st2 := match sampleRateHertz sc with
              | Some r => if eqb r zero then st1 else set_sessionSampleRate r st1
              | None => st1
              end).
  set (st3 := match setupChannels sc with
              | Some c => if (c =? 0)%Z then st2 else set_sessionNumChannels c st2
              | None => st2
              end).
  assert (H1 : idle st1 /\ sameSchedule st st1)
    by (split; [exact Hidle | unfold sameSchedule; repeat split]).
  assert (H2 : idle st2 /\ sameSchedule st st2).
  { unfold st2. destruct (sampleRateHertz sc) as [r|]; [|exact H1].
    destruct (eqb r zero); [exact H1|].
    destruct H1 as [I1 S1]. split; [exact I1|].
    apply sameSchedule_trans with st1; [exact S1|].
    unfold sameSchedule; repeat split. }
  assert (H3 : idle st3 /\ sameSchedule st st3).
  { unfold st3. destruct (setupChannels sc) as [c|]; [|exact H2].
    destruct (c =? 0)%Z; [exact H2|].
    destruct H2 as [I2 S2]. split; [exact I2|].
    apply sameSchedule_trans with st2; [exact S2|].
    unfold sameSchedule; repeat split. }
  destruct H3 as [I3 S3].
  destruct (sendCurrentBpmToSession_idle (setBpmOutcome env) I3) as [I4 S4].
  set (st4 := sendCurrentBpmToSession (setBpmOutcome env) st3) in *.
  assert (S04 : sameSchedule st st4)
    by (apply sameSchedule_trans with st3; assumption).
  destruct (settingsControllerEl st4); [|split; assumption].
  destruct (session st4); [|split; assumption].
  destruct (handleSettingsChanged_idle I4) as [I5 S5].
  split; [exact I5|]. apply sameSchedule_trans with st4; assumption.
Qed.

Lemma onFilteredPrompt_idle fp (st : State T) :
  idle st ->
  idle (onFilteredPrompt fp st) /\ sameSchedule st (onFilteredPrompt fp st).
Proof.
  intros Hidle. unfold onFilteredPrompt.
  destruct (mem_string (text fp) (filteredPrompts st));
    (split; [exact Hidle | unfold sameSchedule; repeat split]).
Qed.

Lemma onAudioChunks_idle env chunks (st : State T) :
  idle st -> onAudioChunks env chunks st = st.
Proof.
  intros Hidle. unfold onAudioChunks.
  destruct chunks as [[|[[d]|] rest]|]; try reflexivity.
  destruct d as [| | | | [|c cs] |]; try reflexivity.
  destruct Hidle as [-> | ->]; reflexivity.
Qed.

(** A chunk that arrives while playback is loading or playing, decodes to
    a buffer that is not the minimal one, with the context running, is
    scheduled by lines 711-724. *)
Lemma onmessage_schedules env c cs rest (st : State T) bytes audioBuffer :
  playbackState st = loading \/ playbackState st = playing ->
  decode (JString (c :: cs)) = Ok bytes ->
  elems bytes <> [] ->
  decodeAudioData bytes (audioContext st) (sessionSampleRate st)
    (sessionNumChannels st) = Ok audioBuffer ->
  isMinimalBuffer audioBuffer (sessionSampleRate st) = false ->
  contextState st = running ->
  onmessage env
    {| setupComplete := None; filteredPrompt := None;
       audioChunks := Some (Some {| data := JString (c :: cs) |} :: rest) |}
    st
  = scheduleBuffer (currentTime env) audioBuffer
      (set_created (created st ++ [audioBuffer]) st).
Proof.
  intros Hplay Hdec Hne Hbuf Hmin Hrun.
  unfold onmessage, onAudioChunks.
  cbn [setupComplete filteredPrompt audioChunks].
  unfold playChunk. rewrite Hdec.
  destruct (elems bytes) as [|b0 bs] eqn:Eb; [contradiction|].
  cbn [List.length Nat.eqb]. rewrite Hbuf, Hmin.
  replace (contextState (set_created (created st ++ [audioBuffer]) st))
    with running by (symmetry; exact Hrun).
  destruct Hplay as [-> | ->]; reflexivity.
Qed.

End HandlerFacts.

(** C7.  A message that arrives while playback is stopped or paused has no
    scheduling effect: the handler creates and starts no source, leaves the
    cursor, the timeouts, the context and the gain as they are, and ends in
    the state it would reach had the message carried no audio chunk, so
    nothing of the chunk is kept for later. *)
Theorem chunks_discarded_when_idle (T : Type) (O : Ops T)
    (env : Env T) (e : ServerMessage T) (st : State T) :
  playbackState st = stopped \/ playbackState st = paused ->
  let st' := onmessage env e st in
  created st' = created st /\
  started st' = started st /\
  nextStartTime st' = nextStartTime st /\
  timers st' = timers st /\
  sameSchedule st st' /\
  st' = onmessage env (withoutAudio e) st /\
  (setupComplete e = None -> filteredPrompt e = None -> st' = st).
Proof.
  intros Hidle st'. fold (idle st) in Hidle.
  unfold st', onmessage. cbn [withoutAudio setupComplete filteredPrompt audioChunks].
  set (st1 := match setupComplete e with
              | Some sc => onSetupComplete env sc st
              | None => st
              end).
  set (st2 := match filteredPrompt e with
              | Some fp => onFilteredPrompt fp st1
              | None => st1
              end).
  assert (H1 : idle st1 /\ sameSchedule st st1).
  { unfold st1. destruct (setupComplete e) as [sc|].
    - apply onSetupComplete_idle. exact Hidle.
    - split; [exact Hidle | apply sameSchedule_refl]. }
  assert (H2 : idle st2 /\ sameSchedule st st2).
  { unfold st2. destruct H1 as [I1 S1].
    destruct (filteredPrompt e) as [fp|]; [|split; assumption].
    destruct (onFilteredPrompt_idle fp I1) as [I2 S2].
    split; [exact I2|]. apply sameSchedule_trans with st1; assumption. }
  destruct H2 as [I2 S2].
  rewrite (onAudioChunks_idle env (audioChunks e) I2).
  pose proof S2 as (C1 & C2 & C3 & C4 & _).
  repeat split; try assumption; try apply S2.
  intros Hs Hf. unfold st2, st1. now rewrite Hs, Hf.
Qed.

Lemma chunks_discarded_when_idle_witness :
  let st := set_nextStartTime 3%Q (set_playbackState paused exampleState) in
  let e := {| setupComplete := None; filteredPrompt := None;
              audioChunks := Some [Some {| data := JString (js "AACAAAEA/38=") |}] |} in
  let env := {| currentTime := 5%Q; setBpmOutcome := Returns;
                resumeSucceeds := true |} in
  let st' := onmessage env e st in
  created st' = created st /\
  started st' = started st /\
  nextStartTime st' = nextStartTime st /\
  timers st' = timers st /\
  sameSchedule st st' /\
  st' = onmessage env (withoutAudio e) st /\
  (setupComplete e = None -> filteredPrompt e = None -> st' = st).
Proof.
  intros st e env.
  apply (@chunks_discarded_when_idle Q QOps env e st).
  right. reflexivity.
Defined.

(** The same message while playback is loading is scheduled. *)
Example chunk_scheduled_when_loading :
  let e := {| setupComplete := None; filteredPrompt := None;
              audioChunks := Some [Some {| data := JString (js "AACAAAEA/38=") |}] |} in
  let env := {| currentTime := 5%Q; setBpmOutcome := Returns;
                resumeSucceeds := true |} in
  let st' := onmessage (T := Q) env e exampleState in
  List.map fst (started st') = [6%Q] /\
  nextStartTime st' = (6 + 2 / 48000)%Q /\
  List.length (created st') = 1%nat /\
  timers st' = [1000%Q].
Proof. vm_compute. repeat split. Qed.

(** ** [stop] and [pause] *)

Section StopFacts.

Context {T : Type} {O : Ops T}.

Lemma resetAudioPipelineToStopped_session now (st : State T) :
  session (resetAudioPipelineToStopped now st) = session st /\
  connectionError (resetAudioPipelineToStopped now st) = connectionError st /\
  playbackState (resetAudioPipelineToStopped now st) = playbackState st /\
  nextStartTime (resetAudioPipelineToStopped now st) = zero.
Proof.
  unfold resetAudioPipelineToStopped.
  destruct (contextState st); repeat split.
Qed.

End StopFacts.

(** C8, as the code has it.  [stop], from any state, leaves the playback
    state stopped and resets the scheduler: the cursor is 0 and the output
    gain goes to zero, by a ramp ending 0.1 s after the clock's time when the
    context is running and by setting the gain's value otherwise.  The
    session is asked to stop when there is one, and its handle and the
    connection-error flag are kept as they were. *)
Theorem stop_postcondition (T : Type) (O : Ops T)
    (o : Outcome) (now : T) (st : State T) :
  let st' := stop o now st in
  playbackState st' = stopped /\
  nextStartTime st' = zero /\
  match contextState st with
  | running =>
      gainAutomation st'
      = gainAutomation st
        ++ [SetValueAtTime (gainValue st) now;
            LinearRampToValueAtTime zero (add now lit_0_1)]
  | _ => gainValue st' = zero
  end /\
  session st' = session st /\
  connectionError st' = connectionError st /\
  sent st' = match session st with
             | Some _ => sent st ++ [CallStop]
             | None => sent st
             end.
Proof.
  destruct st as [ps [s|] ce nst sr nc fp bpm sce ctx [| |] gv ga cr sta tm ts sn];
    unfold stop, resetAudioPipelineToStopped; unfold_updates;
    repeat split; reflexivity.
Qed.

(** C8 as stated fails: after [stop] the session handle is still there. *)
Lemma stop_keeps_session :
  session (stop Returns 4%Q (set_playbackState playing exampleState))
  = Some {| has_setBpm := true |}
  /\ session (stop Returns 4%Q (set_playbackState playing exampleState))
     <> None.
Proof. split; [reflexivity | discriminate]. Qed.

(** [pause] keeps the session too, unless [session.pause()] throws the
    error of a closed session. *)
Lemma pause_postcondition (T : Type) (O : Ops T)
    (o : Outcome) (now : T) (st : State T) :
  playbackState (pause o now st) = paused /\
  nextStartTime (pause o now st) = zero /\
  (o <> ThrowsSessionLost -> session (pause o now st) = session st).
Proof.
  destruct st as [ps [s|] ce nst sr nc fp bpm sce ctx [| |] gv ga cr sta tm ts sn];
    destruct o; unfold pause, resetAudioPipelineToStopped; unfold_updates;
    repeat split; try reflexivity; intros H; congruence.
Qed.

(** ** The stored prompts *)

Section PromptFacts.

Import Prompts PromptSpec.
Local Open Scope string_scope.

Lemma entries_spec arr : forall pairs,
  entries arr = Ok pairs ->
  forall k v, In (k, v) pairs -> In v arr /\ get v "promptId" = Ok k.
Proof.
  induction arr as [|p arr IH]; intros pairs H k v Hin.
  - injection H as <-. destruct Hin.
  - cbn [entries] in H. unfold bind in H.
    destruct (get p "promptId") as [kp|] eqn:Ek; [|discriminate].
    destruct (entries arr) as [rest|] eqn:Er; [|discriminate].
    injection H as <-. destruct Hin as [Heq | Hin].
    + injection Heq as <- <-. split; [left; reflexivity | exact Ek].
    + destruct (IH rest eq_refl k v Hin) as [H1 H2].
      split; [right; exact H1 | exact H2].
Qed.

Lemma same_key_string_l k id :
  same_key k (Some (JsonStr id)) = true -> k = Some (JsonStr id).
Proof.
  destruct k as [[| | | s | |]|]; simpl; try discriminate.
  intros H. apply String.eqb_eq in H. now subst.
Qed.

Lemma same_key_string_r k id :
  same_key (Some (JsonStr id)) k = true -> k = Some (JsonStr id).
Proof.
  destruct k as [[| | | s | |]|]; simpl; try discriminate.
  intros H. apply String.eqb_eq in H. now subst.
Qed.

Lemma map_set_filed arr m k v :
  filed arr m -> In v arr -> get v "promptId" = Ok k ->
  filed arr (map_set k v m).
Proof.
  intros Hm Hv Hk. induction m as [|[k' v'] m IH]; cbn [map_set].
  - intros k1 v1 [Heq | []]. injection Heq as <- <-.
    split; [exact Hv|]. intros id ->. exact Hk.
  - destruct (same_key k' k) eqn:E.
    + intros k1 v1 [Heq | Hin].
      * injection Heq as <- <-. split; [exact Hv|].
        intros id ->. apply same_key_string_r in E. now subst k.
      * apply Hm. right. exact Hin.
    + intros k1 v1 [Heq | Hin].
      * apply Hm. left. exact Heq.
      * apply IH; [|exact Hin].
        intros k2 v2 H2. apply Hm. right. exact H2.
Qed.

Lemma new_Map_filed arr pairs :
  (forall k v, In (k, v) pairs -> In v arr /\ get v "promptId" = Ok k) ->
  filed arr (new_Map pairs).
Proof.
  unfold new_Map.
  assert (H : forall m, filed arr m ->
              (forall k v, In (k, v) pairs ->
                           In v arr /\ get v "promptId" = Ok k) ->
              filed arr
                (fold_left (fun m kv => map_set (fst kv) (snd kv) m) pairs m)).
  { induction pairs as [|[k v] pairs IH]; intros m Hm Hp; [exact Hm|].
    cbn [fold_left fst snd]. apply IH.
    - destruct (Hp k v (or_introl eq_refl)) as [H1 H2].
      apply map_set_filed; assumption.
    - intros k1 v1 H1. apply Hp. right. exact H1. }
  apply H. intros k v [].
Qed.

Lemma map_delete_subset k m : forall k1 v1,
  In (k1, v1) (map_delete k m) -> In (k1, v1) m.
Proof.
  induction m as [|[k' v'] m IH]; intros k1 v1 H; [exact H|].
  cbn [map_delete] in H. destruct (same_key k' k).
  - right. exact H.
  - destruct H as [H | H]; [left; exact H | right; apply IH; exact H].
Qed.

Lemma storedPromptsMap_filed arr m :
  storedPromptsMap arr = Ok m -> filed arr m.
Proof.
  unfold storedPromptsMap, bind.
  destruct (entries arr) as [pairs|] eqn:E; [|discriminate].
  intros H. injection H as <-.
  intros k v Hin. apply map_delete_subset in Hin.
  revert k v Hin. apply new_Map_filed. apply entries_spec. exact E.
Qed.

Lemma map_get_In k m v :
  map_get k m = Some v -> exists k', In (k', v) m /\ same_key k' k = true.
Proof.
  induction m as [|[k' v'] m IH]; [discriminate|].
  cbn [map_get]. destruct (same_key k' k) eqn:E.
  - intros H. injection H as <-. exists k'. split; [left; reflexivity | exact E].
  - intros H. destruct (IH H) as (k1 & H1 & H2).
    exists k1. split; [right; exact H1 | exact H2].
Qed.

(** The record found under a prompt id is an object of the stored list
    with that [promptId]. *)
Lemma stored_record_is_object arr m id p :
  filed arr m -> map_get (Some (JsonStr id)) m = Some p ->
  In p arr /\
  exists props, p = JsonObj props /\ assoc "promptId" props = Some (JsonStr id).
Proof.
  intros Hm Hget. destruct (map_get_In _ _ Hget) as (k' & Hin & Hk).
  apply same_key_string_l in Hk. subst k'.
  destruct (Hm _ _ Hin) as [Harr Hid]. split; [exact Harr|].
  specialize (Hid id eq_refl).
  destruct p as [| | | | |props]; try discriminate.
  exists props. split; [reflexivity|]. now injection Hid.
Qed.

Lemma mergePrompt_object d props :
  mergePrompt d (JsonObj props) = Ok (merged d (JsonObj props)).
Proof. reflexivity. Qed.

(** The merge never throws, and gives each default its merged prompt. *)
Lemma mergeAll_spec arr m : filed arr m -> forall defaults,
  exists final,
    mergeAll m defaults = Ok final /\
    forall id,
      assoc id final
      = match assoc id defaults with
        | Some d =>
            Some match map_get (Some (JsonStr id)) m with
                 | Some p => merged d p
                 | None => d
                 end
        | None => None
        end.
Proof.
  intros Hm. induction defaults as [|[id0 d0] defaults IH].
  - exists []. split; reflexivity.
  - destruct IH as (rest & Hrest & Hassoc).
    cbn [mergeAll].
    destruct (map_get (Some (JsonStr id0)) m) as [p|] eqn:Eg.
    + destruct (stored_record_is_object _ Hm Eg) as (_ & props & -> & _).
      cbn [truthy]. rewrite mergePrompt_object. unfold bind. rewrite Hrest.
      eexists. split; [reflexivity|]. intros id. cbn [assoc].
      destruct (String.eqb id0 id) eqn:E.
      * apply String.eqb_eq in E. subst id0. now rewrite Eg.
      * apply Hassoc.
    + unfold bind. rewrite Hrest.
      eexists. split; [reflexivity|]. intros id. cbn [assoc].
      destruct (String.eqb id0 id) eqn:E.
      * apply String.eqb_eq in E. subst id0. now rewrite Eg.
      * apply Hassoc.
Qed.

End PromptFacts.

Section PromptResults.

Import Prompts PromptSpec.
Local Open Scope string_scope.

(** C9, as the code has it.  When the stored list loads, for every prompt
    id that has a default and a stored record, the merged prompt takes
    [text], [weight], [cc] and [categoryKey] from the stored record where it
    defines them, and [sourceType] from the stored record where that is
    truthy; [promptId] and [color] are the default's, [color] whatever the
    stored record holds. *)
Theorem stored_prompt_merge (storedPromptsArray : list Json)
    (defaults : PromptMap) (id : string) (defaultPrompt : Prompt)
    (storedPrompt : Json) :
  assoc id defaults = Some defaultPrompt ->
  storedRecord storedPromptsArray id = Some storedPrompt ->
  exists p : Prompt,
    assoc id (getInitialPrompts (Item (Ok (JsonArr storedPromptsArray))) defaults)
    = Some p /\
    In storedPrompt storedPromptsArray /\
    field storedPrompt "promptId" = Some (JsonStr id) /\
    promptId p = promptId defaultPrompt /\
    color p = color defaultPrompt /\
    text p = if_defined (field storedPrompt "text") (text defaultPrompt) /\
    weight p = if_defined (field storedPrompt "weight") (weight defaultPrompt) /\
    cc p = if_defined (field storedPrompt "cc") (cc defaultPrompt) /\
    categoryKey p
    = if_defined (field storedPrompt "categoryKey") (categoryKey defaultPrompt) /\
    sourceType p
    = or_else (field storedPrompt "sourceType") (sourceType defaultPrompt).
Proof.
  intros Hd Hs. unfold storedRecord in Hs.
  destruct (storedPromptsMap storedPromptsArray) as [m|] eqn:Em;
    [|discriminate].
  pose proof (storedPromptsMap_filed _ Em) as Hm.
  destruct (mergeAll_spec Hm defaults) as (final & Hfinal & Hassoc).
  destruct (stored_record_is_object _ Hm Hs) as (Hin & props & -> & Hid).
  exists (merged defaultPrompt (JsonObj props)).
  split.
  - unfold getInitialPrompts. unfold storedPromptsMap, bind in Em.
    unfold bind.
    destruct (entries storedPromptsArray) as [pairs|]; [|discriminate].
    injection Em as Em. rewrite Em, Hfinal, Hassoc, Hd, Hs. reflexivity.
  - repeat split; try reflexivity; assumption.
Qed.

Lemma stored_prompt_merge_witness :
  exists p : Prompt,
    assoc "prompt-0"
      (getInitialPrompts (Item (Ok (JsonArr [exampleStored])))
         [("prompt-0", examplePrompt)])
    = Some p /\
    In exampleStored [exampleStored] /\
    field exampleStored "promptId" = Some (JsonStr "prompt-0") /\
    promptId p = promptId examplePrompt /\
    color p = color examplePrompt /\
    text p = if_defined (field exampleStored "text") (text examplePrompt) /\
    weight p = if_defined (field exampleStored "weight") (weight examplePrompt) /\
    cc p = if_defined (field exampleStored "cc") (cc examplePrompt) /\
    categoryKey p
    = if_defined (field exampleStored "categoryKey") (categoryKey examplePrompt) /\
    sourceType p
    = or_else (field exampleStored "sourceType") (sourceType examplePrompt).
Proof.
  apply (@stored_prompt_merge [exampleStored] [("prompt-0", examplePrompt)]
           "prompt-0" examplePrompt exampleStored).
  - reflexivity.
  - reflexivity.
Defined.

(** C9 as stated fails.  The merged prompt takes [sourceType] from the
    stored record, which is none of [text], [weight], [cc] and
    [categoryKey]; and when the stored list has a null entry nothing is
    taken from storage, not even the [text] of a record that is there. *)
Lemma merge_takes_sourceType :
  (exists p,
     assoc "prompt-0"
       (getInitialPrompts (Item (Ok (JsonArr [exampleStored])))
          [("prompt-0", examplePrompt)]) = Some p
     /\ sourceType p = JsonStr "button"
     /\ sourceType p <> sourceType examplePrompt)
  /\ (exists p,
        assoc "prompt-0"
          (getInitialPrompts (Item (Ok (JsonArr [exampleStored; JsonNull])))
             [("prompt-0", examplePrompt)]) = Some p
        /\ text p = JsonStr "Bossa Nova"
        /\ text p <> JsonStr "Techno").
Proof.
  split; eexists; (split; [reflexivity|]); split;
    try reflexivity; discriminate.
Qed.

End PromptResults.

(** * Further properties *)

(** ** The builder's exceptions *)

(** X1.  An exception of the context's allocator is the builder's: when
    [createBuffer] throws [e] for the channel count and sample rate, the
    builder throws [e] on every input, the empty one included. *)
Theorem builder_passes_allocator_error (T : Type) (data : Uint8Array)
    (ctx : AudioContext T) (rate : T) (numChannels : Z) (e : Exn) :
  (forall n, createBuffer ctx numChannels n rate = Throw e) ->
  decodeAudioData data ctx rate numChannels = Throw e
  /\ decodeAudioData (new_Uint8Array []) ctx rate numChannels = Throw e.
Proof.
  intros H. split.
  - unfold decodeAudioData.
    destruct (Z.of_nat (List.length (elems data)) =? 0)%Z; [apply H|].
    destruct (_ =? 0)%Z; [apply H|].
    rewrite H. reflexivity.
  - unfold decodeAudioData. cbn. apply H.
Qed.

Lemma builder_passes_allocator_error_witness :
  decodeAudioData (new_Uint8Array [x01; x02; x03; x04])
    (audioContext exampleStateOnDoubles) 48000%float 2%Z
  = Throw NotSupportedError
  /\ decodeAudioData (new_Uint8Array [])
       (audioContext exampleStateOnDoubles) 48000%float 2%Z
     = Throw NotSupportedError.
Proof.
  apply (@builder_passes_allocator_error float
           (new_Uint8Array [x01; x02; x03; x04])
           (audioContext exampleStateOnDoubles) 48000%float 2%Z
           NotSupportedError).
  intros n. reflexivity.
Defined.

(** X2.  Bytes held at an odd offset of their underlying buffer: with at
    least one whole frame among them the builder throws a [RangeError],
    after the buffer was allocated; with less than a frame it returns the
    one silent frame and never looks at the offset. *)
Theorem builder_rejects_odd_offset (T : Type) (data : Uint8Array)
    (ctx : AudioContext T) (rate : T) (numChannels : Z) :
  (1 <= numChannels)%Z ->
  allocates ctx numChannels rate ->
  Nat.even (byteOffset data) = false ->
  let byteLength := Z.of_nat (List.length (elems data)) in
  ((2 * numChannels <= byteLength)%Z ->
   decodeAudioData data ctx rate numChannels = Throw RangeError)
  /\ ((byteLength < 2 * numChannels)%Z ->
      exists d : T,
        decodeAudioData data ctx rate numChannels
        = Ok {| sampleRate := rate; duration := d; length := 1;
                channels := silence (Z.to_nat numChannels) 1 |}).
Proof.
  intros HC Halloc Hodd byteLength. split.
  - intros Hlen.
    assert (Hq : (1 <= frames_of byteLength numChannels)%Z).
    { unfold frames_of. apply Z.div_le_lower_bound; lia. }
    destruct (Halloc _ Hq) as [d Hd].
    eapply (@decodeAudioData_misaligned T data ctx rate numChannels);
      [exact Hodd | fold byteLength; lia | exact Hd].
  - intros Hlen.
    destruct (Halloc 1%Z ltac:(lia)) as [d Hd]. exists d.
    unfold decodeAudioData. fold byteLength.
    destruct (byteLength =? 0)%Z; [exact Hd|].
    replace (byteLength / (2 * numChannels))%Z with 0%Z
      by (symmetry; apply Z.div_small; lia).
    exact Hd.
Qed.

Lemma builder_rejects_odd_offset_witness :
  decodeAudioData {| byteOffset := 1; elems := [x01; x02; x03; x04] |}
    exampleContext 48000%Q 2%Z
  = Throw RangeError.
Proof.
  refine (proj1 (@builder_rejects_odd_offset Q
                   {| byteOffset := 1; elems := [x01; x02; x03; x04] |}
                   exampleContext 48000%Q 2%Z _ _ _) _).
  - lia.
  - apply exampleContext_allocates. lia.
  - reflexivity.
  - cbn. lia.
Defined.

(** ** The encoder *)

(** X3.  Two byte arrays that [encode] turns into the same string hold the
    same bytes. *)
Theorem encode_injective (a b : Uint8Array) :
  encode a = encode b -> elems a = elems b.
Proof.
  unfold encode. rewrite !encode_loop_all.
  destruct (atob_btoa (to_N_is_byte (elems a))) as [Ha Ha'].
  destruct (atob_btoa (to_N_is_byte (elems b))) as [Hb Hb'].
  rewrite Ha, Hb. intros H. injection H as H.
  rewrite H in Ha'. rewrite Ha' in Hb'. injection Hb' as Hb'.
  rewrite <- (map_byte_of_code_to_N (elems a)).
  rewrite <- (map_byte_of_code_to_N (elems b)).
  now rewrite Hb'.
Qed.

Lemma encode_injective_witness :
  elems {| byteOffset := 2; elems := [x01; x02; x03] |}
  = elems (new_Uint8Array [x01; x02; x03]).
Proof.
  apply (@encode_injective {| byteOffset := 2; elems := [x01; x02; x03] |}
           (new_Uint8Array [x01; x02; x03])).
  reflexivity.
Defined.

(** ** What the message handler leaves alone *)

Section MoreHandlerFacts.

Import ComponentSpec.

Context {T : Type} {O : Ops T}.

(** The steps that come before the audio chunks schedule nothing, and
    at most drop the session and stop playback. *)
Lemma quiet_refl (st : State T) : quiet st st.
Proof.
  split; [apply sameSchedule_refl|]. split; left; reflexivity.
Qed.

Lemma quiet_trans (a b c : State T) : quiet a b -> quiet b c -> quiet a c.
Proof.
  intros (A1 & A2 & A3) (B1 & B2 & B3).
  split; [apply sameSchedule_trans with b; assumption|]. split.
  - destruct A2 as [A2 | A2], B2 as [B2 | B2];
      try (left; congruence); right; congruence.
  - destruct A3 as [A3 | A3], B3 as [B3 | B3];
      try (left; congruence); right; congruence.
Qed.

Ltac quiet_step :=
  split; [unfold sameSchedule; repeat split|];
  split; first [left; reflexivity | right; reflexivity].

Lemma sendCurrentBpmToSession_quiet o (st : State T) :
  quiet st (sendCurrentBpmToSession o st).
Proof.
  unfold sendCurrentBpmToSession.
  destruct (session st) as [s|]; [|apply quiet_refl].
  destruct (currentBpm st); [|apply quiet_refl].
  destruct (has_setBpm s); [|apply quiet_refl].
  destruct o; quiet_step.
Qed.

Lemma handleSettingsChanged_quiet (st : State T) :
  quiet st (handleSettingsChanged st).
Proof.
  unfold handleSettingsChanged.
  destruct (session st); [|apply quiet_refl].
  destruct (negb (connectionError st)); [quiet_step | apply quiet_refl].
Qed.

Lemma onSetupComplete_quiet env sc (st : State T) :
  quiet st (onSetupComplete env sc st).
Proof.
  unfold onSetupComplete.
  set (st1 := set_connectionError false st).
  set (st2 := match sampleRateHertz sc with
              | Some r => if eqb r zero then st1 else set_sessionSampleRate r st1
              | None => st1
              end).
  set (st3 := match setupChannels sc with
              | Some c => if (c =? 0)%Z then st2 else set_sessionNumChannels c st2
              | None => st2
              end).
  assert (H1 : quiet st st1) by (unfold st1; quiet_step).
  assert (H2 : quiet st1 st2).
  { unfold st2. destruct (sampleRateHertz sc) as [r|]; [|apply quiet_refl].
    destruct (eqb r zero); [apply quiet_refl | quiet_step]. }
  assert (H3 : quiet st2 st3).
  { unfold st3. destruct (setupChannels sc) as [c|]; [|apply quiet_refl].
    destruct (c =? 0)%Z; [apply quiet_refl | quiet_step]. }
  pose proof (sendCurrentBpmToSession_quiet (setBpmOutcome env) st3) as H4.
  set (st4 := sendCurrentBpmToSession (setBpmOutcome env) st3) in *.
  assert (H04 : quiet st st4).
  { apply quiet_trans with st3; [|exact H4].
    apply quiet_trans with st2; [|exact H3].
    apply quiet_trans with st1; assumption. }
  destruct (settingsControllerEl st4); [|exact H04].
  destruct (session st4); [|exact H04].
  apply quiet_trans with st4; [exact H04|].
  apply handleSettingsChanged_quiet.
Qed.

Lemma onFilteredPrompt_quiet fp (st : State T) :
  quiet st (onFilteredPrompt fp st).
Proof.
  unfold onFilteredPrompt.
  destruct (mem_string (text fp) (filteredPrompts st)); quiet_step.
Qed.

(** The handler's part before the audio chunks. *)
Lemma before_audio env (e : ServerMessage T) (st : State T) :
  let st2 := onmessage env (withoutAudio e) st in
  onmessage env e st = onAudioChunks env (audioChunks e) st2 /\
  quiet st st2.
Proof.
  intros st2. split; [reflexivity|]. subst st2.
  unfold onmessage, withoutAudio, onAudioChunks.
  cbn [setupComplete filteredPrompt audioChunks].
  destruct (setupComplete e) as [sc|]; destruct (filteredPrompt e) as [fp|].
  - apply quiet_trans with (onSetupComplete env sc st);
      [apply onSetupComplete_quiet | apply onFilteredPrompt_quiet].
  - apply onSetupComplete_quiet.
  - apply onFilteredPrompt_quiet.
  - apply quiet_refl.
Qed.

Lemma scheduleBuffer_keeps now b (st : State T) :
  let st' := scheduleBuffer now b st in
  toasts st' = toasts st /\
  session st' = session st /\
  created st' = created st /\
  (playbackState st' = playbackState st \/ playbackState st' = loading) /\
  exists when, started st' = started st ++ [(when, b)].
Proof.
  unfold scheduleBuffer, startStep, underrunStep, firstBufferStep.
  destruct (eqb (nextStartTime st) zero);
    match goal with |- context [ltb ?a now] => destruct (ltb a now) end;
    cbn; repeat split; eauto.
Qed.

(** The ways the [try] block of lines 681-729 ends. *)
Lemma playChunk_cases env s (st : State T) :
  let st' := playChunk env s st in
  st' = st
  \/ st' = showToast ToastPlayError st
  \/ exists b,
       let st1 := set_created (created st ++ [b]) st in
       (st' = showToast ToastPlayError st1
        /\ contextState st = suspended /\ resumeSucceeds env = false)
       \/ st' = scheduleBuffer (currentTime env) b st1
       \/ st' = scheduleBuffer (currentTime env) b
                  (set_contextState running st1).
Proof.
  unfold playChunk.
  destruct (decode (JString s)) as [decodedBytes|]; [|right; left; reflexivity].
  destruct (List.length (elems decodedBytes) =? 0)%nat; [left; reflexivity|].
  destruct (decodeAudioData decodedBytes (audioContext st)
              (sessionSampleRate st) (sessionNumChannels st)) as [b|];
    [|right; left; reflexivity].
  destruct (isMinimalBuffer b (sessionSampleRate st)); [left; reflexivity|].
  right. right. exists b.
  change (contextState (set_created (created st ++ [b]) st))
    with (contextState st).
  destruct (contextState st) eqn:Ec.
  - destruct (resumeSucceeds env) eqn:Er.
    + right. right. reflexivity.
    + left. repeat split.
  - right. left. reflexivity.
  - right. left. reflexivity.
Qed.

Lemma onAudioChunks_cases env chunks (st : State T) :
  onAudioChunks env chunks st = st
  \/ exists s, onAudioChunks env chunks st = playChunk env s st.
Proof.
  unfold onAudioChunks.
  destruct chunks as [[|[[d]|] rest]|]; try (left; reflexivity).
  destruct d as [| | | | [|c cs] |]; try (left; reflexivity).
  destruct (playbackState st); try (left; reflexivity);
    right; exists (c :: cs); reflexivity.
Qed.

Lemma playChunk_move env s (st : State T) :
  let st' := playChunk env s st in
  session st' = session st /\
  (playbackState st' = playbackState st \/ playbackState st' = loading) /\
  (started st' = started st
   \/ exists when b, started st' = started st ++ [(when, b)]).
Proof.
  intros st'. subst st'.
  destruct (playChunk_cases env s st)
    as [-> | [-> | [b [[-> _] | [-> | ->]]]]];
    try (repeat split; left; reflexivity).
  - set (st1 := set_created (created st ++ [b]) st).
    destruct (scheduleBuffer_keeps (currentTime env) b st1)
      as (_ & H2 & _ & H4 & when & H5).
    split; [exact H2|]. split; [exact H4|].
    right. exists when, b. exact H5.
  - set (st1 := set_contextState running
                  (set_created (created st ++ [b]) st)).
    destruct (scheduleBuffer_keeps (currentTime env) b st1)
      as (_ & H2 & _ & H4 & when & H5).
    split; [exact H2|]. split; [exact H4|].
    right. exists when, b. exact H5.
Qed.

End MoreHandlerFacts.

(** X4.  Of the audio chunks of a message the handler plays the first
    only: it ends as on the message cut down to its first chunk, and
    starts one source at most. *)
Theorem one_buffer_per_message (T : Type) (O : Ops T)
    (env : Env T) (e : ServerMessage T) (st : State T) :
  let st' := onmessage env e st in
  st' = onmessage env (ComponentSpec.firstChunkOnly e) st
  /\ (started st' = started st
      \/ exists when audioBuffer,
           started st' = started st ++ [(when, audioBuffer)]).
Proof.
  intros st'. subst st'. split.
  - unfold onmessage, ComponentSpec.firstChunkOnly.
    cbn [setupComplete filteredPrompt audioChunks].
    destruct (audioChunks e) as [[|firstChunk rest]|]; reflexivity.
  - destruct (before_audio env e st) as [-> (S2 & _ & _)].
    set (st2 := onmessage env (withoutAudio e) st) in *.
    destruct S2 as (_ & Hst & _).
    destruct (onAudioChunks_cases env (audioChunks e) st2) as [-> | [s ->]].
    + left. exact Hst.
    + destruct (playChunk_move env s st2) as (_ & _ & [H | (when & b & H)]).
      * left. congruence.
      * right. exists when, b. congruence.
Qed.

(** X5.  The handler never starts or pauses playback, and never makes a
    session: after a message the playback state is playing or paused only
    if it was so before, and a session that was missing is still
    missing. *)
Theorem handler_never_starts_playback (T : Type) (O : Ops T)
    (env : Env T) (e : ServerMessage T) (st : State T) :
  let st' := onmessage env e st in
  (playbackState st' = playing -> playbackState st = playing)
  /\ (playbackState st' = paused -> playbackState st = paused)
  /\ (session st = None -> session st' = None).
Proof.
  intros st'. subst st'.
  destruct (before_audio env e st) as [-> (_ & S2 & P2)].
  set (st2 := onmessage env (withoutAudio e) st) in *.
  assert (H : session (onAudioChunks env (audioChunks e) st2) = session st2
              /\ (playbackState (onAudioChunks env (audioChunks e) st2)
                  = playbackState st2
                  \/ playbackState (onAudioChunks env (audioChunks e) st2)
                     = loading)).
  { destruct (onAudioChunks_cases env (audioChunks e) st2) as [-> | [s ->]].
    - split; [|left]; reflexivity.
    - destruct (playChunk_move env s st2) as (H1 & H2 & _).
      split; assumption. }
  destruct H as [H1 H2]. repeat split.
  - intros Hp. destruct H2 as [H2 | H2]; [|congruence].
    destruct P2 as [P2 | P2]; congruence.
  - intros Hp. destruct H2 as [H2 | H2]; [|congruence].
    destruct P2 as [P2 | P2]; congruence.
  - intros Hn. rewrite H1. destruct S2 as [S2 | S2]; congruence.
Qed.

(** X6.  A chunk whose data decodes to no byte is skipped without a
    word: whatever the playback state, a message that carries it (and no
    setup or filter notice) leaves the whole state as it was.  This is so
    for data that is not a string and for a string that is not valid
    base64. *)
Theorem undecodable_chunk_is_skipped (T : Type) (O : Ops T)
    (env : Env T) (chunkData : JsValue) (rest : list (option AudioChunk))
    (st : State T) :
  decoded_bytes chunkData = [] ->
  onmessage env
    (ComponentSpec.audioMessage (Some {| data := chunkData |} :: rest)) st
  = st.
Proof.
  intros Hd. unfold onmessage, ComponentSpec.audioMessage, onAudioChunks.
  cbn [setupComplete filteredPrompt audioChunks].
  destruct chunkData as [| | | | [|c cs] |]; try reflexivity.
  destruct (playbackState st); try reflexivity.
  - unfold playChunk. unfold decoded_bytes in Hd.
    destruct (atob (c :: cs)) as [binaryString|err] eqn:E.
    + rewrite (@decode_valid _ _ E), Hd. reflexivity.
    + rewrite (@decode_invalid _ _ E). reflexivity.
  - unfold playChunk. unfold decoded_bytes in Hd.
    destruct (atob (c :: cs)) as [binaryString|err] eqn:E.
    + rewrite (@decode_valid _ _ E), Hd. reflexivity.
    + rewrite (@decode_invalid _ _ E). reflexivity.
Qed.

Lemma undecodable_chunk_is_skipped_witness :
  onmessage {| currentTime := 3%Q; setBpmOutcome := Returns;
               resumeSucceeds := true |}
    (ComponentSpec.audioMessage
       [Some {| data := JString (js "not base64!") |}]) exampleState
  = exampleState.
Proof.
  apply (@undecodable_chunk_is_skipped Q QOps).
  reflexivity.
Defined.

(** X7.  With a context that allocates buffers for the session's channel
    count and sample rate, and that resumes when it is suspended, the
    audio part of the handler never shows its error message, whatever the
    chunks hold: the decoder's array is always one the builder can
    read. *)
Theorem no_play_error_when_context_allocates (T : Type) (O : Ops T)
    (env : Env T) (chunks : option (list (option AudioChunk)))
    (st : State T) :
  (1 <= sessionNumChannels st)%Z ->
  allocates (audioContext st) (sessionNumChannels st) (sessionSampleRate st) ->
  (contextState st = suspended -> resumeSucceeds env = true) ->
  toasts (onAudioChunks env chunks st) = toasts st.
Proof.
  intros HC Halloc Hres.
  destruct (onAudioChunks_cases env chunks st) as [-> | [s Hs]];
    [reflexivity|].
  rewrite Hs. clear Hs.
  assert (Hdec : exists bs, decode (JString s) = Ok (new_Uint8Array bs)).
  { destruct (atob s) as [binaryString|err] eqn:E.
    - eexists. exact (@decode_valid _ _ E).
    - eexists. exact (@decode_invalid _ _ E). }
  destruct Hdec as [bs Hdec].
  destruct (@decodeAudioData_returns T bs (audioContext st)
              (sessionSampleRate st) (sessionNumChannels st) HC Halloc)
    as [d Hb].
  unfold playChunk. rewrite Hdec.
  destruct (List.length (elems (new_Uint8Array bs)) =? 0)%nat; [reflexivity|].
  rewrite Hb.
  match goal with
  | |- context [isMinimalBuffer ?b ?r] =>
      set (audioBuffer := b); destruct (isMinimalBuffer audioBuffer r)
  end; [reflexivity|].
  change (contextState (set_created (created st ++ [audioBuffer]) st))
    with (contextState st).
  destruct (contextState st) eqn:Ec.
  - rewrite (Hres eq_refl).
    apply (scheduleBuffer_keeps (currentTime env) audioBuffer
             (set_contextState running
                (set_created (created st ++ [audioBuffer]) st))).
  - apply (scheduleBuffer_keeps (currentTime env) audioBuffer
             (set_created (created st ++ [audioBuffer]) st)).
  - apply (scheduleBuffer_keeps (currentTime env) audioBuffer
             (set_created (created st ++ [audioBuffer]) st)).
Qed.

Lemma no_play_error_when_context_allocates_witness :
  toasts
    (onAudioChunks
       {| currentTime := 3%Q; setBpmOutcome := Returns;
          resumeSucceeds := true |}
       (Some [Some {| data := JString (js "AQIDBAUGBwg=") |}]) exampleState)
  = toasts exampleState.
Proof.
  apply (@no_play_error_when_context_allocates Q QOps).
  - cbn. lia.
  - apply exampleContext_allocates. cbn. lia.
  - intros _. reflexivity.
Defined.

(** ** The connection's callbacks, [pause] and [play] *)

(** Computes the fields of an updated component given by its fields. *)
Ltac unfold_component :=
  lazy beta iota match zeta delta
      [Component.on_player Component.notify Component.set_prompts
       Component.set_storage Component.count_play Component.count_resume
       Component.player Component.prompts Component.storage
       Component.notices Component.playCalls Component.resumeCalls].

(** X8.  After the [onerror] callback, from any state: playback is
    stopped, the session is dropped, the connection is marked as failed,
    the scheduling cursor is 0 and one message was shown.  The prompts,
    the sources already started and the pending warm-up timeouts are as
    they were. *)
Theorem onerror_postcondition (T : Type) (O : Ops T)
    (errorMessage : Component.ErrorMessage) (now : T)
    (c : Component.Component T) :
  let c' := Component.onerror errorMessage now c in
  playbackState (Component.player c') = stopped
  /\ session (Component.player c') = None
  /\ connectionError (Component.player c') = true
  /\ nextStartTime (Component.player c') = zero
  /\ (exists n, Component.notices c' = Component.notices c ++ [n])
  /\ Component.prompts c' = Component.prompts c
  /\ started (Component.player c') = started (Component.player c)
  /\ timers (Component.player c') = timers (Component.player c).
Proof.
  destruct c as [st pr sto nt pc rc].
  destruct st as [ps s ce nst sr nc fp bpm sce ctx [| |] gv ga cr sta tm ts sn];
    destruct errorMessage as [[|] [|]];
    unfold Component.onerror, resetAudioPipelineToStopped;
    cbn [Component.mentionsUnavailable Component.mentionsFailedToFetch];
    unfold_component; unfold_updates;
    repeat split; eauto.
Qed.

(** X9.  After the [onclose] callback, from any state: playback is
    stopped, the session is dropped and the connection is marked as
    failed.  The audio pipeline is reset only if playback was not stopped
    already: from a stopped state the cursor and the gain are left as
    they were. *)
Theorem onclose_postcondition (T : Type) (O : Ops T)
    (code : Z) (button : option PlaybackState) (now : T)
    (c : Component.Component T) :
  let st := Component.player c in
  let st' := Component.player (Component.onclose code button now c) in
  playbackState st' = stopped
  /\ session st' = None
  /\ connectionError st' = true
  /\ (playbackState st <> stopped -> nextStartTime st' = zero)
  /\ (playbackState st = stopped ->
      nextStartTime st' = nextStartTime st
      /\ gainValue st' = gainValue st
      /\ gainAutomation st' = gainAutomation st).
Proof.
  destruct c as [st pr sto nt pc rc].
  destruct st as [ps s ce nst sr nc fp bpm sce ctx [| |] gv ga cr sta tm ts sn];
    destruct ps; destruct button as [[| | |]|];
    unfold Component.onclose, resetAudioPipelineToStopped,
      Component.is_stopped;
    unfold_component; unfold_updates;
    destruct (negb (code =? 1000) && negb (code =? 1005))%Z;
    unfold_component; unfold_updates;
    repeat split; try reflexivity; try discriminate;
    intros H; try (exfalso; apply H; reflexivity); try discriminate.
Qed.

(** X10.  The only message of [onclose] is the one for a close code other
    than 1000 and 1005: on a normal closure it shows nothing, whatever
    the playback state and the play/pause button are, so the message
    'Connection closed. Please restart audio.' is never shown. *)
Theorem onclose_notices (T : Type) (O : Ops T)
    (code : Z) (button : option PlaybackState) (now : T)
    (c : Component.Component T) :
  Component.notices (Component.onclose code button now c)
  = Component.notices c
    ++ (if ComponentSpec.normalClosure code then []
        else [Component.NoticeClosedUnexpectedly]).
Proof.
  destruct c as [st pr sto nt pc rc].
  assert (Hcode : (negb (code =? 1000) && negb (code =? 1005))%Z
                  = negb (ComponentSpec.normalClosure code)).
  { unfold ComponentSpec.normalClosure.
    destruct (code =? 1000)%Z, (code =? 1005)%Z; reflexivity. }
  destruct st as [ps s ce nst sr nc fp bpm sce ctx cs gv ga cr sta tm ts sn];
    destruct ps; destruct button as [[| | |]|];
    unfold Component.onclose, Component.is_stopped;
    unfold_component; unfold_updates;
    rewrite ?Hcode;
    destruct (ComponentSpec.normalClosure code);
    cbn [negb]; unfold resetAudioPipelineToStopped;
    unfold_component; unfold_updates;
    try (destruct cs; unfold_updates; cbn [andb negb];
         unfold_component; rewrite ?app_nil_r; reflexivity);
    cbn [andb negb]; unfold_component; rewrite ?app_nil_r; reflexivity.
Qed.

(** X11.  [pause], from any state: playback is paused, the cursor is 0
    and the gain goes to zero as for a stop.  The session is asked to
    pause when there is one, and is kept unless that call throws the
    error of a closed session.  The connection-error flag, the sources
    already started and the pending warm-up timeouts are untouched. *)
Theorem pause_resets_playback (T : Type) (O : Ops T)
    (o : Outcome) (now : T) (st : State T) :
  let st' := pause o now st in
  playbackState st' = paused
  /\ nextStartTime st' = zero
  /\ match contextState st with
     | running =>
         gainAutomation st'
         = gainAutomation st
           ++ [SetValueAtTime (gainValue st) now;
               LinearRampToValueAtTime zero (add now lit_0_1)]
     | _ => gainValue st' = zero
     end
  /\ session st' = match o with
                   | ThrowsSessionLost => None
                   | _ => session st
                   end
  /\ sent st' = match session st with
                | Some _ => sent st ++ [CallPause]
                | None => sent st
                end
  /\ connectionError st' = connectionError st
  /\ started st' = started st
  /\ timers st' = timers st.
Proof.
  destruct st as [ps [s|] ce nst sr nc fp bpm sce ctx [| |] gv ga cr sta tm ts sn];
    destruct o; unfold pause, resetAudioPipelineToStopped; unfold_updates;
    repeat split; reflexivity.
Qed.

Section PlayFacts.

Import Prompts PromptStorage Component ComponentSpec.

Context {T : Type} {O : Ops T}.

Lemma getPromptsToSend_spec (c : Component T) :
  getPromptsToSend c
  = List.filter (sendable (filteredPrompts (player c))) (values (prompts c)).
Proof. reflexivity. Qed.

Lemma filter_nil_iff {A} (f : A -> bool) l :
  List.filter f l = [] <-> forall x, In x l -> f x = false.
Proof.
  induction l as [|a l IH]; cbn.
  - split; [intros _ x [] | reflexivity].
  - destruct (f a) eqn:E.
    + split; [discriminate|]. intros H.
      specialize (H a (or_introl eq_refl)). congruence.
    + rewrite IH. split.
      * intros H x [<- | Hx]; [exact E | apply H; exact Hx].
      * intros H x Hx. apply H. right. exact Hx.
Qed.

Lemma pause_filteredPrompts o now (st : State T) :
  filteredPrompts (pause o now st) = filteredPrompts st.
Proof.
  unfold pause, resetAudioPipelineToStopped.
  destruct (session st); destruct o; destruct (contextState _); reflexivity.
Qed.

End PlayFacts.

(** X12.  [play] itself neither makes a session nor calls
    [session.play()]; it asks the audio context to resume exactly when a
    prompt is to be sent and there is a session; and when no prompt is to
    be sent it leaves playback paused, with or without a session. *)
Theorem play_guards (T : Type) (O : Ops T) (c : Component.Component T) :
  let c' := Component.play c in
  let active :=
    exists p, In p (PromptStorage.values (Component.prompts c))
              /\ ComponentSpec.sendable
                   (filteredPrompts (Component.player c)) p = true in
  session (Component.player c') = session (Component.player c)
  /\ Component.playCalls c' = Component.playCalls c
  /\ Component.prompts c' = Component.prompts c
  /\ (Component.resumeCalls c' = S (Component.resumeCalls c)
      <-> active /\ session (Component.player c) <> None)
  /\ (~ active -> playbackState (Component.player c') = paused).
Proof.
  intros c' active. subst c'.
  assert (Hact : Component.getPromptsToSend c <> [] <-> active).
  { rewrite getPromptsToSend_spec. unfold active. split.
    - intros H.
      destruct (List.filter _ _) as [|p l] eqn:E; [contradiction|].
      exists p. apply filter_In. rewrite E. left. reflexivity.
    - intros (p & Hin & Hp) H.
      rewrite filter_nil_iff in H. specialize (H p Hin). congruence. }
  unfold Component.play.
  destruct (Component.getPromptsToSend c) as [|p l] eqn:E.
  - split; [reflexivity|]. split; [reflexivity|]. split; [reflexivity|].
    split; [split|].
    + cbn. intros H. exfalso. exact (n_Sn _ H).
    + intros [H _]. exfalso. apply (proj2 Hact H). reflexivity.
    + intros _. reflexivity.
  - assert (Ha : active) by (apply Hact; discriminate).
    destruct (session (Component.player c)) as [s|] eqn:Es.
    + split; [exact Es|]. split; [reflexivity|]. split; [reflexivity|].
      split; [split|].
      * intros _. split; [exact Ha | discriminate].
      * intros _. reflexivity.
      * intros H. contradiction.
    + split; [exact Es|]. split; [reflexivity|]. split; [reflexivity|].
      split; [split|].
      * cbn. intros H. exfalso. exact (n_Sn _ H).
      * intros [_ H]. contradiction.
      * intros H. contradiction.
Qed.

(** X13.  When [session.play()] throws, or the session is gone by the time
    the audio context has resumed, playback ends stopped with the session
    dropped, the cursor at 0 and one message shown; the connection-error
    flag is left as it was. *)
Theorem failed_play_drops_session (T : Type) (O : Ops T)
    (o : Outcome) (now : T) (c : Component.Component T) :
  o <> Returns \/ session (Component.player c) = None ->
  let c' := Component.playResumed o now c in
  playbackState (Component.player c') = stopped
  /\ session (Component.player c') = None
  /\ nextStartTime (Component.player c') = zero
  /\ Component.notices c'
     = Component.notices c ++ [Component.NoticePlayFailed]
  /\ connectionError (Component.player c')
     = connectionError (Component.player c).
Proof.
  intros H.
  destruct c as [st pr sto nt pc rc].
  destruct st as [ps [s|] ce nst sr nc fp bpm sce ctx cs gv ga cr sta tm ts sn];
    destruct o;
    try (destruct H as [H | H]; [contradiction | discriminate]);
    unfold Component.playResumed, resetAudioPipelineToStopped;
    unfold_component; unfold_updates; repeat split; reflexivity.
Qed.

Lemma failed_play_drops_session_witness :
  playbackState
    (Component.player
       (Component.playResumed ThrowsOther 2%Q ComponentSpec.exampleComponent))
  = stopped
  /\ session
       (Component.player
          (Component.playResumed ThrowsOther 2%Q
             ComponentSpec.exampleComponent))
     = None.
Proof.
  destruct (@failed_play_drops_session Q QOps ThrowsOther 2%Q
              ComponentSpec.exampleComponent)
    as (H1 & H2 & _).
  - left. discriminate.
  - split; [exact H1 | exact H2].
Defined.

Section Rebuffering.

Context {T : Type} {O : Ops T}.

(** A buffer scheduled with the cursor at 0 is a first buffer: when the
    underrun test of line 718 is then false, it starts [bufferTime] after
    the clock's time and arms the warm-up timeout. *)
Lemma scheduleBuffer_first now (b : AudioBuffer T) (st : State T) :
  eqb (nextStartTime st) zero = true ->
  ltb (add now bufferTime) now = false ->
  let st' := scheduleBuffer now b st in
  started st' = started st ++ [(add now bufferTime, b)]
  /\ nextStartTime st' = add (add now bufferTime) (duration b)
  /\ timers st' = timers st ++ [mul bufferTime lit_1000]
  /\ playbackState st' = playbackState st.
Proof.
  intros H0 Hu st'. subst st'.
  unfold scheduleBuffer, startStep, underrunStep, firstBufferStep.
  rewrite H0. cbn. rewrite Hu. repeat split.
Qed.

End Rebuffering.

(** X14.  Pausing and playing again starts the buffering anew.  After
    [pause], [play] and the resumption of the audio context, with the
    session alive and a prompt to send, playback is loading; and the next
    buffer scheduled takes the first-buffer branch wherever the cursor
    stood before the pause: when the underrun test that follows is false
    (the clock is not past its own reading plus [bufferTime]), the buffer
    starts [bufferTime] after the clock's time and arms a new warm-up
    timeout.  This holds on whatever numbers the program runs, given that
    0 is equal to itself. *)
Theorem pause_then_play_rebuffers (T : Type) (O : Ops T)
    (o : Outcome) (now0 now1 now : T) (audioBuffer : AudioBuffer T)
    (c : Component.Component T) :
  eqb (zero : T) zero = true ->
  ltb (add now bufferTime) now = false ->
  session (Component.player c) <> None ->
  o <> ThrowsSessionLost ->
  Component.getPromptsToSend c <> [] ->
  let c1 :=
    Component.playResumed Returns now1
      (Component.play (Component.on_player (pause o now0) c)) in
  let st2 := scheduleBuffer now audioBuffer (Component.player c1) in
  playbackState (Component.player c1) = loading
  /\ started st2
     = started (Component.player c) ++ [(add now bufferTime, audioBuffer)]
  /\ nextStartTime st2 = add (add now bufferTime) (duration audioBuffer)
  /\ timers st2 = timers (Component.player c) ++ [mul bufferTime lit_1000]
  /\ playbackState st2 = loading.
Proof.
  intros Hz Hu Hs Ho Hp c1 st2.
  assert (Hc1 : playbackState (Component.player c1) = loading
                /\ nextStartTime (Component.player c1) = zero
                /\ started (Component.player c1)
                   = started (Component.player c)
                /\ timers (Component.player c1)
                   = timers (Component.player c)).
  { subst c1. unfold Component.play.
    replace (Component.getPromptsToSend
               (Component.on_player (pause o now0) c))
      with (Component.getPromptsToSend c)
      by (unfold Component.getPromptsToSend;
          cbn [Component.on_player Component.player Component.prompts];
          now rewrite pause_filteredPrompts).
    destruct (Component.getPromptsToSend c) as [|p l]; [contradiction|].
    destruct c as [st pr sto nt pc rc].
    destruct st as [ps [s|] ce nst sr nc fp bpm sce ctx cs gv ga cr sta tm ts sn];
      [|exfalso; apply Hs; reflexivity].
    destruct o; try (exfalso; apply Ho; reflexivity);
      destruct cs;
      unfold Component.playResumed, pause, resetAudioPipelineToStopped;
      unfold_component; unfold_updates; repeat split; reflexivity. }
  destruct Hc1 as (H1 & H2 & H3 & H4).
  assert (H0 : eqb (nextStartTime (Component.player c1)) zero = true)
    by (rewrite H2; exact Hz).
  destruct (@scheduleBuffer_first T O now audioBuffer _ H0 Hu)
    as (S1 & S2 & S3 & S4).
  subst st2. rewrite S1, S2, S3, S4, H1, H3, H4. repeat split.
Qed.

Lemma pause_then_play_rebuffers_witness :
  started
    (scheduleBuffer 20%float (exampleBufferOnDoubles 480)
       (Component.player
          (Component.playResumed Returns 11%float
             (Component.play
                (Component.on_player (pause Returns 10%float)
                   ComponentSpec.exampleComponentOnDoubles)))))
  = [(PrimFloat.add 20%float 1%float, exampleBufferOnDoubles 480)].
Proof.
  refine (proj1 (proj2 (@pause_then_play_rebuffers float FloatOps
                          Returns 10%float 11%float 20%float
                          (exampleBufferOnDoubles 480)
                          ComponentSpec.exampleComponentOnDoubles
                          _ _ _ _ _))).
  - reflexivity.
  - reflexivity.
  - discriminate.
  - discriminate.
  - discriminate.
Defined.

(** ** Loading and storing the prompts *)

Section StorageFacts.

Import Prompts PromptSpec PromptStorage Component ComponentSpec.
Local Open Scope string_scope.

Lemma mergeAll_keys m : forall defaults final,
  mergeAll m defaults = Ok final ->
  List.map fst final = List.map fst defaults.
Proof.
  induction defaults as [|[id d] defaults IH]; intros final H.
  - injection H as <-. reflexivity.
  - cbn [mergeAll] in H. unfold bind in H.
    destruct (match map_get (Some (JsonStr id)) m with
              | Some storedPrompt =>
                  if truthy (Some storedPrompt)
                  then mergePrompt d storedPrompt
                  else Ok d
              | None => Ok d
              end) as [merged|]; [|discriminate].
    destruct (mergeAll m defaults) as [rest|]; [|discriminate].
    injection H as <-. cbn. f_equal. apply IH. reflexivity.
Qed.

Lemma mergeAll_empty : forall defaults, mergeAll [] defaults = Ok defaults.
Proof.
  induction defaults as [|[id d] defaults IH]; [reflexivity|].
  cbn [mergeAll map_get]. unfold bind. now rewrite IH.
Qed.

Lemma entries_null arr :
  In JsonNull arr -> exists e, entries arr = Throw e.
Proof.
  induction arr as [|p arr IH]; intros H; [destruct H|].
  cbn [entries]. unfold bind.
  destruct (get p "promptId") as [k|e] eqn:Ek; [|exists e; reflexivity].
  destruct H as [-> | H]; [discriminate|].
  destruct (IH H) as [e ->]. exists e. reflexivity.
Qed.

End StorageFacts.

(** X15.  Whatever the stored item holds, the prompts loaded are those of
    the defaults, id by id and in their order: a stored record adds no
    prompt, removes none and moves none. *)
Theorem getInitialPrompts_keeps_default_ids (stored : Prompts.Stored)
    (defaultPromptsMap : Prompts.PromptMap) :
  List.map fst (Prompts.getInitialPrompts stored defaultPromptsMap)
  = List.map fst defaultPromptsMap.
Proof.
  unfold Prompts.getInitialPrompts.
  destruct stored as [|[[| | | |arr|]|]]; try reflexivity.
  unfold bind. destruct (Prompts.entries arr) as [pairs|]; [|reflexivity].
  destruct (Prompts.mergeAll _ defaultPromptsMap) as [final|] eqn:E;
    [|reflexivity].
  exact (mergeAll_keys _ _ E).
Qed.

(** X16.  The defaults are used as they are when no item is stored, when
    the item does not parse, when it parses to something other than an
    array, when the array is empty, and when the array holds a [null]
    among its records, whatever the other records are. *)
Theorem getInitialPrompts_falls_back (defaultPromptsMap : Prompts.PromptMap) :
  Prompts.getInitialPrompts Prompts.NoItem defaultPromptsMap
  = defaultPromptsMap
  /\ (forall e,
        Prompts.getInitialPrompts (Prompts.Item (Throw e)) defaultPromptsMap
        = defaultPromptsMap)
  /\ (forall j,
        (forall arr, j <> Prompts.JsonArr arr) ->
        Prompts.getInitialPrompts (Prompts.Item (Ok j)) defaultPromptsMap
        = defaultPromptsMap)
  /\ Prompts.getInitialPrompts (Prompts.Item (Ok (Prompts.JsonArr [])))
       defaultPromptsMap
     = defaultPromptsMap
  /\ (forall arr,
        In Prompts.JsonNull arr ->
        Prompts.getInitialPrompts (Prompts.Item (Ok (Prompts.JsonArr arr)))
          defaultPromptsMap
        = defaultPromptsMap).
Proof.
  split; [reflexivity|]. split; [reflexivity|]. split; [|split].
  - intros j Hj. destruct j; try reflexivity.
    exfalso. exact (Hj _ eq_refl).
  - unfold Prompts.getInitialPrompts, bind.
    cbn [Prompts.entries Prompts.new_Map fold_left Prompts.map_delete].
    now rewrite mergeAll_empty.
  - intros arr Hnull. unfold Prompts.getInitialPrompts, bind.
    destruct (entries_null arr Hnull) as [e ->]. reflexivity.
Qed.

Section RoundTrip.

Import Prompts PromptSpec PromptStorage Component ComponentSpec.
Local Open Scope string_scope.
Local Open Scope list_scope.

Lemma setStoredPrompts_records ps :
  setStoredPrompts ps = Item (Ok (JsonArr (List.map record (values ps)))).
Proof.
  unfold setStoredPrompts. cbn [reparse]. now rewrite map_map.
Qed.

Lemma entries_records qs : entries (List.map record qs) = Ok (recordPairs qs).
Proof.
  induction qs as [|q qs IH]; [reflexivity|].
  cbn [List.map entries]. unfold bind.
  change (get (record q) "promptId") with (Ok (Some (JsonStr (promptId q)))).
  now rewrite IH.
Qed.

Lemma map_set_fresh k v (m : StoredMap) :
  (forall k' v', In (k', v') m -> same_key k' k = false) ->
  map_set k v m = m ++ [(k, v)].
Proof.
  induction m as [|[k' v'] m IH]; intros H; [reflexivity|].
  cbn [map_set]. rewrite (H k' v' (or_introl eq_refl)).
  cbn. f_equal. apply IH. intros k1 v1 H1. apply (H k1 v1). right. exact H1.
Qed.

Lemma same_key_strings a b :
  same_key (Some (JsonStr a)) (Some (JsonStr b)) = String.eqb a b.
Proof. reflexivity. Qed.

Lemma fold_records qs : forall acc : list Prompt,
  NoDup (List.map promptId (acc ++ qs)) ->
  fold_left (fun m kv => map_set (fst kv) (snd kv) m) (recordPairs qs)
    (recordPairs acc)
  = recordPairs (acc ++ qs).
Proof.
  induction qs as [|q qs IH]; intros acc Hnd.
  - now rewrite app_nil_r.
  - cbn [recordPairs List.map fold_left fst snd].
    rewrite map_set_fresh.
    + change (recordPairs acc ++ [(Some (JsonStr (promptId q)), record q)])
        with (recordPairs acc ++ recordPairs [q]).
      unfold recordPairs at 1 2. rewrite <- map_app.
      change (List.map (fun p => (Some (JsonStr (promptId p)), record p))
                (acc ++ [q]))
        with (recordPairs (acc ++ [q])).
      rewrite IH; rewrite <- app_assoc; [reflexivity | exact Hnd].
    + intros k' v' Hin. unfold recordPairs in Hin.
      apply in_map_iff in Hin. destruct Hin as (q' & Heq & Hq').
      injection Heq as <- _. rewrite same_key_strings.
      apply String.eqb_neq. intros Heq.
      rewrite map_app in Hnd. cbn [List.map] in Hnd.
      apply NoDup_remove_2 in Hnd. apply Hnd.
      apply in_or_app. left. rewrite <- Heq. now apply in_map.
Qed.

Lemma new_Map_records qs :
  NoDup (List.map promptId qs) -> new_Map (recordPairs qs) = recordPairs qs.
Proof. intros H. exact (fold_records qs [] H). Qed.

Lemma map_delete_absent id qs :
  ~ In id (List.map promptId qs) ->
  map_delete (Some (JsonStr id)) (recordPairs qs) = recordPairs qs.
Proof.
  induction qs as [|q qs IH]; intros H; [reflexivity|].
  cbn [recordPairs List.map map_delete]. rewrite same_key_strings.
  replace (String.eqb (promptId q) id) with false.
  - f_equal. apply IH. intros Hin. apply H. right. exact Hin.
  - symmetry. apply String.eqb_neq. intros Heq. apply H. left. exact Heq.
Qed.

Lemma map_get_records id q qs :
  NoDup (List.map promptId qs) -> In q qs -> promptId q = id ->
  map_get (Some (JsonStr id)) (recordPairs qs) = Some (record q).
Proof.
  induction qs as [|q0 qs IH]; intros Hnd Hin Hid; [destruct Hin|].
  cbn [recordPairs List.map map_get]. rewrite same_key_strings.
  cbn [List.map] in Hnd. apply NoDup_cons_iff in Hnd. destruct Hnd as [Hn Hnd].
  destruct Hin as [-> | Hin].
  - rewrite Hid, String.eqb_refl. reflexivity.
  - replace (String.eqb (promptId q0) id) with false.
    + apply IH; assumption.
    + symmetry. apply String.eqb_neq. intros Heq. apply Hn.
      rewrite Heq, <- Hid. now apply in_map.
Qed.

Lemma keyed_ids m : keyed m -> List.map promptId (values m) = List.map fst m.
Proof.
  intros H. unfold values. rewrite map_map.
  apply map_ext_in. intros [k p] Hin. cbn. exact (H k p Hin).
Qed.

Lemma prompts_delete_In id m : forall k p,
  In (k, p) (prompts_delete id m) -> In (k, p) m.
Proof.
  induction m as [|[k0 p0] m IH]; intros k p H; [exact H|].
  cbn [prompts_delete] in H. destruct (String.eqb k0 id).
  - right. exact H.
  - destruct H as [H | H]; [left; exact H | right; apply IH; exact H].
Qed.

Lemma prompts_delete_keys id m :
  NoDup (List.map fst m) ->
  NoDup (List.map fst (prompts_delete id m))
  /\ ~ In id (List.map fst (prompts_delete id m)).
Proof.
  induction m as [|[k0 p0] m IH]; intros H.
  - split; [constructor | intros []].
  - cbn [List.map fst] in H. apply NoDup_cons_iff in H. destruct H as [Hn H].
    cbn [prompts_delete]. destruct (String.eqb k0 id) eqn:E.
    + apply String.eqb_eq in E. subst k0. split; assumption.
    + apply String.eqb_neq in E. destruct (IH H) as [IH1 IH2].
      cbn [List.map fst]. split.
      * constructor; [|exact IH1]. intros Hin. apply Hn.
        apply in_map_iff in Hin. destruct Hin as ([k p] & Hk & Hin).
        cbn in Hk. subst k. apply prompts_delete_In in Hin.
        change k0 with (fst (k0, p)). now apply in_map.
      * intros [Heq | Hin]; [exact (E Heq) | exact (IH2 Hin)].
Qed.

Lemma wellKeyed_delete id m : wellKeyed m -> wellKeyed (prompts_delete id m).
Proof.
  intros [Hnd Hk]. split.
  - apply prompts_delete_keys. exact Hnd.
  - intros k p Hin. apply (Hk k p). now apply prompts_delete_In in Hin.
Qed.

Lemma assoc_In {A} id (m : list (string * A)) v :
  assoc id m = Some v -> In (id, v) m.
Proof.
  induction m as [|[k0 v0] m IH]; [discriminate|].
  cbn [assoc]. destruct (String.eqb k0 id) eqn:E.
  - apply String.eqb_eq in E. subst k0. intros H. injection H as <-.
    left. reflexivity.
  - intros H. right. apply IH. exact H.
Qed.

Lemma assoc_prompts_delete_other id id' m :
  id' <> id -> assoc id' (prompts_delete id m) = assoc id' m.
Proof.
  intros Hne. induction m as [|[k0 p0] m IH]; [reflexivity|].
  cbn [prompts_delete]. destruct (String.eqb k0 id) eqn:E.
  - apply String.eqb_eq in E. subst k0. cbn [assoc].
    replace (String.eqb id id') with false; [reflexivity|].
    symmetry. apply String.eqb_neq. congruence.
  - cbn [assoc]. destruct (String.eqb k0 id'); [reflexivity | exact IH].
Qed.

Lemma assoc_absent {A} id (m : list (string * A)) :
  ~ In id (List.map fst m) -> assoc id m = None.
Proof.
  induction m as [|[k0 v0] m IH]; intros H; [reflexivity|].
  cbn [assoc]. destruct (String.eqb k0 id) eqn:E.
  - apply String.eqb_eq in E. exfalso. apply H. left. exact E.
  - apply IH. intros Hin. apply H. right. exact Hin.
Qed.

Lemma map_delete_records id m :
  keyed m ->
  map_delete (Some (JsonStr id)) (recordPairs (values m))
  = recordPairs (values (prompts_delete id m)).
Proof.
  induction m as [|[k0 p0] m IH]; intros Hk; [reflexivity|].
  pose proof (Hk k0 p0 (or_introl eq_refl)) as E0.
  cbn [prompts_delete]. destruct (String.eqb k0 id) eqn:E;
    cbn [values List.map snd recordPairs map_delete];
    rewrite same_key_strings, E0, E; [reflexivity|].
  f_equal. apply IH. intros k p Hin. apply (Hk k p). right. exact Hin.
Qed.

Lemma map_get_values id m :
  keyed m ->
  map_get (Some (JsonStr id)) (recordPairs (values m))
  = option_map record (assoc id m).
Proof.
  induction m as [|[k0 p0] m IH]; intros Hk; [reflexivity|].
  cbn [values List.map snd recordPairs map_get assoc].
  rewrite same_key_strings, (Hk k0 p0 (or_introl eq_refl)).
  destruct (String.eqb k0 id); [reflexivity|].
  apply IH. intros k p Hin. apply (Hk k p). right. exact Hin.
Qed.

(** What loading finds under a prompt id, once a well-keyed map of
    prompts was stored. *)
Lemma stored_then_loaded ps defaults :
  wellKeyed ps ->
  forall id d,
    assoc id defaults = Some d ->
    assoc id (getInitialPrompts (setStoredPrompts ps) defaults)
    = Some match assoc id (prompts_delete BPM_PROMPT_ID ps) with
           | Some p => merged d (record p)
           | None => d
           end.
Proof.
  intros [Hnd Hk] id d Hd. rewrite setStoredPrompts_records.
  set (arr := List.map record (values ps)).
  assert (Hmap : storedPromptsMap arr
                 = Ok (recordPairs
                         (values (prompts_delete BPM_PROMPT_ID ps)))).
  { unfold storedPromptsMap, arr. rewrite entries_records. unfold bind.
    rewrite new_Map_records by (rewrite (keyed_ids Hk); exact Hnd).
    now rewrite (map_delete_records _ Hk). }
  pose proof (storedPromptsMap_filed _ Hmap) as Hfiled.
  destruct (mergeAll_spec Hfiled defaults) as (final & Hfinal & Hassoc).
  assert (Hget : getInitialPrompts (Item (Ok (JsonArr arr))) defaults = final).
  { unfold storedPromptsMap, bind in Hmap.
    unfold getInitialPrompts, bind.
    destruct (entries arr) as [pairs|]; [|discriminate].
    injection Hmap as Hmap. now rewrite Hmap, Hfinal. }
  rewrite Hget, Hassoc, Hd.
  rewrite map_get_values
    by (intros k p Hin; apply (Hk k p); now apply prompts_delete_In in Hin).
  destruct (assoc id (prompts_delete BPM_PROMPT_ID ps)); reflexivity.
Qed.

End RoundTrip.

(** X17.  What is stored is what the next start loads.  For a map of
    prompts keyed by their ids, stored by the listener of the
    [prompts-changed] event and loaded again over the defaults: a prompt
    whose id has a default comes back with its text, weight, cc and
    category as JSON reads them back, with the colour of the default, and
    with its source type when that is truthy; the BPM prompt, which is
    not stored, comes back as the default of its id, and so does a
    default that had no prompt. *)
Theorem stored_prompts_round_trip (ps defaults : Prompts.PromptMap)
    (id : string) (d : Prompts.Prompt) :
  ComponentSpec.wellKeyed ps ->
  Prompts.assoc id defaults = Some d ->
  Prompts.assoc id
    (Prompts.getInitialPrompts
       (PromptStorage.handlePromptsChangedEvent ps) defaults)
  = Some match Prompts.assoc id ps with
         | Some p =>
             if String.eqb id Prompts.BPM_PROMPT_ID then d
             else ComponentSpec.reloaded d p
         | None => d
         end.
Proof.
  intros Hw Hd. unfold PromptStorage.handlePromptsChangedEvent.
  rewrite (@stored_then_loaded _ defaults
             (@wellKeyed_delete Prompts.BPM_PROMPT_ID ps Hw) id d Hd).
  f_equal.
  destruct (String.eqb id Prompts.BPM_PROMPT_ID) eqn:E.
  - apply String.eqb_eq in E. subst id.
    rewrite (@assoc_absent _ Prompts.BPM_PROMPT_ID
               (PromptStorage.prompts_delete Prompts.BPM_PROMPT_ID
                  (PromptStorage.prompts_delete Prompts.BPM_PROMPT_ID ps))).
    + destruct (Prompts.assoc Prompts.BPM_PROMPT_ID ps); reflexivity.
    + apply prompts_delete_keys.
      apply (@wellKeyed_delete Prompts.BPM_PROMPT_ID ps Hw).
  - apply String.eqb_neq in E.
    rewrite !assoc_prompts_delete_other by exact E.
    destruct (Prompts.assoc id ps); reflexivity.
Qed.

Lemma stored_prompts_round_trip_witness :
  Prompts.assoc "prompt-0"%string
    (Prompts.getInitialPrompts
       (PromptStorage.handlePromptsChangedEvent
          (Component.prompts ComponentSpec.exampleComponent))
       [("prompt-0"%string, PromptSpec.examplePrompt)])
  = Some ComponentSpec.exampleTurnedUp.
Proof.
  refine (@stored_prompts_round_trip
            (Component.prompts ComponentSpec.exampleComponent)
            [("prompt-0"%string, PromptSpec.examplePrompt)]
            "prompt-0"%string PromptSpec.examplePrompt _ _).
  - split.
    + repeat constructor. intros [].
    + intros k p [H | []]. injection H as <- <-. reflexivity.
  - reflexivity.
Defined.

(** ** Editing the prompts *)

Section EditFacts.

Import Prompts PromptSpec PromptStorage Component ComponentSpec.
Local Open Scope string_scope.
Local Open Scope list_scope.

Lemma prompts_set_keys id p m : forall old,
  assoc id m = Some old ->
  List.map fst (prompts_set id p m) = List.map fst m.
Proof.
  induction m as [|[k0 p0] m IH]; intros old H; [discriminate|].
  cbn [assoc] in H. cbn [prompts_set].
  destruct (String.eqb k0 id); [reflexivity|].
  cbn [List.map fst]. f_equal. exact (IH old H).
Qed.

Lemma assoc_prompts_set_same id p m : assoc id (prompts_set id p m) = Some p.
Proof.
  induction m as [|[k0 p0] m IH]; cbn [prompts_set assoc].
  - now rewrite String.eqb_refl.
  - destruct (String.eqb k0 id) eqn:E; cbn [assoc]; now rewrite E.
Qed.

Lemma assoc_prompts_set_other id id' p m :
  id' <> id -> assoc id' (prompts_set id p m) = assoc id' m.
Proof.
  intros Hne. induction m as [|[k0 p0] m IH]; cbn [prompts_set assoc].
  - replace (String.eqb id id') with false; [reflexivity|].
    symmetry. apply String.eqb_neq. congruence.
  - destruct (String.eqb k0 id) eqn:E; cbn [assoc].
    + apply String.eqb_eq in E. subst k0.
      replace (String.eqb id id') with false; [reflexivity|].
      symmetry. apply String.eqb_neq. congruence.
    + destruct (String.eqb k0 id'); [reflexivity | exact IH].
Qed.

Lemma prompts_set_In id p m : forall k q,
  In (k, q) (prompts_set id p m) -> (k, q) = (id, p) \/ In (k, q) m.
Proof.
  induction m as [|[k0 p0] m IH]; intros k q H; cbn [prompts_set] in H.
  - destruct H as [H | []]. left. now symmetry.
  - destruct (String.eqb k0 id) eqn:E.
    + apply String.eqb_eq in E. subst k0.
      destruct H as [H | H]; [left; now symmetry | right; right; exact H].
    + destruct H as [H | H]; [right; left; exact H|].
      destruct (IH k q H) as [H1 | H1]; [left; exact H1 | right; right; exact H1].
Qed.

Lemma prompts_set_fst id p m :
  List.map fst (prompts_set id p m) = List.map fst m
  \/ (~ In id (List.map fst m)
      /\ List.map fst (prompts_set id p m) = List.map fst m ++ [id]).
Proof.
  induction m as [|[k0 p0] m IH]; cbn [prompts_set].
  - right. split; [intros [] | reflexivity].
  - destruct (String.eqb k0 id) eqn:E; [left; reflexivity|].
    apply String.eqb_neq in E. cbn [List.map fst].
    destruct IH as [IH | [IH1 IH2]].
    + left. now rewrite IH.
    + right. split; [|now rewrite IH2].
      intros [H | H]; [exact (E H) | exact (IH1 H)].
Qed.

Lemma wellKeyed_set id p m :
  wellKeyed m -> promptId p = id -> wellKeyed (prompts_set id p m).
Proof.
  intros [Hnd Hk] Hid. split.
  - destruct (prompts_set_fst id p m) as [-> | [Hn ->]]; [exact Hnd|].
    apply NoDup_app; [exact Hnd | repeat constructor; intros [] |].
    intros k Hin [<- | []]. exact (Hn Hin).
  - intros k q Hin. apply prompts_set_In in Hin.
    destruct Hin as [Heq | Hin]; [|exact (Hk k q Hin)].
    injection Heq as -> ->. exact Hid.
Qed.

Lemma mem_string_remove s l :
  NoDup l -> mem_string s (remove_string s l) = false.
Proof.
  induction l as [|x l IH]; intros H; [reflexivity|].
  apply NoDup_cons_iff in H. destruct H as [Hn H].
  cbn [remove_string]. destruct (list_eq_dec N.eq_dec s x) as [->|Hne].
  - clear IH H. induction l as [|y l IH]; [reflexivity|].
    cbn [mem_string]. destruct (list_eq_dec N.eq_dec x y) as [->|_].
    + exfalso. apply Hn. left. reflexivity.
    + apply IH. intros Hin. apply Hn. right. exact Hin.
  - cbn [mem_string]. destruct (list_eq_dec N.eq_dec s x); [contradiction|].
    apply IH. exact H.
Qed.

Lemma record_promptId q :
  get (record q) "promptId" = Ok (Some (JsonStr (promptId q))).
Proof. reflexivity. Qed.

(** The listener never stores a record of the BPM prompt. *)
Lemma handlePromptsChangedEvent_unrecorded m :
  wellKeyed m -> unrecorded BPM_PROMPT_ID (handlePromptsChangedEvent m).
Proof.
  intros Hw. unfold handlePromptsChangedEvent.
  rewrite setStoredPrompts_records. eexists. split; [reflexivity|].
  intros j Hin. apply in_map_iff in Hin. destruct Hin as (q & <- & Hq).
  rewrite record_promptId. intros Heq. injection Heq as Heq.
  unfold values in Hq. apply in_map_iff in Hq.
  destruct Hq as ([k q'] & Hs & Hin). cbn in Hs. subst q'.
  destruct Hw as [Hnd Hk].
  destruct (@prompts_delete_keys BPM_PROMPT_ID m Hnd) as [_ Hn].
  apply Hn. apply in_map_iff. exists (k, q). split; [|exact Hin].
  cbn. rewrite <- Heq. symmetry. apply (Hk k q).
  now apply prompts_delete_In in Hin.
Qed.

End EditFacts.

(** X18.  A [prompt-changed] event adds no prompt, removes none and moves
    none; it leaves the prompts of other ids as they are; and for an id
    that is not in the map it changes nothing at all. *)
Theorem handlePromptChanged_keeps_ids (T : Type) (O : Ops T)
    (detail : Component.PromptChange) (c : Component.Component T) :
  let c' := Component.handlePromptChanged detail c in
  List.map fst (Component.prompts c') = List.map fst (Component.prompts c)
  /\ (forall id,
        id <> Component.changedId detail ->
        Prompts.assoc id (Component.prompts c')
        = Prompts.assoc id (Component.prompts c))
  /\ (Prompts.assoc (Component.changedId detail) (Component.prompts c) = None
      -> c' = c).
Proof.
  intros c'. subst c'. unfold Component.handlePromptChanged.
  destruct (Prompts.assoc (Component.changedId detail) (Component.prompts c))
    as [prompt|] eqn:E.
  - split; [|split].
    + match goal with
      | |- context [if ?b then _ else _] => destruct b
      end; cbn; exact (@prompts_set_keys _ _ _ _ E).
    + intros id Hne.
      match goal with
      | |- context [if ?b then _ else _] => destruct b
      end; cbn; exact (@assoc_prompts_set_other _ _ _ _ Hne).
    + discriminate.
  - split; [reflexivity|]. split; [reflexivity|]. reflexivity.
Qed.

(** X19.  Editing the text of a prompt takes its old text out of the set
    of filtered texts, so that the prompt is sent again when its new text
    is not filtered and its weight is not zero; a change that keeps the
    text leaves the set as it is.  The prompt holds the text and weight
    of the event. *)
Theorem edited_text_is_unfiltered (T : Type) (O : Ops T)
    (detail : Component.PromptChange) (c : Component.Component T)
    (prompt : Prompts.Prompt) :
  NoDup (filteredPrompts (Component.player c)) ->
  Prompts.assoc (Component.changedId detail) (Component.prompts c)
  = Some prompt ->
  let c' := Component.handlePromptChanged detail c in
  let filtered' := filteredPrompts (Component.player c') in
  (Component.strict_eq (Prompts.text prompt) (Component.changedText detail)
   = false ->
   Component.has filtered' (Prompts.text prompt) = false)
  /\ (Component.strict_eq (Prompts.text prompt) (Component.changedText detail)
      = true ->
      filtered' = filteredPrompts (Component.player c))
  /\ (exists prompt',
        Prompts.assoc (Component.changedId detail) (Component.prompts c')
        = Some prompt'
        /\ Prompts.text prompt' = Component.changedText detail
        /\ Prompts.weight prompt' = Component.changedWeight detail
        /\ (Component.has filtered' (Component.changedText detail) = false ->
            Component.strict_eq (Component.changedWeight detail)
              (Prompts.JsonNum 0%float) = false ->
            In prompt' (Component.getPromptsToSend c'))).
Proof.
  intros Hnd E c' filtered'. subst filtered' c'.
  unfold Component.handlePromptChanged. rewrite E.
  destruct (Component.strict_eq (Prompts.text prompt)
              (Component.changedText detail)) eqn:Es; cbn [negb andb].
  - split; [discriminate|]. split; [reflexivity|].
    eexists. split; [apply assoc_prompts_set_same|].
    split; [reflexivity|]. split; [reflexivity|].
    intros Hf Hw. unfold Component.getPromptsToSend.
    apply filter_In. split.
    + unfold PromptStorage.values. apply in_map_iff.
      eexists (_, _). split; [reflexivity|].
      apply assoc_In. apply assoc_prompts_set_same.
    + cbn. cbn in Hf. rewrite Hf, Hw. reflexivity.
  - destruct (Component.has (filteredPrompts (Component.player c))
                (Prompts.text prompt)) eqn:Eh.
    + split; [|split; [discriminate|]].
      * intros _. cbn. unfold Component.has, Component.delete.
        destruct (Prompts.text prompt); try reflexivity.
        apply mem_string_remove. exact Hnd.
      * eexists. split; [apply assoc_prompts_set_same|].
        split; [reflexivity|]. split; [reflexivity|].
        intros Hf Hw. unfold Component.getPromptsToSend.
        apply filter_In. split.
        -- unfold PromptStorage.values. apply in_map_iff.
           eexists (_, _). split; [reflexivity|].
           apply assoc_In. apply assoc_prompts_set_same.
        -- cbn. cbn in Hf. rewrite Hf, Hw. reflexivity.
    + split; [|split; [discriminate|]].
      * intros _. exact Eh.
      * eexists. split; [apply assoc_prompts_set_same|].
        split; [reflexivity|]. split; [reflexivity|].
        intros Hf Hw. unfold Component.getPromptsToSend.
        apply filter_In. split.
        -- unfold PromptStorage.values. apply in_map_iff.
           eexists (_, _). split; [reflexivity|].
           apply assoc_In. apply assoc_prompts_set_same.
        -- cbn. cbn in Hf. rewrite Hf, Hw. reflexivity.
Qed.

Lemma edited_text_is_unfiltered_witness :
  Component.has
    (filteredPrompts
       (Component.player
          (Component.handlePromptChanged ComponentSpec.exampleChange
             ComponentSpec.exampleFiltered)))
    (Prompts.JsonStr "Bossa Nova")
  = false.
Proof.
  refine (proj1 (@edited_text_is_unfiltered Q QOps
                   ComponentSpec.exampleChange ComponentSpec.exampleFiltered
                   ComponentSpec.exampleTurnedUp _ _) _).
  - repeat constructor. intros [].
  - reflexivity.
  - reflexivity.
Defined.

(** X20.  The BPM prompt is sent but not stored.  After
    [updateBpmSpecificPrompt], on prompts keyed by their ids: the map
    holds the BPM prompt under its id, the stored array holds no record
    of it, and it is among the prompts to send unless its text is
    filtered, so that [play] then finds a prompt to send even when every
    knob and toggle is at zero. *)
Theorem bpm_prompt_sent_not_stored (T : Type) (O : Ops T)
    (bpmPromptText : string) (c : Component.Component T) :
  ComponentSpec.wellKeyed (Component.prompts c) ->
  let c' := Component.updateBpmSpecificPrompt bpmPromptText c in
  Prompts.assoc Prompts.BPM_PROMPT_ID (Component.prompts c')
  = Some (ComponentSpec.bpmPrompt bpmPromptText)
  /\ ComponentSpec.wellKeyed (Component.prompts c')
  /\ ComponentSpec.unrecorded Prompts.BPM_PROMPT_ID (Component.storage c')
  /\ (Component.has (filteredPrompts (Component.player c))
        (Prompts.JsonStr bpmPromptText) = false ->
      In (ComponentSpec.bpmPrompt bpmPromptText)
        (Component.getPromptsToSend c')
      /\ Component.resumeCalls (Component.play c')
         = match session (Component.player c) with
           | Some _ => S (Component.resumeCalls c)
           | None => Component.resumeCalls c
           end).
Proof.
  intros Hw c'. subst c'.
  unfold Component.updateBpmSpecificPrompt, Component.dispatchPromptsChange.
  fold (ComponentSpec.bpmPrompt bpmPromptText).
  cbn [Component.prompts Component.set_prompts Component.set_storage
       Component.storage].
  assert (Hw' : ComponentSpec.wellKeyed
                  (PromptStorage.prompts_set Prompts.BPM_PROMPT_ID
                     (ComponentSpec.bpmPrompt bpmPromptText)
                     (Component.prompts c)))
    by (apply wellKeyed_set; [exact Hw | reflexivity]).
  split; [apply assoc_prompts_set_same|].
  split; [exact Hw'|].
  split; [apply handlePromptsChangedEvent_unrecorded; exact Hw'|].
  intros Hf.
  assert (Hin : In (ComponentSpec.bpmPrompt bpmPromptText)
                  (Component.getPromptsToSend
                     (Component.set_storage
                        (PromptStorage.handlePromptsChangedEvent
                           (PromptStorage.prompts_set Prompts.BPM_PROMPT_ID
                              (ComponentSpec.bpmPrompt bpmPromptText)
                              (Component.prompts c)))
                        (Component.set_prompts
                           (PromptStorage.prompts_set Prompts.BPM_PROMPT_ID
                              (ComponentSpec.bpmPrompt bpmPromptText)
                              (Component.prompts c)) c)))).
  { unfold Component.getPromptsToSend. apply filter_In. split.
    - unfold PromptStorage.values. apply in_map_iff.
      eexists (_, _). split; [reflexivity|].
      apply assoc_In. apply assoc_prompts_set_same.
    - cbn. cbn in Hf. rewrite Hf. reflexivity. }
  split; [exact Hin|].
  unfold Component.play.
  destruct (Component.getPromptsToSend _) as [|p l]; [destruct Hin|].
  cbn [Component.player Component.set_storage Component.set_prompts].
  destruct (session (Component.player c)); reflexivity.
Qed.

Lemma bpm_prompt_sent_not_stored_witness :
  ComponentSpec.unrecorded Prompts.BPM_PROMPT_ID
    (Component.storage
       (Component.updateBpmSpecificPrompt "120BPM"
          ComponentSpec.exampleComponent)).
Proof.
  refine (proj1 (proj2 (proj2
            (@bpm_prompt_sent_not_stored Q QOps "120BPM"
               ComponentSpec.exampleComponent _)))).
  split.
  - repeat constructor. intros [].
  - intros k p [H | []]. injection H as <- <-. reflexivity.
Defined.

(** ** The initial BPM *)

Section DoubleBounds.

Lemma SFcompare_nan a b :
  SFcompare a b = None -> a = S754_nan \/ b = S754_nan.
Proof.
  destruct a as [sa|sa| |sa ma ea], b as [sb|sb| |sb mb eb]; cbn;
    try discriminate; auto.
Qed.

(** Numbers that compare as equal are two zeros or the same number. *)
Lemma SFcompare_Eq a b :
  SFcompare a b = Some Eq ->
  (exists s s', a = S754_zero s /\ b = S754_zero s') \/ a = b.
Proof.
  destruct a as [sa|sa| |sa ma ea], b as [sb|sb| |sb mb eb]; cbn;
    try discriminate;
    try (destruct sa; discriminate); try (destruct sb; discriminate).
  - intros _. left. exists sa, sb. split; reflexivity.
  - destruct sa, sb; try discriminate; intros _; right; reflexivity.
  - change (Pos.compare_cont Eq ma mb) with (Pos.compare ma mb).
    destruct sa, sb; try discriminate;
      destruct (Z.compare_spec ea eb); try discriminate;
      destruct (Pos.compare_spec ma mb); try discriminate;
      intros _; subst; right; reflexivity.
Qed.

Lemma is_nan_spec (a : float) :
  PrimFloat.is_nan a = false <-> Prim2SF a <> S754_nan.
Proof.
  unfold PrimFloat.is_nan. rewrite eqb_spec. unfold SFeqb. split.
  - intros H E. rewrite E in H. discriminate.
  - intros H. destruct (SFcompare_refl (Prim2SF a)) as [E | E]; rewrite E.
    + apply SFcompare_nan in E. tauto.
    + reflexivity.
Qed.

Lemma leb_not_nan (a b : float) :
  PrimFloat.leb a b = true ->
  PrimFloat.is_nan a = false /\ PrimFloat.is_nan b = false.
Proof.
  rewrite leb_spec, !is_nan_spec. intros H.
  apply SFleb_rank in H. tauto.
Qed.

Lemma leb_refl_double (a : float) :
  PrimFloat.is_nan a = false -> PrimFloat.leb a a = true.
Proof.
  rewrite is_nan_spec, leb_spec. intros H. unfold SFleb.
  destruct (SFcompare_refl (Prim2SF a)) as [E | E]; rewrite E.
  - apply SFcompare_nan in E. tauto.
  - reflexivity.
Qed.

(** Of two doubles that are not NaN, when neither is less than the other
    they compare as equal. *)
Lemma neither_less (a b : float) :
  PrimFloat.is_nan a = false -> PrimFloat.is_nan b = false ->
  PrimFloat.ltb a b = false -> PrimFloat.ltb b a = false ->
  SFcompare (Prim2SF a) (Prim2SF b) = Some Eq.
Proof.
  rewrite !is_nan_spec, !ltb_spec. unfold SFltb.
  rewrite (SFcompare_antisym (Prim2SF a) (Prim2SF b)).
  intros Ha Hb. destruct (SFcompare (Prim2SF a) (Prim2SF b)) as [[| |]|] eqn:E;
    cbn; try discriminate; try reflexivity.
  apply SFcompare_nan in E. tauto.
Qed.

Lemma neither_less_leb (a b : float) :
  PrimFloat.is_nan a = false -> PrimFloat.is_nan b = false ->
  PrimFloat.ltb a b = false -> PrimFloat.ltb b a = false ->
  PrimFloat.leb a b = true /\ PrimFloat.leb b a = true.
Proof.
  intros Ha Hb H1 H2. pose proof (@neither_less a b Ha Hb H1 H2) as E.
  rewrite !leb_spec. unfold SFleb.
  rewrite (SFcompare_antisym (Prim2SF a) (Prim2SF b)), E. split; reflexivity.
Qed.

(** [Math.max] of two numbers is one of them, and not less than either. *)
Lemma Math_max_spec (a b : float) :
  PrimFloat.is_nan a = false -> PrimFloat.is_nan b = false ->
  (Component.Math_max a b = a \/ Component.Math_max a b = b)
  /\ PrimFloat.leb a (Component.Math_max a b) = true
  /\ PrimFloat.leb b (Component.Math_max a b) = true.
Proof.
  intros Ha Hb. unfold Component.Math_max. rewrite Ha, Hb. cbn [orb].
  destruct (PrimFloat.ltb a b) eqn:E1.
  - split; [right; reflexivity|].
    split; [apply (@ltb_leb float FloatOps DoubleLaws); exact E1
           | apply leb_refl_double; exact Hb].
  - destruct (PrimFloat.ltb b a) eqn:E2.
    + split; [left; reflexivity|].
      split; [apply leb_refl_double; exact Ha
             | apply (@ltb_leb float FloatOps DoubleLaws); exact E2].
    + destruct (@neither_less_leb a b Ha Hb E1 E2) as [L1 L2].
      destruct (PrimFloat.get_sign a).
      * split; [right; reflexivity|].
        split; [exact L1 | apply leb_refl_double; exact Hb].
      * split; [left; reflexivity|].
        split; [apply leb_refl_double; exact Ha | exact L2].
Qed.

(** [Math.min] of two numbers is one of them, and not more than either. *)
Lemma Math_min_spec (a b : float) :
  PrimFloat.is_nan a = false -> PrimFloat.is_nan b = false ->
  (Component.Math_min a b = a \/ Component.Math_min a b = b)
  /\ PrimFloat.leb (Component.Math_min a b) a = true
  /\ PrimFloat.leb (Component.Math_min a b) b = true.
Proof.
  intros Ha Hb. unfold Component.Math_min. rewrite Ha, Hb. cbn [orb].
  destruct (PrimFloat.ltb b a) eqn:E1.
  - split; [right; reflexivity|].
    split; [apply (@ltb_leb float FloatOps DoubleLaws); exact E1
           | apply leb_refl_double; exact Hb].
  - destruct (PrimFloat.ltb a b) eqn:E2.
    + split; [left; reflexivity|].
      split; [apply leb_refl_double; exact Ha
             | apply (@ltb_leb float FloatOps DoubleLaws); exact E2].
    + destruct (@neither_less_leb a b Ha Hb E2 E1) as [L1 L2].
      destruct (PrimFloat.get_sign a).
      * split; [left; reflexivity|].
        split; [apply leb_refl_double; exact Ha | exact L1].
      * split; [right; reflexivity|].
        split; [exact L2 | apply leb_refl_double; exact Hb].
Qed.

End DoubleBounds.

(** X21.  The BPM that [fetchAppMetadata] and [resetAll] set from a range
    of doubles lies in the range when [minBpm <= maxBpm], and is 120
    when [minBpm < 120 <= maxBpm]. *)
Theorem initialBpm_in_range (minBpm maxBpm : float) :
  PrimFloat.leb minBpm maxBpm = true ->
  let bpm := Component.initialBpm minBpm maxBpm in
  PrimFloat.leb minBpm bpm = true
  /\ PrimFloat.leb bpm maxBpm = true
  /\ (PrimFloat.ltb minBpm 120%float = true ->
      PrimFloat.leb 120%float maxBpm = true ->
      bpm = 120%float).
Proof.
  intros Hr bpm. subst bpm. unfold Component.initialBpm.
  destruct (@leb_not_nan _ _ Hr) as [Hmin Hmax].
  assert (H120 : PrimFloat.is_nan 120%float = false) by reflexivity.
  destruct (@Math_min_spec 120%float maxBpm H120 Hmax) as (Hx & Hx1 & Hx2).
  set (x := Component.Math_min 120%float maxBpm) in *.
  assert (Hxn : PrimFloat.is_nan x = false)
    by (destruct Hx as [-> | ->]; assumption).
  destruct (@Math_max_spec minBpm x Hmin Hxn) as (Hm & Hm1 & Hm2).
  split; [exact Hm1|]. split.
  - destruct Hm as [-> | ->]; assumption.
  - intros Hlt Hle.
    assert (Ex : x = 120%float).
    { assert (Hgt : PrimFloat.ltb maxBpm 120%float = false)
        by (apply (@leb_ltb float FloatOps DoubleLaws); exact Hle).
      unfold x, Component.Math_min. rewrite H120, Hmax. cbn [orb].
      rewrite Hgt.
      destruct (PrimFloat.ltb 120%float maxBpm) eqn:E; [reflexivity|].
      change (PrimFloat.get_sign 120%float) with false. cbn iota.
      pose proof (@neither_less 120%float maxBpm H120 Hmax E Hgt) as Heq.
      destruct (@SFcompare_Eq _ _ Heq) as [(s & s' & Hz & _) | Hsame].
      - vm_compute in Hz. discriminate.
      - symmetry. apply Prim2SF_inj. exact Hsame. }
    clearbody x. subst x.
    unfold Component.Math_max. rewrite Hmin, H120. cbn [orb].
    rewrite Hlt. reflexivity.
Qed.

Lemma initialBpm_in_range_witness :
  Component.initialBpm 110%float 150%float = 120%float.
Proof.
  destruct (@initialBpm_in_range 110%float 150%float) as (_ & _ & H).
  - reflexivity.
  - apply H; reflexivity.
Defined.

(** On zeros and on NaN the two functions do as the platform's. *)
Example Math_max_min_edges :
  Prim2SF (Component.Math_max (-0)%float 0%float) = S754_zero false
  /\ Prim2SF (Component.Math_max 0%float (-0)%float) = S754_zero false
  /\ Prim2SF (Component.Math_max (-0)%float (-0)%float) = S754_zero true
  /\ Prim2SF (Component.Math_min 0%float (-0)%float) = S754_zero true
  /\ Prim2SF (Component.Math_min (-0)%float 0%float) = S754_zero true
  /\ Prim2SF (Component.Math_min 0%float 0%float) = S754_zero false
  /\ Prim2SF (Component.initialBpm (-0)%float 0%float) = S754_zero false
  /\ PrimFloat.is_nan (Component.Math_max 110%float PrimFloat.nan) = true
  /\ PrimFloat.is_nan (Component.initialBpm PrimFloat.nan 150%float) = true.
Proof. vm_compute. repeat split. Qed.

(** ** The stream format and the filtered texts *)

Section SetupFacts.

Import ComponentSpec.

Context {T : Type} {O : Ops T}.

Lemma sameSetup_refl (st : State T) : sameSetup st st.
Proof. repeat split. Qed.

Lemma sameSetup_trans (a b c : State T) :
  sameSetup a b -> sameSetup b c -> sameSetup a c.
Proof.
  intros (A1 & A2 & A3) (B1 & B2 & B3). repeat split; congruence.
Qed.

Lemma sendCurrentBpmToSession_sameSetup o (st : State T) :
  sameSetup st (sendCurrentBpmToSession o st).
Proof.
  unfold sendCurrentBpmToSession.
  destruct (session st) as [s|]; [|apply sameSetup_refl].
  destruct (currentBpm st); [|apply sameSetup_refl].
  destruct (has_setBpm s); [|apply sameSetup_refl].
  destruct o; repeat split.
Qed.

Lemma handleSettingsChanged_sameSetup (st : State T) :
  sameSetup st (handleSettingsChanged st).
Proof.
  unfold handleSettingsChanged.
  destruct (session st); [|apply sameSetup_refl].
  destruct (negb (connectionError st)); repeat split.
Qed.

Lemma scheduleBuffer_sameSetup now b (st : State T) :
  sameSetup st (scheduleBuffer now b st).
Proof.
  unfold scheduleBuffer, startStep, underrunStep, firstBufferStep.
  destruct (eqb (nextStartTime st) zero);
    match goal with |- context [ltb ?a now] => destruct (ltb a now) end;
    repeat split.
Qed.

Lemma onAudioChunks_sameSetup env chunks (st : State T) :
  sameSetup st (onAudioChunks env chunks st).
Proof.
  destruct (onAudioChunks_cases env chunks st) as [-> | [s ->]];
    [apply sameSetup_refl|].
  destruct (playChunk_cases env s st)
    as [-> | [-> | [b [[-> _] | [-> | ->]]]]];
    try solve [repeat split].
  - apply sameSetup_trans with (set_created (created st ++ [b]) st);
      [repeat split | apply scheduleBuffer_sameSetup].
  - apply sameSetup_trans
      with (set_contextState running (set_created (created st ++ [b]) st));
      [repeat split | apply scheduleBuffer_sameSetup].
Qed.

(** What [setupComplete] does to the stream format. *)
Lemma onSetupComplete_format env sc (st : State T) :
  let st' := onSetupComplete env sc st in
  sessionSampleRate st'
  = match sampleRateHertz sc with
    | Some r => if eqb r zero then sessionSampleRate st else r
    | None => sessionSampleRate st
    end
  /\ sessionNumChannels st'
     = match setupChannels sc with
       | Some c => if (c =? 0)%Z then sessionNumChannels st else c
       | None => sessionNumChannels st
       end
  /\ filteredPrompts st' = filteredPrompts st.
Proof.
  intros st'. subst st'. unfold onSetupComplete.
  set (st1 := set_connectionError false st).
  set (st2 := match sampleRateHertz sc with
              | Some r => if eqb r zero then st1 else set_sessionSampleRate r st1
              | None => st1
              end).
  set (st3 := match setupChannels sc with
              | Some c => if (c =? 0)%Z then st2 else set_sessionNumChannels c st2
              | None => st2
              end).
  assert (H3 : sessionSampleRate st3
               = match sampleRateHertz sc with
                 | Some r => if eqb r zero then sessionSampleRate st else r
                 | None => sessionSampleRate st
                 end
               /\ sessionNumChannels st3
                  = match setupChannels sc with
                    | Some c => if (c =? 0)%Z then sessionNumChannels st else c
                    | None => sessionNumChannels st
                    end
               /\ filteredPrompts st3 = filteredPrompts st).
  { unfold st3, st2, st1.
    destruct (sampleRateHertz sc) as [r|]; [destruct (eqb r zero)|];
      (destruct (setupChannels sc) as [c|]; [destruct (c =? 0)%Z|]);
      repeat split. }
  pose proof (sendCurrentBpmToSession_sameSetup (setBpmOutcome env) st3) as H4.
  set (st4 := sendCurrentBpmToSession (setBpmOutcome env) st3) in *.
  assert (H5 : sameSetup st3
                 match settingsControllerEl st4, session st4 with
                 | true, Some _ => handleSettingsChanged st4
                 | _, _ => st4
                 end).
  { destruct (settingsControllerEl st4); [|exact H4].
    destruct (session st4); [|exact H4].
    apply sameSetup_trans with st4;
      [exact H4 | apply handleSettingsChanged_sameSetup]. }
  destruct H3 as (A1 & A2 & A3), H5 as (B1 & B2 & B3).
  repeat split; congruence.
Qed.

Lemma mem_string_app s l1 l2 :
  mem_string s (l1 ++ l2) = mem_string s l1 || mem_string s l2.
Proof.
  induction l1 as [|x l1 IH]; [reflexivity|].
  cbn [app mem_string]. destruct (list_eq_dec N.eq_dec s x); [reflexivity|].
  exact IH.
Qed.

Lemma mem_string_refl s : mem_string s [s] = true.
Proof.
  cbn [mem_string]. destruct (list_eq_dec N.eq_dec s s); [reflexivity|].
  contradiction.
Qed.

End SetupFacts.

(** X22.  The handler never sets the session's channel count or sample
    rate to 0: a [setupComplete] that reports 0, or nothing, leaves the
    value in use, and no other part of the handler writes them.  So the
    builder is never given a channel count of 0 by a state that had
    another one. *)
Theorem stream_format_never_zero (T : Type) (O : Ops T)
    (env : Env T) (e : ServerMessage T) (st : State T) :
  let st' := onmessage env e st in
  (sessionNumChannels st <> 0%Z -> sessionNumChannels st' <> 0%Z)
  /\ (eqb (sessionSampleRate st) zero = false ->
      eqb (sessionSampleRate st') zero = false).
Proof.
  intros st'. subst st'. unfold onmessage.
  match goal with
  | |- context [onAudioChunks env (audioChunks e) ?s] => set (st2 := s)
  end.
  destruct (onAudioChunks_sameSetup env (audioChunks e) st2) as (R2 & C2 & _).
  rewrite R2, C2. clear R2 C2.
  assert (H2 : sessionNumChannels st2
               = match setupComplete e with
                 | Some sc =>
                     match setupChannels sc with
                     | Some c =>
                         if (c =? 0)%Z then sessionNumChannels st else c
                     | None => sessionNumChannels st
                     end
                 | None => sessionNumChannels st
                 end
               /\ sessionSampleRate st2
                  = match setupComplete e with
                    | Some sc =>
                        match sampleRateHertz sc with
                        | Some r =>
                            if eqb r zero then sessionSampleRate st else r
                        | None => sessionSampleRate st
                        end
                    | None => sessionSampleRate st
                    end).
  { unfold st2. destruct (setupComplete e) as [sc|].
    - destruct (onSetupComplete_format env sc st) as (A1 & A2 & _).
      destruct (filteredPrompt e) as [fp|].
      + unfold onFilteredPrompt.
        destruct (mem_string _ _); split; cbn; assumption.
      + split; assumption.
    - destruct (filteredPrompt e) as [fp|]; [|split; reflexivity].
      unfold onFilteredPrompt. destruct (mem_string _ _); split; reflexivity. }
  destruct H2 as [-> ->]. split.
  - intros Hc. destruct (setupComplete e) as [sc|]; [|exact Hc].
    destruct (setupChannels sc) as [c|]; [|exact Hc].
    destruct (c =? 0)%Z eqn:E; [exact Hc|]. now apply Z.eqb_neq.
  - intros Hr. destruct (setupComplete e) as [sc|]; [|exact Hr].
    destruct (sampleRateHertz sc) as [r|]; [|exact Hr].
    destruct (eqb r zero) eqn:E; [exact Hr | exact E].
Qed.

(** X23.  A text the server reports as filtered is not sent again: after
    the message, no prompt with that text is among the prompts to send,
    whatever its weight, and the texts filtered before stay filtered. *)
Theorem filtered_prompt_is_not_sent (T : Type) (O : Ops T)
    (env : Env T) (e : ServerMessage T) (fp : FilteredPrompt)
    (c : Component.Component T) :
  filteredPrompt e = Some fp ->
  let c' := Component.on_player (onmessage env e) c in
  (forall p s,
     In p (Component.getPromptsToSend c') ->
     Prompts.text p = Prompts.JsonStr s ->
     js s <> text fp)
  /\ (forall s,
        mem_string s (filteredPrompts (Component.player c)) = true ->
        mem_string s (filteredPrompts (Component.player c')) = true).
Proof.
  intros Hfp c'. subst c'.
  cbn [Component.on_player Component.player].
  assert (Hf : exists l,
             filteredPrompts (onmessage env e (Component.player c))
             = filteredPrompts (Component.player c) ++ l
             /\ mem_string (text fp)
                  (filteredPrompts (onmessage env e (Component.player c)))
                = true).
  { unfold onmessage. rewrite Hfp.
    match goal with
    | |- context [onAudioChunks env (audioChunks e) ?s] => set (st2 := s)
    end.
    destruct (onAudioChunks_sameSetup env (audioChunks e) st2) as (_ & _ & ->).
    unfold st2, onFilteredPrompt.
    match goal with
    | |- context [mem_string (text fp) (filteredPrompts ?s)] => set (st1 := s)
    end.
    assert (H1 : filteredPrompts st1 = filteredPrompts (Component.player c)).
    { unfold st1. destruct (setupComplete e) as [sc|]; [|reflexivity].
      apply (onSetupComplete_format env sc (Component.player c)). }
    destruct (mem_string (text fp) (filteredPrompts st1)) eqn:Em.
    - exists []. cbn. rewrite app_nil_r. split; [exact H1 | exact Em].
    - exists [text fp]. cbn. rewrite H1. split; [reflexivity|].
      rewrite mem_string_app, mem_string_refl. apply orb_true_r. }
  destruct Hf as (l & Hl & Hm). split.
  - intros p s Hin Ht Heq.
    unfold Component.getPromptsToSend in Hin.
    apply filter_In in Hin. destruct Hin as [_ Hin].
    cbn [Component.on_player Component.player] in Hin.
    rewrite Ht in Hin. cbn [Component.has] in Hin.
    rewrite Heq, Hm in Hin. discriminate.
  - intros s Hs. rewrite Hl, mem_string_app, Hs. reflexivity.
Qed.

Lemma filtered_prompt_is_not_sent_witness :
  mem_string (js "Bossa Nova")
    (filteredPrompts
       (Component.player
          (Component.on_player
             (onmessage {| currentTime := 3%Q; setBpmOutcome := Returns;
                           resumeSucceeds := true |}
                {| setupComplete := None;
                   filteredPrompt :=
                     Some {| text := js "Techno";
                             filteredReason := js "blocked" |};
                   audioChunks := None |})
             ComponentSpec.exampleFiltered)))
  = true.
Proof.
  apply (proj2 (@filtered_prompt_is_not_sent Q QOps
                  {| currentTime := 3%Q; setBpmOutcome := Returns;
                     resumeSucceeds := true |}
                  {| setupComplete := None;
                     filteredPrompt :=
                       Some {| text := js "Techno";
                               filteredReason := js "blocked" |};
                     audioChunks := None |}
                  {| text := js "Techno"; filteredReason := js "blocked" |}
                  ComponentSpec.exampleFiltered eq_refl)).
  reflexivity.
Defined.

Section SessionLost.

Context {T : Type} {O : Ops T}.

(** [setupComplete] when [session.setBpm] throws the error of a lost
    session. *)
Lemma onSetupComplete_session_lost env sc s bpm (st : State T) :
  session st = Some s -> has_setBpm s = true -> currentBpm st = Some bpm ->
  setBpmOutcome env = ThrowsSessionLost ->
  let st' := onSetupComplete env sc st in
  playbackState st' = stopped
  /\ session st' = None
  /\ connectionError st' = true
  /\ sent st' = sent st ++ [CallSetBpm]
  /\ started st' = started st
  /\ toasts st' = toasts st ++ [ToastSessionLostBpm].
Proof.
  intros Hs Hb Hbpm Ho st'. subst st'. unfold onSetupComplete.
  set (st1 := set_connectionError false st).
  set (st2 := match sampleRateHertz sc with
              | Some r => if eqb r zero then st1 else set_sessionSampleRate r st1
              | None => st1
              end).
  set (st3 := match setupChannels sc with
              | Some c => if (c =? 0)%Z then st2 else set_sessionNumChannels c st2
              | None => st2
              end).
  assert (H3 : session st3 = session st /\ currentBpm st3 = currentBpm st
               /\ sent st3 = sent st /\ started st3 = started st
               /\ toasts st3 = toasts st).
  { unfold st3, st2, st1.
    destruct (sampleRateHertz sc) as [r|]; [destruct (eqb r zero)|];
      (destruct (setupChannels sc) as [c|]; [destruct (c =? 0)%Z|]);
      repeat split. }
  destruct H3 as (A1 & A2 & A3 & A4 & A5).
  unfold sendCurrentBpmToSession. rewrite A1, A2, Hs, Hbpm, Hb, Ho.
  match goal with
  | |- context [settingsControllerEl ?x] => set (st4 := x)
  end.
  change (session st4) with (@None Session).
  assert (H4 : playbackState st4 = stopped /\ session st4 = None
               /\ connectionError st4 = true
               /\ sent st4 = sent st3 ++ [CallSetBpm]
               /\ started st4 = started st3
               /\ toasts st4 = toasts st3 ++ [ToastSessionLostBpm])
    by (repeat split).
  destruct H4 as (B1 & B2 & B3 & B4 & B5 & B6).
  destruct (settingsControllerEl st4); repeat split; congruence.
Qed.

End SessionLost.

(** X24.  When the session is lost while the handler sends the BPM on
    [setupComplete], the message ends there: playback is stopped, the
    session is dropped and the connection is marked as failed, although
    [setupComplete] had just cleared that mark; the settings are not
    sent, and the audio chunk of the same message is not played. *)
Theorem session_lost_during_setup (T : Type) (O : Ops T)
    (env : Env T) (e : ServerMessage T) (sc : SetupComplete T)
    (s : Session) (bpm : T) (st : State T) :
  setupComplete e = Some sc ->
  session st = Some s -> has_setBpm s = true -> currentBpm st = Some bpm ->
  setBpmOutcome env = ThrowsSessionLost ->
  let st' := onmessage env e st in
  playbackState st' = stopped
  /\ session st' = None
  /\ connectionError st' = true
  /\ sent st' = sent st ++ [CallSetBpm]
  /\ started st' = started st
  /\ In ToastSessionLostBpm (toasts st').
Proof.
  intros Hsc Hs Hb Hbpm Ho st'. subst st'. unfold onmessage. rewrite Hsc.
  destruct (@onSetupComplete_session_lost T O env sc s bpm st Hs Hb Hbpm Ho)
    as (A1 & A2 & A3 & A4 & A5 & A6).
  set (st1 := onSetupComplete env sc st) in *.
  match goal with
  | |- context [onAudioChunks env (audioChunks e) ?x] => set (st2 := x)
  end.
  assert (H2 : playbackState st2 = stopped /\ session st2 = None
               /\ connectionError st2 = true
               /\ sent st2 = sent st ++ [CallSetBpm]
               /\ started st2 = started st
               /\ In ToastSessionLostBpm (toasts st2)).
  { assert (Ht : In ToastSessionLostBpm (toasts st1))
      by (rewrite A6; apply in_or_app; right; left; reflexivity).
    unfold st2. destruct (filteredPrompt e) as [fp|].
    - unfold onFilteredPrompt.
      destruct (mem_string (text fp) (filteredPrompts st1)); cbn;
        repeat split; try assumption;
        apply in_or_app; left; exact Ht.
    - repeat split; assumption. }
  rewrite (@onAudioChunks_idle T O env (audioChunks e) st2)
    by (left; apply H2).
  exact H2.
Qed.

Lemma session_lost_during_setup_witness :
  playbackState
    (onmessage {| currentTime := 3%Q; setBpmOutcome := ThrowsSessionLost;
                  resumeSucceeds := true |}
       {| setupComplete :=
            Some {| sampleRateHertz := Some 48000%Q;
                    setupChannels := Some 2%Z |};
          filteredPrompt := None;
          audioChunks := Some [Some {| data := JString (js "AQIDBAUGBwg=") |}] |}
       exampleState)
  = stopped.
Proof.
  refine (proj1 (@session_lost_during_setup Q QOps
                   {| currentTime := 3%Q; setBpmOutcome := ThrowsSessionLost;
                      resumeSucceeds := true |}
                   {| setupComplete :=
                        Some {| sampleRateHertz := Some 48000%Q;
                                setupChannels := Some 2%Z |};
                      filteredPrompt := None;
                      audioChunks :=
                        Some [Some {| data := JString (js "AQIDBAUGBwg=") |}] |}
                   {| sampleRateHertz := Some 48000%Q;
                      setupChannels := Some 2%Z |}
                   {| has_setBpm := true |} 120%Q exampleState
                   eq_refl eq_refl eq_refl eq_refl eq_refl)).
Defined.
